(** * ArduinOS core: window registry, input engine, frame buffer, scheduler

    A shallow embedding of the parts of [arduinOS.ino] that implement the
    desktop window registry ([deskOpenWindow], [deskCloseWindow],
    [deskBringToFront]), the drag / resize controller of [drawDesktopApp],
    the hold-to-repeat and chord logic of [loop], the frame buffer manager
    ([initDoubleBuffer], [flushBuffer], [deskFullRedraw] with its windows
    loop and the image viewer's copy into the canvas) and
    the storage hot-swap supervision of [loop]; and, around them, the
    drawing methods of [PSRAMCanvas16], [flushBufferRegion], hit testing
    and the taskbar auto-hide, cursor movement, click debounce and scroll
    bar drag of [drawDesktopApp], the software clock ([updateTime] and the
    seconds tick of [loop]), the Tetris board ([tetrisCheckCollision],
    [tetrisHardDrop], [tetrisLockPiece], [tetrisClearLines]), the file list
    ([naturalCompare], [sortFiles]) and the screenshot writer of
    [takeScreenshot] with the row reader of [loadBMPFile].

    Conventions.  The sketch keeps its state in globals; here every group of
    globals is a record that is threaded through the functions.  Fixed-size
    C arrays are lists updated in place with stdpp's [<[i:=v]>]; [intN_t]
    values that can be negative are [Z]; array positions and counters that
    the code only ever uses as non-negative indices are [nat].  [millis()]
    values are [Z] in [0, 2^32) and their differences wrap like
    [unsigned long]. *)

From Stdlib Require Import ZArith Lia.
From stdpp Require Import base list strings.

Local Open Scope Z_scope.

(** ** Screen geometry ([#define]s of the sketch) *)

Definition SCREEN_WIDTH : Z := 240.
Definition SCREEN_HEIGHT : Z := 135.
Definition DESK_TASKBAR_H : Z := 20.
Definition MAX_DESK_WINDOWS : nat := 15.

(** [int16_t] assignment of an [int] expression: two's complement wrap. *)
Definition to_int16 (z : Z) : Z := (z + 32768) mod 65536 - 32768.

(** Array read [a[i]].  A read past the end is undefined in the source; the
    model returns [0] there and the invariants below show that the window
    manager never performs such a read on a reachable desktop. *)
Definition rd (a : list Z) (i : nat) : Z := default 0 (a !! i).

(** ** Window records *)

Module DeskWindow.
Record t : Type := mk {
  open : bool;
  x : Z; y : Z; w : Z; h : Z;
  minW : Z; minH : Z;
  appType : Z;
  maximized : bool;
  fullscreen : bool;
  title : string
}.

(** A zero-initialised record, as the global array starts out. *)
Definition zero : t := mk false 0 0 0 0 0 0 0 false false "".

Definition set_open (b : bool) (r : t) : t :=
  mk b (x r) (y r) (w r) (h r) (minW r) (minH r) (appType r)
     (maximized r) (fullscreen r) (title r).

Definition set_origin (nx ny : Z) (r : t) : t :=
  mk (open r) nx ny (w r) (h r) (minW r) (minH r) (appType r)
     (maximized r) (fullscreen r) (title r).

Definition set_size (nw nh : Z) (r : t) : t :=
  mk (open r) (x r) (y r) nw nh (minW r) (minH r) (appType r)
     (maximized r) (fullscreen r) (title r).
End DeskWindow.

(** ** The window registry *)

Record Desk : Type := mkDesk {
  deskWins : list DeskWindow.t;      (* DeskWindow deskWins[MAX_DESK_WINDOWS] *)
  deskWinOrder : list Z;             (* int8_t deskWinOrder[MAX_DESK_WINDOWS] *)
  deskWinCount : nat;                (* int8_t deskWinCount *)
  activeWin : Z;                     (* int8_t activeWin, -1 when none *)
  (* state touched by the teardown part of deskCloseWindow *)
  paintInitCalls : nat;              (* number of paintInitCanvas() calls *)
  viewingBMP : bool;
  bmpViewWidth : Z;
  bmpViewHeight : Z;
  imgViewerOverlayVisible : bool
}.

Definition set_activeWin (a : Z) (d : Desk) : Desk :=
  mkDesk (deskWins d) (deskWinOrder d) (deskWinCount d) a
         (paintInitCalls d) (viewingBMP d) (bmpViewWidth d) (bmpViewHeight d)
         (imgViewerOverlayVisible d).

(** The globals as the C++ runtime initialises them. *)
Definition emptyDesk : Desk :=
  mkDesk (replicate MAX_DESK_WINDOWS DeskWindow.zero)
         (replicate MAX_DESK_WINDOWS 0) 0 (-1) 0 false 0 0 true.

(** The logical z-order: the first [deskWinCount] cells of the array. *)
Definition zorder (d : Desk) : list Z := take (deskWinCount d) (deskWinOrder d).

(** [deskWins[i].open], false past the end of the pool. *)
Definition slotOpen (wins : list DeskWindow.t) (i : nat) : bool :=
  match wins !! i with
  | Some r => DeskWindow.open r
  | None => false
  end.

(** Slot ids whose record has the open flag set, in slot order. *)
Definition openIds (d : Desk) : list Z :=
  Z.of_nat <$> filter (fun i => slotOpen (deskWins d) i = true)
                      (seq 0 MAX_DESK_WINDOWS).

(** [for (i = 0; i < MAX_DESK_WINDOWS; i++) if (!deskWins[i].open) { slot = i; break; }]
    The array has exactly [MAX_DESK_WINDOWS] entries, so the scan is a walk
    over the list; [None] stands for [slot == -1]. *)
Fixpoint findFreeSlot (i : nat) (wins : list DeskWindow.t) : option nat :=
  match wins with
  | [] => None
  | r :: rest => if DeskWindow.open r then findFreeSlot (S i) rest else Some i
  end.

(** The [switch (appType)] of [deskOpenWindow]:
    [(w, h, minW, minH, fullscreen)]. *)
Definition defaultSize (appType : Z) : Z * Z * Z * Z * bool :=
  match appType with
  | 0 => (85, 70, 70, 60, false)        (* Settings *)
  | 1 => (95, 85, 95, 85, false)        (* Calc *)
  | 2 => (90, 65, 80, 55, false)        (* Timer *)
  | 3 => (85, 60, 70, 50, false)        (* TODO *)
  | 4 => (130, 100, 120, 90, false)     (* Notes *)
  | 5 => (85, 55, 70, 45, false)        (* Music *)
  | 6 => (180, 100, 140, 80, false)     (* Files *)
  | 7 => (130, 100, 120, 90, false)     (* Editor *)
  | 8 => (130, 100, 120, 90, false)     (* WiFi *)
  | 9 => (100, 120, 100, 120, false)    (* Tetris *)
  | 10 => (120, 100, 100, 80, false)    (* Paint *)
  | 11 => (100, 120, 100, 120, false)   (* Snake *)
  | 12 => (160, 110, 120, 80, true)     (* Image viewer *)
  | _ => (80, 50, 50, 30, false)
  end.

(** [strncpy(w.title, title, 11); w.title[11] = '\0';] *)
Definition copyTitle (title : string) : string := String.substring 0 11 title.

(** The record [deskOpenWindow] writes into the claimed slot. *)
Definition openedWindow (slot : nat) (appType : Z) (title : string)
  : DeskWindow.t :=
  let '(w, h, minW, minH, fs) := defaultSize appType in
  DeskWindow.mk true
    (20 + Z.rem (Z.of_nat slot * 15) 60)
    (10 + Z.rem (Z.of_nat slot * 12) 40)
    w h minW minH appType false fs (copyTitle title).

(** [for (int8_t i = n; i > 0; i--) deskWinOrder[i] = deskWinOrder[i - 1];] *)
Fixpoint shiftBack (i : nat) (ord : list Z) : list Z :=
  match i with
  | O => ord
  | S j => shiftBack j (<[S j := rd ord j]> ord)
  end.

Definition deskOpenWindow (appType : Z) (title : string) (d : Desk) : Desk :=
  match findFreeSlot 0 (deskWins d) with
  | None => d                                        (* No free slots *)
  | Some slot =>
      mkDesk (<[slot := openedWindow slot appType title]> (deskWins d))
             (<[0%nat := Z.of_nat slot]>
                (shiftBack (deskWinCount d) (deskWinOrder d)))
             (S (deskWinCount d))
             (Z.of_nat slot)
             (paintInitCalls d) (viewingBMP d) (bmpViewWidth d)
             (bmpViewHeight d) (imgViewerOverlayVisible d)
  end.

(** [for (i = 0; i < deskWinCount; i++) if (deskWinOrder[i] == winIdx) { orderPos = i; break; }]
    with [fuel = deskWinCount - i]; [None] stands for [orderPos == -1]. *)
Fixpoint findOrderPos (fuel i : nat) (ord : list Z) (winIdx : Z) : option nat :=
  match fuel with
  | O => None
  | S f => if rd ord i =? winIdx then Some i
           else findOrderPos f (S i) ord winIdx
  end.

(** [for (i = orderPos; i < deskWinCount - 1; i++) deskWinOrder[i] = deskWinOrder[i + 1];]
    with [fuel = deskWinCount - 1 - i]. *)
Fixpoint shiftFront (fuel i : nat) (ord : list Z) : list Z :=
  match fuel with
  | O => ord
  | S f => shiftFront f (S i) (<[i := rd ord (S i)]> ord)
  end.

(** [deskCloseWindow].  [None] marks the one case the source leaves
    undefined: a non-negative index past the end of [deskWins]. *)
Definition deskCloseWindow (winIdx : Z) (d : Desk) : option Desk :=
  if winIdx <? 0 then Some d
  else
    match deskWins d !! Z.to_nat winIdx with
    | None => None
    | Some r =>
        if negb (DeskWindow.open r) then Some d
        else
          let isPaint := DeskWindow.appType r =? 10 in
          let isImage := DeskWindow.appType r =? 12 in
          let wins' := <[Z.to_nat winIdx := DeskWindow.set_open false r]> (deskWins d) in
          let n := deskWinCount d in
          let '(ord', n') :=
            match findOrderPos n 0 (deskWinOrder d) winIdx with
            | Some orderPos =>
                (shiftFront (n - 1 - orderPos) orderPos (deskWinOrder d),
                 (n - 1)%nat)
            | None => (deskWinOrder d, n)
            end in
          Some (mkDesk wins' ord' n'
                  (if (0 <? n')%nat then rd ord' 0 else -1)
                  (if isPaint then S (paintInitCalls d) else paintInitCalls d)
                  (if isImage then false else viewingBMP d)
                  (if isImage then 0 else bmpViewWidth d)
                  (if isImage then 0 else bmpViewHeight d)
                  (if isImage then false else imgViewerOverlayVisible d))
    end.

(** [deskBringToFront(orderIdx)]. *)
Definition deskBringToFront (orderIdx : Z) (d : Desk) : Desk :=
  if orderIdx <=? 0 then d
  else
    let k := Z.to_nat orderIdx in
    let winIdx := rd (deskWinOrder d) k in
    mkDesk (deskWins d)
           (<[0%nat := winIdx]> (shiftBack k (deskWinOrder d)))
           (deskWinCount d)
           winIdx
           (paintInitCalls d) (viewingBMP d) (bmpViewWidth d)
           (bmpViewHeight d) (imgViewerOverlayVisible d).

(** The window branch of the click handler in [drawDesktopApp] when the
    pointer is on the close button of the window at z-position [hitOrder]:
    [deskBringToFront(hitOrder); activeWin = winIdx; deskCloseWindow(winIdx);
     activeWin = -1;] *)
Definition clickCloseButton (hitOrder : nat) (d : Desk) : option Desk :=
  let winIdx := rd (deskWinOrder d) hitOrder in
  let d1 := set_activeWin winIdx (deskBringToFront (Z.of_nat hitOrder) d) in
  set_activeWin (-1) <$> deskCloseWindow winIdx d1.

(** Sequences of registry calls. *)
Inductive DeskOp : Type :=
| OpOpen (appType : Z) (title : string)
| OpClose (winIdx : Z).

Definition runOp (op : DeskOp) (d : Desk) : option Desk :=
  match op with
  | OpOpen a t => Some (deskOpenWindow a t d)
  | OpClose i => deskCloseWindow i d
  end.

Fixpoint runOps (ops : list DeskOp) (d : Desk) : option Desk :=
  match ops with
  | [] => Some d
  | op :: rest => runOp op d ≫= runOps rest
  end.

(** A close request names a slot of the pool (or is negative). *)
Definition opInPool (op : DeskOp) : Prop :=
  match op with
  | OpOpen _ _ => True
  | OpClose i => i < Z.of_nat MAX_DESK_WINDOWS
  end.


(** ** Pointer, drag and resize ([drawDesktopApp]) *)

Record Pointer : Type := mkPointer {
  mouseX : Z; mouseY : Z;            (* int16_t, clamped to the screen *)
  prevMouseX : Z; prevMouseY : Z;
  dragging : bool;
  resizing : bool;
  dragOffX : Z; dragOffY : Z;        (* int16_t *)
  dragWinIdx : Z                     (* int8_t, -1 when none *)
}.

(** [deskPtrHits]: 6x6 hit box around the hotspot (2 right, 3 down). *)
Definition deskPtrHits (px py bx by_ bw bh : Z) : bool :=
  let hx := to_int16 (px + 2) in
  let hy := to_int16 (py + 3) in
  (hx + 3 >=? bx) && (hx - 3 <? bx + bw) && (hy + 3 >=? by_) && (hy - 3 <? by_ + bh).

(** [deskPtrHitsResize]: 12x12 grip at the bottom-right corner. *)
Definition deskPtrHitsResize (p : Pointer) (r : DeskWindow.t) : bool :=
  if DeskWindow.maximized r || DeskWindow.fullscreen r then false
  else deskPtrHits (mouseX p) (mouseY p)
         (to_int16 (DeskWindow.x r + DeskWindow.w r - 4))
         (to_int16 (DeskWindow.y r + DeskWindow.h r - 4)) 12 12.

(** Confirmed click on the resize grip of window [winIdx]:
    [resizing = true; dragWinIdx = winIdx; dragOffX = 8; dragOffY = 8;] *)
Definition beginResize (winIdx : Z) (p : Pointer) : Pointer :=
  mkPointer (mouseX p) (mouseY p) (prevMouseX p) (prevMouseY p)
            (dragging p) true 8 8 winIdx.

(** Confirmed click on the title bar of a non-maximized window:
    the offset between cursor and window origin is recorded. *)
Definition beginDrag (winIdx : Z) (r : DeskWindow.t) (p : Pointer) : Pointer :=
  mkPointer (mouseX p) (mouseY p) (prevMouseX p) (prevMouseY p)
            true (resizing p)
            (to_int16 (mouseX p - DeskWindow.x r))
            (to_int16 (mouseY p - DeskWindow.y r)) winIdx.

(** Cursor movement of one frame: remember the old position, add the
    joystick delta, clamp to the screen. *)
Definition moveMouse (dx dy : Z) (p : Pointer) : Pointer :=
  let mx := to_int16 (mouseX p + dx) in
  let my := to_int16 (mouseY p + dy) in
  let mx := if mx <? 0 then 0 else mx in
  let mx := if mx >=? SCREEN_WIDTH then SCREEN_WIDTH - 1 else mx in
  let my := if my <? 0 then 0 else my in
  let my := if my >=? SCREEN_HEIGHT then SCREEN_HEIGHT - 1 else my in
  mkPointer mx my (mouseX p) (mouseY p) (dragging p) (resizing p)
            (dragOffX p) (dragOffY p) (dragWinIdx p).

(** Body of the "Handle dragging" block for the dragged record. *)
Definition dragUpdate (mx my offX offY : Z) (r : DeskWindow.t) : DeskWindow.t :=
  let x1 := to_int16 (mx - offX) in
  let y1 := to_int16 (my - offY) in
  let x2 := if x1 <? 0 then 0 else x1 in
  let y2 := if y1 <? 0 then 0 else y1 in
  let x3 := if x2 + DeskWindow.w r >? SCREEN_WIDTH
            then to_int16 (SCREEN_WIDTH - DeskWindow.w r) else x2 in
  let y3 := if y2 + DeskWindow.h r >? SCREEN_HEIGHT
            then to_int16 (SCREEN_HEIGHT - DeskWindow.h r) else y2 in
  DeskWindow.set_origin x3 y3 r.

(** Body of the "Handle resizing" block for the resized record. *)
Definition resizeUpdate (mx my offX offY : Z) (r : DeskWindow.t) : DeskWindow.t :=
  let newW := to_int16 (mx - DeskWindow.x r + offX) in
  let newH := to_int16 (my - DeskWindow.y r + offY) in
  let w1 := if newW >=? DeskWindow.minW r then newW else DeskWindow.w r in
  let h1 := if newH >=? DeskWindow.minH r then newH else DeskWindow.h r in
  let w2 := if DeskWindow.x r + w1 >? SCREEN_WIDTH
            then to_int16 (SCREEN_WIDTH - DeskWindow.x r) else w1 in
  let h2 := if DeskWindow.y r + h1 >? SCREEN_HEIGHT
            then to_int16 (SCREEN_HEIGHT - DeskWindow.y r) else h1 in
  DeskWindow.set_size w2 h2 r.

Definition mouseMoved (p : Pointer) : bool :=
  negb (mouseX p =? prevMouseX p) || negb (mouseY p =? prevMouseY p).

(** The two guarded blocks, in source order, on the window array.  The
    index is only ever the slot recorded by a click on an open window. *)
Definition handleDragging (p : Pointer) (wins : list DeskWindow.t)
  : list DeskWindow.t :=
  if dragging p && (dragWinIdx p >=? 0) && mouseMoved p then
    match wins !! Z.to_nat (dragWinIdx p) with
    | Some r => <[Z.to_nat (dragWinIdx p) :=
                   dragUpdate (mouseX p) (mouseY p) (dragOffX p) (dragOffY p) r]> wins
    | None => wins
    end
  else wins.

Definition handleResizing (p : Pointer) (wins : list DeskWindow.t)
  : list DeskWindow.t :=
  if resizing p && (dragWinIdx p >=? 0) && mouseMoved p then
    match wins !! Z.to_nat (dragWinIdx p) with
    | Some r => <[Z.to_nat (dragWinIdx p) :=
                   resizeUpdate (mouseX p) (mouseY p) (dragOffX p) (dragOffY p) r]> wins
    | None => wins
    end
  else wins.

(** Window records the window manager can produce: written by
    [deskOpenWindow] into a pool slot, then moved and resized by any number
    of drag and resize updates, with flags toggled in between. *)
Inductive winReach : DeskWindow.t -> Prop :=
| reach_open slot appType title :
    (slot < MAX_DESK_WINDOWS)%nat ->
    winReach (openedWindow slot appType title)
| reach_drag mx my offX offY r :
    winReach r -> winReach (dragUpdate mx my offX offY r)
| reach_resize mx my offX offY r :
    winReach r -> winReach (resizeUpdate mx my offX offY r)
| reach_flag b r :
    winReach r -> winReach (DeskWindow.set_open b r).

(** ** Time *)

(** [unsigned long] subtraction (32 bits on the target). *)
Definition sub32 (a b : Z) : Z := (a - b) mod 2 ^ 32.

(** [n] frames at period [p] starting at [t0] that all carry the same two
    boolean inputs (two button lines, or two probe outcomes). *)
Fixpoint constFrames (p t0 : Z) (a b : bool) (n : nat) : list (Z * bool * bool) :=
  match n with
  | O => []
  | S m => (t0, a, b) :: constFrames p (t0 + p) a b m
  end.

Inductive Level : Type := HIGH | LOW.

Definition isLow (l : Level) : bool :=
  match l with LOW => true | HIGH => false end.
Definition isHigh (l : Level) : bool := negb (isLow l).

(** Joystick lines of one frame, as [loop] converts them back to levels
    ([LOW] = pressed). *)
Record Joy : Type := mkJoy {
  upState : Level; downState : Level; leftState : Level; rightState : Level
}.

Definition joyIdle : Joy := mkJoy HIGH HIGH HIGH HIGH.
Definition joyUpHeld : Joy := mkJoy LOW HIGH HIGH HIGH.

(** The [last*State] globals shared by both input paths. *)
Record JoyLast : Type := mkJoyLast {
  lastUpState : Level; lastDownState : Level;
  lastLeftState : Level; lastRightState : Level
}.

Definition joyLastInit : JoyLast := mkJoyLast HIGH HIGH HIGH HIGH.
Definition rememberJoy (j : Joy) : JoyLast :=
  mkJoyLast (upState j) (downState j) (leftState j) (rightState j).

Inductive EventKind : Type := Confirmed | Repeat.

(** ** Hold-to-repeat, game apps (directional block of [loop]) *)

Record GameInput : Type := mkGameInput {
  gameHoldStart : Z;
  gameLastRepeat : Z;
  gameHeldDir : Z;
  gameFirstPress : bool;
  gameLast : JoyLast
}.

Definition gameInputInit : GameInput := mkGameInput 0 0 0 true joyLastInit.

(** One frame of the directional block at time [t]; the result carries the
    event written to [lastButton], tagged with the branch that produced it. *)
Definition gameStep (t : Z) (j : Joy) (s : GameInput)
  : GameInput * option (EventKind * Z) :=
  let upHeld := isLow (upState j) in
  let downHeld := isLow (downState j) in
  let leftHeld := isLow (leftState j) in
  let rightHeld := isLow (rightState j) in
  let upPressed := upHeld && isHigh (lastUpState (gameLast s)) in
  let downPressed := downHeld && isHigh (lastDownState (gameLast s)) in
  let leftPressed := leftHeld && isHigh (lastLeftState (gameLast s)) in
  let rightPressed := rightHeld && isHigh (lastRightState (gameLast s)) in
  (* Track which direction is held *)
  let '(hs, dir, fp) :=
    if upPressed then (t, 1, true)
    else if downPressed then (t, 2, true)
    else if leftPressed then (t, 3, true)
    else if rightPressed then (t, 4, true)
    else (gameHoldStart s, gameHeldDir s, gameFirstPress s) in
  (* Reset if no direction held *)
  let '(dir, fp) :=
    if negb upHeld && negb downHeld && negb leftHeld && negb rightHeld
    then (0, true) else (dir, fp) in
  let repeatDelay := 150 in
  let holdDelay := 400 in
  let holdLongEnough := (hs >? 0) && (sub32 t hs >? holdDelay) in
  let '(fp', lr', ev) :=
    if dir >? 0 then
      if fp && (sub32 t hs >=? 50) then (false, t, Some (Confirmed, dir))
      else if negb fp && holdLongEnough && (sub32 t (gameLastRepeat s) >? repeatDelay)
           then (fp, t, Some (Repeat, dir))
           else (fp, gameLastRepeat s, None)
    else (fp, gameLastRepeat s, None) in
  (mkGameInput hs lr' dir fp' (rememberJoy j), ev).

(** ** Hold-to-repeat, menus (up/down block at the end of [loop]) *)

Record NavInput : Type := mkNavInput {
  lastRepeat : Z;
  holdStart : Z;
  upDebounceStart : Z;
  downDebounceStart : Z;
  upDebounced : bool;
  downDebounced : bool;
  upActed : bool;
  downActed : bool;
  navLast : JoyLast
}.

Definition navInputInit : NavInput :=
  mkNavInput 0 0 0 0 false false false false joyLastInit.

(** One frame of the up/down block at time [t] with the repeat cadence of
    the current screen ([150], or [80] in Notes and Timer).  The result
    carries the events for UP and for DOWN. *)
Definition navStep (repeatDelay t : Z) (j : Joy) (s : NavInput)
  : NavInput * (option EventKind * option EventKind) :=
  let upHeld := isLow (upState j) in
  let downHeld := isLow (downState j) in
  (* debounce for UP *)
  let '(uds, ud, ua) :=
    if upHeld && isHigh (lastUpState (navLast s)) then (t, false, false)
    else (upDebounceStart s, upDebounced s, upActed s) in
  let '(ud, hs) :=
    if upHeld && negb ud && (sub32 t uds >=? 50) then (true, t)
    else (ud, holdStart s) in
  let '(ud, ua) := if negb upHeld then (false, false) else (ud, ua) in
  (* debounce for DOWN *)
  let '(dds, dd, da) :=
    if downHeld && isHigh (lastDownState (navLast s)) then (t, false, false)
    else (downDebounceStart s, downDebounced s, downActed s) in
  let '(dd, hs) :=
    if downHeld && negb dd && (sub32 t dds >=? 50) then (true, t)
    else (dd, hs) in
  let '(dd, da) := if negb downHeld then (false, false) else (dd, da) in
  let hs := if negb upHeld && negb downHeld then 0 else hs in
  let holdLongEnough := (hs >? 0) && (sub32 t hs >? 400) in
  let repeatDue := holdLongEnough && (sub32 t (lastRepeat s) >? repeatDelay) in
  let shouldTriggerUp := (ud && negb ua) || (upHeld && ud && repeatDue) in
  let shouldTriggerDown := (dd && negb da) || (downHeld && dd && repeatDue) in
  let evUp := if shouldTriggerUp
              then Some (if ud && negb ua then Confirmed else Repeat) else None in
  let evDown := if shouldTriggerDown
                then Some (if dd && negb da then Confirmed else Repeat) else None in
  let '(ua', da', lr') :=
    if shouldTriggerUp || shouldTriggerDown
    then (if ud && negb ua then true else ua,
          if dd && negb da then true else da, t)
    else (ua, da, lastRepeat s) in
  (mkNavInput lr' hs uds dds ud dd ua' da'
              (mkJoyLast (upState j) (downState j)
                         (lastLeftState (navLast s)) (lastRightState (navLast s))),
   (evUp, evDown)).

(** Frames in sequence. *)
Fixpoint runGame (frames : list (Z * Joy)) (s : GameInput)
  : GameInput * list (EventKind * Z) :=
  match frames with
  | [] => (s, [])
  | (t, j) :: rest =>
      let '(s1, ev) := gameStep t j s in
      let '(s2, evs) := runGame rest s1 in
      (s2, match ev with Some e => e :: evs | None => evs end)
  end.

Fixpoint runNav (repeatDelay : Z) (frames : list (Z * Joy)) (s : NavInput)
  : NavInput * list EventKind :=
  match frames with
  | [] => (s, [])
  | (t, j) :: rest =>
      let '(s1, ev) := navStep repeatDelay t j s in
      let '(s2, evs) := runNav repeatDelay rest s1 in
      (s2, match ev.1 with Some e => e :: evs | None => evs end)
  end.

(** [n] consecutive frames at period [p] starting at [t0], UP held. *)
Fixpoint heldFrames (p t0 : Z) (n : nat) : list (Z * Joy) :=
  match n with
  | O => []
  | S m => (t0, joyUpHeld) :: heldFrames p (t0 + p) m
  end.

Definition isRepeat (k : EventKind) : bool :=
  match k with Repeat => true | Confirmed => false end.
Definition isConfirmed (k : EventKind) : bool :=
  match k with Confirmed => true | Repeat => false end.

Definition countKind (f : EventKind -> bool) (evs : list EventKind) : nat :=
  length (filter (fun k => f k = true) evs).

(** The frame limiter of [loop] lets a frame through every 33 ms. *)
Definition FRAME_MS : Z := 33.

(** Number of frames that sample a hold of [D] ms when frames come every
    [FRAME_MS] and the first one coincides with the press: the frames at
    [0, 33, 66, ...] strictly before [D]. *)
Definition framesOfHold (D : Z) : nat := Z.to_nat ((D + FRAME_MS - 1) / FRAME_MS).

(** ** Screenshot chord SET + RST ([loop]) *)

Record Chord : Type := mkChord {
  screenshotHoldStart : Z;
  screenshotTaken : bool;
  screenshotComboUsed : bool
}.

Definition chordInit : Chord := mkChord 0 false false.

(** Outcome of the chord block for one frame: whether [takeScreenshot()]
    was called, and whether [loop] returned before the single-button
    handlers ([gated = true]) or went on to them. *)
Record ChordOut : Type := mkChordOut { fired : bool; gated : bool }.

Definition chordStep (t : Z) (joySet joyRst : bool) (s : Chord)
  : Chord * ChordOut :=
  if joySet && joyRst then
    let s1 := if screenshotHoldStart s =? 0
              then mkChord t false true else s in
    if negb (screenshotTaken s1) && (sub32 t (screenshotHoldStart s1) >=? 1000)
    then (mkChord (screenshotHoldStart s1) true (screenshotComboUsed s1),
          mkChordOut true true)
    else (s1, mkChordOut false true)
  else if screenshotComboUsed s && (negb joySet || negb joyRst) then
    if negb joySet && negb joyRst
    then (mkChord 0 false false, mkChordOut false true)
    else (s, mkChordOut false true)
  else (mkChord 0 false (screenshotComboUsed s), mkChordOut false false).

Fixpoint runChord (frames : list (Z * bool * bool)) (s : Chord)
  : Chord * list ChordOut :=
  match frames with
  | [] => (s, [])
  | (t, joySet, joyRst) :: rest =>
      let '(s1, o) := chordStep t joySet joyRst s in
      let '(s2, os) := runChord rest s1 in
      (s2, o :: os)
  end.

(** ** Frame buffer manager *)

(** [PSRAMCanvas16]: the pixel array, [None] when both allocations failed. *)
Record PSRAMCanvas16 : Type := mkCanvas { buffer : option (list Z) }.

Definition pixelCount : nat := Z.to_nat (SCREEN_WIDTH * SCREEN_HEIGHT).

(** [new PSRAMCanvas16(SCREEN_WIDTH, SCREEN_HEIGHT)]: zero-filled when the
    heap can serve the request ([heapOk]). *)
Definition newCanvas (heapOk : bool) : PSRAMCanvas16 :=
  mkCanvas (if heapOk then Some (replicate pixelCount 0) else None).

(** What [gfx] points to. *)
Inductive GfxPtr : Type := GfxNull | GfxDeskBuffer | GfxTft.

Record FrameBuf : Type := mkFrameBuf {
  deskBuffer : option PSRAMCanvas16;   (* nullptr = None *)
  gfx : GfxPtr;
  bufferReady : bool
}.

Definition frameBufInit : FrameBuf := mkFrameBuf None GfxNull false.

(** Operations that reach the bus, in order. *)
Inductive DisplayOp : Type :=
| SdDeselect                      (* digitalWrite(SD_CS, HIGH) *)
| BusSettle (us : Z)              (* delayMicroseconds *)
| TftSetRotation (r : Z)
| TftSetSPISpeed (hz : Z)
| TftDrawRGBBitmap (pixels : list Z) (* one bulk transfer of the buffer *)
| TftDirect (scene : list Z).     (* the gfx calls of the scene, on tft *)

Definition hasBuffer (db : option PSRAMCanvas16) : bool :=
  match db with
  | Some c => match buffer c with Some _ => true | None => false end
  | None => false
  end.

(** [initDoubleBuffer]; [heapOk] is the outcome of the allocation, should
    one be attempted. *)
Definition initDoubleBuffer (heapOk : bool) (s : FrameBuf) : FrameBuf * bool :=
  if bufferReady s && hasBuffer (deskBuffer s) then (s, true)
  else
    let db := match deskBuffer s with
              | None => Some (newCanvas heapOk)
              | Some c => Some c
              end in
    if hasBuffer db then (mkFrameBuf db (gfx s) true, true)
    else (mkFrameBuf None (gfx s) false, false).   (* delete deskBuffer *)

Definition ensureTFTState : list DisplayOp :=
  [SdDeselect; BusSettle 50; TftSetRotation 3; TftSetSPISpeed 20000000].

(** [flushBuffer]: the state is never written. *)
Definition flushBuffer (s : FrameBuf) : list DisplayOp :=
  match bufferReady s, deskBuffer s with
  | true, Some c =>
      match buffer c with
      | Some px => ensureTFTState ++ [TftDrawRGBBitmap px]
      | None => []
      end
  | _, _ => []
  end.

(** *** The redraw and the image viewer *)

(** Every drawing call of the compositor goes through [gfx], but one: the
    image viewer ([deskDrawWindow], [case 12]) writes its picture with
    [uint16_t* destBuf = deskBuffer->getBuffer();]
    [memcpy(destBuf, bmpViewBuffer, SCREEN_WIDTH * SCREEN_HEIGHT * sizeof(uint16_t));]
    There is no test of [deskBuffer], of its pixel array or of
    [bufferReady] in front of these two lines.  With [deskBuffer == nullptr]
    the first one reads through a null pointer; with a canvas whose array
    was not allocated the copy goes to address 0.  Both are [None].  Both
    blocks hold one screen of pixels, so the copy replaces the array. *)
Definition copyImage (im : list Z) (s : FrameBuf) : option FrameBuf :=
  match deskBuffer s with
  | None => None
  | Some c =>
      match buffer c with
      | None => None
      | Some _ => Some (mkFrameBuf (Some (mkCanvas (Some im))) (gfx s)
                                   (bufferReady s))
      end
  end.

(** The path of [deskDrawWindow(winIdx)] that leads to the copy, with
    [bmpViewBuffer] as [None] for [nullptr]:
    [if (winIdx < 0 || !deskWins[winIdx].open) return;] ...
    [case 12: if (!viewingBMP) { ... }]
    [else if (bmpViewBuffer && bmpViewWidth > 0 && bmpViewHeight > 0) { copy }]
    [else { ... }].
    The result is the picture that the window copies, if it copies one.  A
    [winIdx] past the end of [deskWins] is read as a closed window, as [rd]
    reads [0]; on a well-formed registry every cell of the z-order is the
    index of an open window. *)
Definition viewerPicture (d : Desk) (bmpViewBuffer : option (list Z))
    (winIdx : Z) : option (list Z) :=
  if winIdx <? 0 then None
  else
    match deskWins d !! Z.to_nat winIdx with
    | None => None
    | Some r =>
        if negb (DeskWindow.open r) then None
        else if DeskWindow.appType r =? 12 then
          if negb (viewingBMP d) then None             (* No image loaded *)
          else
            match bmpViewBuffer with
            | Some im =>
                if (bmpViewWidth d >? 0) && (bmpViewHeight d >? 0)
                then Some im
                else None                              (* Load failed *)
            | None => None                             (* Load failed *)
            end
        else None                                      (* another application *)
    end.

(** [deskDrawWindow] as far as the frame buffer manager is concerned: the
    frame, the title bar and the content of every application are calls
    through [gfx] (they are part of the scene, see [drawScene]); the image
    viewer copies its picture on top. *)
Definition deskDrawWindow (d : Desk) (bmpViewBuffer : option (list Z))
    (winIdx : Z) (s : FrameBuf) : option FrameBuf :=
  match viewerPicture d bmpViewBuffer winIdx with
  | Some im => copyImage im s
  | None => Some s
  end.

(** [for (int8_t i = deskWinCount - 1; i >= 0; i--) deskDrawWindow(deskWinOrder[i]);]
    with [i] the number of windows that are still to be drawn. *)
Fixpoint drawWindows (i : nat) (d : Desk) (bmpViewBuffer : option (list Z))
    (s : FrameBuf) : option FrameBuf :=
  match i with
  | O => Some s
  | S j =>
      match deskDrawWindow d bmpViewBuffer (rd (deskWinOrder d) j) s with
      | None => None
      | Some s' => drawWindows j d bmpViewBuffer s'
      end
  end.

(** The picture that the windows loop copies, if one of the first [i]
    cells of the z-order is an image viewer that shows one. *)
Fixpoint imageDrawn (i : nat) (d : Desk) (bmpViewBuffer : option (list Z))
  : option (list Z) :=
  match i with
  | O => None
  | S j =>
      match viewerPicture d bmpViewBuffer (rd (deskWinOrder d) j) with
      | Some im => Some im
      | None => imageDrawn j d bmpViewBuffer
      end
  end.

(** The drawing of a redraw.  Its calls go through [gfx]: through a null
    or dangling pointer the program crashes ([None]); through the canvas
    they leave [scene] in the pixel array, the picture of an image viewer
    included, which is copied into the same array; through [tft] they
    reach the display directly, while the picture of an image viewer still
    goes to the pixel array of [deskBuffer]. *)
Definition drawScene (scene : list Z) (d : Desk)
    (bmpViewBuffer : option (list Z)) (s : FrameBuf)
  : option (FrameBuf * list DisplayOp) :=
  match gfx s with
  | GfxNull => None
  | GfxTft =>
      match drawWindows (deskWinCount d) d bmpViewBuffer s with
      | None => None
      | Some s' => Some (s', [TftDirect scene])
      end
  | GfxDeskBuffer =>
      match deskBuffer s with
      | Some c =>
          match drawWindows (deskWinCount d) d bmpViewBuffer s with
          | None => None
          | Some s' =>
              match buffer c with
              | Some _ => Some (mkFrameBuf (Some (mkCanvas (Some scene)))
                                           (gfx s) (bufferReady s), [])
              | None => Some (s', [])  (* every canvas write checks [buffer] *)
              end
          end
      | None => None
      end
  end.

(** [deskFullRedraw]: safety prelude, scene with its windows, one flush.
    [d] is the window registry and [bmpViewBuffer] the picture buffer at
    the time of the call. *)
Definition deskFullRedraw (heapOk : bool) (scene : list Z) (d : Desk)
    (bmpViewBuffer : option (list Z)) (s : FrameBuf)
  : option (FrameBuf * list DisplayOp) :=
  let s1 := if negb (bufferReady s) then (initDoubleBuffer heapOk s).1 else s in
  let s2 := match gfx s1 with
            | GfxNull => mkFrameBuf (deskBuffer s1)
                           (if bufferReady s1 then GfxDeskBuffer else GfxTft)
                           (bufferReady s1)
            | _ => s1
            end in
  match drawScene scene d bmpViewBuffer s2 with
  | None => None
  | Some (s3, ops) => Some (s3, ops ++ flushBuffer s3)
  end.

(** [openFileInViewer] on a picture, when [loadBMPFile] succeeds with the
    pixels [im]: [loadBMPFile] sets [bmpViewWidth = SCREEN_WIDTH],
    [bmpViewHeight = SCREEN_HEIGHT] and fills [bmpViewBuffer], which it
    allocates itself; then [viewingBMP = true; imgViewerOverlayVisible = true;]
    [deskOpenWindow(12, "Image");].  The result is the registry and
    [bmpViewBuffer]. *)
Definition openImage (im : list Z) (d : Desk) : Desk * option (list Z) :=
  (deskOpenWindow 12 "Image"
     (mkDesk (deskWins d) (deskWinOrder d) (deskWinCount d) (activeWin d)
             (paintInitCalls d) true SCREEN_WIDTH SCREEN_HEIGHT true),
   Some im).

(** A picture that fills the screen with one colour (blue, [0x001F]). *)
Definition bluePicture : list Z := replicate pixelCount 31.

(** First entry of [drawDesktopApp]:
    [initDoubleBuffer(); gfx = bufferReady ? deskBuffer : &tft;] *)
Definition enterDesktop (heapOk : bool) (s : FrameBuf) : FrameBuf :=
  let s1 := (initDoubleBuffer heapOk s).1 in
  mkFrameBuf (deskBuffer s1)
             (if bufferReady s1 then GfxDeskBuffer else GfxTft)
             (bufferReady s1).

(** Head of [takeScreenshot]: without a buffer it gives up; in desktop mode
    it points [gfx] at the canvas before it redraws. *)
Definition screenshotGfx (heapOk desktop : bool) (s : FrameBuf) : FrameBuf :=
  let '(s1, ok) := initDoubleBuffer heapOk s in
  if ok && hasBuffer (deskBuffer s1) && desktop
  then mkFrameBuf (deskBuffer s1) GfxDeskBuffer (bufferReady s1)
  else s1.

(** States of the frame buffer manager that the program can be in. *)
Inductive fbReach : FrameBuf -> Prop :=
| fb_boot : fbReach frameBufInit
| fb_init heapOk s : fbReach s -> fbReach (initDoubleBuffer heapOk s).1
| fb_enter heapOk s : fbReach s -> fbReach (enterDesktop heapOk s)
| fb_shot heapOk desktop s : fbReach s -> fbReach (screenshotGfx heapOk desktop s)
| fb_redraw heapOk scene d bmp s s' ops :
    fbReach s -> deskFullRedraw heapOk scene d bmp s = Some (s', ops) ->
    fbReach s'.

(** ** Storage hot-swap supervision ([loop]) *)

Record Storage : Type := mkStorage {
  sdCardMounted : bool;
  sdCardRemoved : bool;
  sdCardWarningCount : Z;
  lastSDCheck : Z;
  lastRemountTry : Z;
  biosRequireSD : bool;
  desktopMode : bool;
  deskNeedRedraw : bool;
  reloads : nat                 (* loadOSData(); loadWiFiCredentials(); *)
}.

(** What one frame of supervision did. *)
Record SdOut : Type := mkSdOut {
  probed : bool;                (* checkSDCard() was called *)
  remountTried : bool;          (* remountSDCard() was called *)
  safeMode : bool               (* the popup branch ran and loop returned *)
}.

(** [for (i = 0; i < MAX_DESK_WINDOWS; i++) deskWins[i].open = false;
     deskWinCount = 0; activeWin = -1;] *)
Definition closeAllWindows (d : Desk) : Desk :=
  mkDesk (DeskWindow.set_open false <$> deskWins d) (deskWinOrder d) 0 (-1)
         (paintInitCalls d) (viewingBMP d) (bmpViewWidth d) (bmpViewHeight d)
         (imgViewerOverlayVisible d).

(** One frame at time [t].  [cardOk] is what [checkSDCard()] returns if it
    is called in this frame, [beginOk] what [SD.begin] returns inside
    [remountSDCard()] if that is called. *)
Definition sdSupervise (t : Z) (cardOk beginOk : bool) (st : Storage) (d : Desk)
  : Storage * Desk * SdOut :=
  (* hot-swap detection, every 2 seconds *)
  let doCheck := sdCardMounted st && negb (sdCardRemoved st)
                 && (sub32 t (lastSDCheck st) >=? 2000) in
  let '(st1, d1) :=
    if doCheck then
      if negb cardOk then
        let wc := sdCardWarningCount st + 1 in
        if wc >=? 2 then
          if biosRequireSD st then
            (mkStorage false true 0 t (lastRemountTry st) (biosRequireSD st)
                       true (deskNeedRedraw st) (reloads st),
             closeAllWindows d)
          else
            (mkStorage false (sdCardRemoved st) 0 t (lastRemountTry st)
                       (biosRequireSD st) (desktopMode st) (deskNeedRedraw st)
                       (reloads st), d)
        else
          (mkStorage (sdCardMounted st) (sdCardRemoved st) wc t
                     (lastRemountTry st) (biosRequireSD st) (desktopMode st)
                     (deskNeedRedraw st) (reloads st), d)
      else
        (mkStorage (sdCardMounted st) (sdCardRemoved st) 0 t
                   (lastRemountTry st) (biosRequireSD st) (desktopMode st)
                   (deskNeedRedraw st) (reloads st), d)
    else (st, d) in
  (* remount attempt, every 5 seconds while unmounted *)
  let doRemount := negb (sdCardMounted st1)
                   && (sub32 t (lastRemountTry st1) >=? 5000) in
  let st2 :=
    if doRemount then
      if beginOk then
        mkStorage true false (sdCardWarningCount st1) (lastSDCheck st1) t
                  (biosRequireSD st1) (desktopMode st1) true (S (reloads st1))
      else
        mkStorage (sdCardMounted st1) (sdCardRemoved st1)
                  (sdCardWarningCount st1) (lastSDCheck st1) t
                  (biosRequireSD st1) (desktopMode st1) (deskNeedRedraw st1)
                  (reloads st1)
    else st1 in
  (st2, d1, mkSdOut doCheck doRemount (sdCardRemoved st2 && biosRequireSD st2)).

(** Frames in sequence; each frame brings its time and the two outcomes. *)
Fixpoint runSd (frames : list (Z * bool * bool)) (st : Storage) (d : Desk)
  : Storage * Desk * list (Z * SdOut) :=
  match frames with
  | [] => (st, d, [])
  | (t, cardOk, beginOk) :: rest =>
      let '(st1, d1, o) := sdSupervise t cardOk beginOk st d in
      let '(st2, d2, os) := runSd rest st1 d1 in
      (st2, d2, (t, o) :: os)
  end.

(** Storage state after a boot that found the card, policy "require SD".
    Normal frames come every [FRAME_MS]; a safe-mode frame ends with
    [delay(100)], so the next one comes 133 ms later. *)
Definition storageBooted : Storage :=
  mkStorage true false 0 0 0 true false false 0.

(** ** Invariants *)

(** [z] is the id of a slot whose record is open. *)
Definition isOpen (d : Desk) (z : Z) : Prop :=
  0 <= z /\ slotOpen (deskWins d) (Z.to_nat z) = true.

(** Well-formedness of the registry: both arrays have the pool size, the
    logical z-order has no duplicates and holds exactly the open slots, and
    its front cell is the focused window. *)
Record deskInv (d : Desk) : Prop := mkDeskInv {
  inv_wins : length (deskWins d) = MAX_DESK_WINDOWS;
  inv_order : length (deskWinOrder d) = MAX_DESK_WINDOWS;
  inv_count : (deskWinCount d <= MAX_DESK_WINDOWS)%nat;
  inv_nodup : NoDup (zorder d);
  inv_mem : forall z, z ∈ zorder d <-> isOpen d z;
  inv_focus : (0 < deskWinCount d)%nat -> rd (deskWinOrder d) 0 = activeWin d
}.

(** The rectangle of a record. *)
Definition rectOf (r : DeskWindow.t) : Z * Z * Z * Z :=
  (DeskWindow.x r, DeskWindow.y r, DeskWindow.w r, DeskWindow.h r).

(** Geometry kept by open, drag and resize. *)
Definition geoInv (r : DeskWindow.t) : Prop :=
  0 <= DeskWindow.x r < SCREEN_WIDTH /\
  0 <= DeskWindow.y r < SCREEN_HEIGHT /\
  0 < DeskWindow.w r <= SCREEN_WIDTH /\
  0 < DeskWindow.h r <= SCREEN_HEIGHT.

(** The frame buffer is either fully there or fully absent, and [gfx]
    never points at a canvas that is not there. *)
Definition fbInv (s : FrameBuf) : Prop :=
  (bufferReady s = true -> hasBuffer (deskBuffer s) = true) /\
  (bufferReady s = false -> deskBuffer s = None) /\
  (gfx s = GfxDeskBuffer -> bufferReady s = true).




(** ** Hold-to-repeat at the frame period *)

(** State of the game path while UP stays held: press seen at [hs], last
    event at [lr], [fp] set until the confirmed event has fired. *)
Definition gameMid (hs lr : Z) (fp : bool) : GameInput :=
  mkGameInput hs lr 1 fp (rememberJoy joyUpHeld).

(** State of the menu path while UP stays held (DOWN idle): [ud] is both
    "debounced" and "acted", which the code sets in the same frame. *)
Definition navMid (lr hs uds dds : Z) (ud : bool) (jl : JoyLast) : NavInput :=
  mkNavInput lr hs uds dds ud false ud false
             (mkJoyLast LOW HIGH (lastLeftState jl) (lastRightState jl)).

(** Frames are numbered from the frame that sees the press.  With a frame
    every 33 ms the confirmed event falls on frame 2 (66 ms) and the
    repeats on the frames [a, a + 5, a + 10, ...], where [a] is the first
    frame past the hold delay: 13 on the game path (429 ms after the
    press), 15 on the menu path (429 ms after the confirmed event). *)
Definition eventAt (a k : Z) : option EventKind :=
  if k =? 2 then Some Confirmed
  else if (a <=? k) && ((k - a) mod 5 =? 0) then Some Repeat
  else None.

(** Frame of the latest event before frame [k], for [k >= 3]. *)
Definition lastEventFrame (a k : Z) : Z :=
  if k <=? a then 2 else k - 1 - (k - a - 1) mod 5.

(** Events of the frames [k, k+1, ..., k+m-1]. *)
Fixpoint expectedEvents (a k : Z) (m : nat) : list EventKind :=
  match m with
  | O => []
  | S m' => match eventAt a k with
            | Some e => e :: expectedEvents a (k + 1) m'
            | None => expectedEvents a (k + 1) m'
            end
  end.

(** Number of repeats among the first [n] frames. *)
Definition repeatsIn (a : Z) (n : nat) : nat :=
  if Z.of_nat n <=? a then 0%nat else Z.to_nat ((Z.of_nat n - a + 4) / 5).

Definition gameStateAt (s0 : GameInput) (t0 k : Z) : GameInput :=
  if k =? 0 then s0
  else if k <=? 2 then gameMid t0 (gameLastRepeat s0) true
  else gameMid t0 (t0 + FRAME_MS * lastEventFrame 13 k) false.

Definition navStateAt (s0 : NavInput) (t0 k : Z) : NavInput :=
  if k =? 0 then s0
  else if k <=? 2
       then navMid (lastRepeat s0) (holdStart s0) t0 (downDebounceStart s0)
                   false (navLast s0)
       else navMid (t0 + FRAME_MS * lastEventFrame 15 k) (t0 + FRAME_MS * 2)
                   t0 (downDebounceStart s0) true (navLast s0).

(** Chord states the loop can be in: a running hold timer implies that
    the "used" flag is set. *)
Definition chordInv (s : Chord) : Prop :=
  screenshotHoldStart s <> 0 -> screenshotComboUsed s = true.

(** Both buttons of the chord are up in this frame. *)
Definition bothReleased (f : Z * bool * bool) : bool :=
  negb f.1.2 && negb f.2.

(** ** Canvas drawing ([PSRAMCanvas16]) *)

(** A store into the pixel array.  [None] is a write outside the array,
    which the C++ code must never perform. *)
Definition poke (i v : Z) (px : list Z) : option (list Z) :=
  if (0 <=? i) && (i <? Z.of_nat (length px))
  then Some (<[Z.to_nat i := v]> px) else None.

(** [drawPixel] on a canvas of [cw] x [ch] pixels. *)
Definition canvasDrawPixel (cw ch x y color : Z) (px : list Z)
  : option (list Z) :=
  if (x >=? 0) && (x <? cw) && (y >=? 0) && (y <? ch)
  then poke (y * cw + x) color px else Some px.

(** [for (col = 0; col < n; col++) ptr[col] = color;] with [ptr = buffer + i]. *)
Fixpoint fillRun (n : nat) (i color : Z) (px : list Z) : option (list Z) :=
  match n with
  | O => Some px
  | S m => poke i color px ≫= fillRun m (i + 1) color
  end.

(** [for (row = y; row < y + h; row++) { rowPtr = buffer + row * _width + x; ... }]
    with [n] rows left. *)
Fixpoint fillRows (n : nat) (row cw x : Z) (w : nat) (color : Z) (px : list Z)
  : option (list Z) :=
  match n with
  | O => Some px
  | S m => fillRun w (row * cw + x) color px ≫= fillRows m (row + 1) cw x w color
  end.

(** [fillRect]: clip, then fill row by row.  The arguments are [int16_t],
    so the clipped width and height are stored with wrap-around. *)
Definition canvasFillRect (cw ch x y w h color : Z) (px : list Z)
  : option (list Z) :=
  let '(w, x) := if x <? 0 then (to_int16 (w + x), 0) else (w, x) in
  let '(h, y) := if y <? 0 then (to_int16 (h + y), 0) else (h, y) in
  let w := if x + w >? cw then to_int16 (cw - x) else w in
  let h := if y + h >? ch then to_int16 (ch - y) else h in
  if (w <=? 0) || (h <=? 0) then Some px
  else fillRows (Z.to_nat h) y cw x (Z.to_nat w) color px.

(** [drawFastHLine]. *)
Definition canvasDrawFastHLine (cw ch x y w color : Z) (px : list Z)
  : option (list Z) :=
  if (y <? 0) || (y >=? ch) then Some px
  else
    let '(w, x) := if x <? 0 then (to_int16 (w + x), 0) else (w, x) in
    let w := if x + w >? cw then to_int16 (cw - x) else w in
    if w <=? 0 then Some px
    else fillRun (Z.to_nat w) (y * cw + x) color px.

(** [for (i = 0; i < h; i++) buffer[(y + i) * _width + x] = color;] with
    [n] pixels left, the next one in row [row]. *)
Fixpoint fillColumn (n : nat) (row cw x color : Z) (px : list Z)
  : option (list Z) :=
  match n with
  | O => Some px
  | S m => poke (row * cw + x) color px ≫= fillColumn m (row + 1) cw x color
  end.

(** [drawFastVLine]. *)
Definition canvasDrawFastVLine (cw ch x y h color : Z) (px : list Z)
  : option (list Z) :=
  if (x <? 0) || (x >=? cw) then Some px
  else
    let '(h, y) := if y <? 0 then (to_int16 (h + y), 0) else (h, y) in
    let h := if y + h >? ch then to_int16 (ch - y) else h in
    if h <=? 0 then Some px
    else fillColumn (Z.to_nat h) y cw x color px.

(** [for (i = 0; i < n32; i++) buf32[i] = color32;]  One 32-bit store
    covers the pixels [2i] (low half word, the target is little-endian)
    and [2i + 1] (high half word). *)
Fixpoint fillPairs (n : nat) (i color32 : Z) (px : list Z) : option (list Z) :=
  match n with
  | O => Some px
  | S m =>
      (poke (2 * i) (Z.land color32 65535) px
         ≫= poke (2 * i + 1) (Z.shiftr color32 16))
        ≫= fillPairs m (i + 1) color32
  end.

(** [fillScreen]: [memset] for black, 32-bit stores otherwise. *)
Definition canvasFillScreen (cw ch color : Z) (px : list Z) : option (list Z) :=
  let n := cw * ch in
  if color =? 0 then fillRun (Z.to_nat n) 0 0 px     (* memset(buffer, 0, 2n) *)
  else
    let color32 := Z.lor (Z.shiftl color 16) color in
    fillPairs (Z.to_nat (n / 2)) 0 color32 px
      ≫= fun px' => if Z.odd n then poke (n - 1) color px' else Some px'.

(** A canvas method on the canvas object: without a pixel array every
    method returns at once. *)
Definition onCanvas (f : list Z -> option (list Z)) (c : PSRAMCanvas16)
  : option PSRAMCanvas16 :=
  match buffer c with
  | None => Some c
  | Some px => (fun px' => mkCanvas (Some px')) <$> f px
  end.

(** The pixel at column [cx], row [cy] of a [cw]-wide pixel array. *)
Definition pixelAt (cw cx cy : Z) (px : list Z) : option Z :=
  px !! Z.to_nat (cy * cw + cx).

(** ** Partial flush ([flushBufferRegion]) *)

(** [flushBufferRegion(startY, h)]: [None] when the call returns before it
    touches the bus; otherwise the one transfer that follows
    [ensureTFTState()], as (first row, row count, pixels read from
    [buf + startY * SCREEN_WIDTH]). *)
Definition flushBufferRegion (startY h : Z) (s : FrameBuf)
  : option (Z * Z * list Z) :=
  match bufferReady s, deskBuffer s with
  | true, Some c =>
      match buffer c with
      | Some px =>
          let startY := if startY <? 0 then 0 else startY in
          let h := if startY + h >? SCREEN_HEIGHT
                   then to_int16 (SCREEN_HEIGHT - startY) else h in
          if h <=? 0 then None
          else Some (startY, h,
                     take (Z.to_nat (SCREEN_WIDTH * h))
                          (drop (Z.to_nat (startY * SCREEN_WIDTH)) px))
      | None => None
      end
  | _, _ => None
  end.

(** ** Hit testing ([deskPtrHitsWindow]) *)

(** The rectangle a window is tested against: the whole screen when it is
    fullscreen or maximized. *)
Definition hitBox (r : DeskWindow.t) : Z * Z * Z * Z :=
  if DeskWindow.fullscreen r then (0, 0, SCREEN_WIDTH, SCREEN_HEIGHT)
  else if DeskWindow.maximized r then (0, 0, SCREEN_WIDTH, SCREEN_HEIGHT)
  else rectOf r.

Definition ptrInWindow (p : Pointer) (r : DeskWindow.t) : bool :=
  let '(wx, wy, ww, wh) := hitBox r in
  deskPtrHits (mouseX p) (mouseY p) wx wy ww wh.

(** [for (i = 0; i < deskWinCount; i++) ...] with [fuel = deskWinCount - i].
    The inner [option] is the returned position ([None] for [-1]); the
    outer one is [None] when [deskWinOrder[i]] does not index [deskWins]. *)
Fixpoint hitScan (fuel i : nat) (p : Pointer) (d : Desk) : option (option nat) :=
  match fuel with
  | O => Some None
  | S f =>
      let idx := rd (deskWinOrder d) i in
      if idx <? 0 then None
      else
        match deskWins d !! Z.to_nat idx with
        | None => None
        | Some r =>
            if DeskWindow.open r && ptrInWindow p r then Some (Some i)
            else hitScan f (S i) p d
        end
  end.

Definition deskPtrHitsWindow (p : Pointer) (d : Desk) : option (option nat) :=
  hitScan (deskWinCount d) 0 p d.

(** ** Cursor movement ([drawDesktopApp]) *)

(** [prevMouseX = mouseX; prevMouseY = mouseY;] then the four guarded
    updates by [mouseSpeed], each stored back into an [int16_t], then the
    clamp to the screen. *)
Definition cursorStep (up down left right : bool) (mouseSpeed : Z)
    (cursorHidden paintActive : bool) (p : Pointer) : Pointer :=
  let moving := negb cursorHidden && negb paintActive in
  let my := mouseY p in
  let my := if moving && up then to_int16 (my - mouseSpeed) else my in
  let my := if moving && down then to_int16 (my + mouseSpeed) else my in
  let mx := mouseX p in
  let mx := if moving && left then to_int16 (mx - mouseSpeed) else mx in
  let mx := if moving && right then to_int16 (mx + mouseSpeed) else mx in
  let mx := if mx <? 0 then 0 else mx in
  let mx := if mx >=? SCREEN_WIDTH then SCREEN_WIDTH - 1 else mx in
  let my := if my <? 0 then 0 else my in
  let my := if my >=? SCREEN_HEIGHT then SCREEN_HEIGHT - 1 else my in
  mkPointer mx my (mouseX p) (mouseY p) (dragging p) (resizing p)
            (dragOffX p) (dragOffY p) (dragWinIdx p).

Definition onScreen (p : Pointer) : Prop :=
  0 <= mouseX p < SCREEN_WIDTH /\ 0 <= mouseY p < SCREEN_HEIGHT.

(** The pointer is over the window stored at z-order position [j]. *)
Definition hitsAt (p : Pointer) (d : Desk) (j : nat) : bool :=
  match deskWins d !! Z.to_nat (rd (deskWinOrder d) j) with
  | Some r => ptrInWindow p r
  | None => false
  end.

(** ** Desktop click debounce ([drawDesktopApp]) *)







(** ** Wall clock ([updateTime]) *)

Definition to_int32 (z : Z) : Z := (z + 2 ^ 31) mod 2 ^ 32 - 2 ^ 31.

Record Clock : Type := mkClock {
  hours : Z; minutes : Z; seconds : Z;     (* int *)
  day : Z; month : Z; year : Z
}.

(** The fields of [struct tm] the function reads. *)
Record Tm : Type := mkTm {
  tm_hour : Z; tm_min : Z; tm_sec : Z; tm_mday : Z; tm_mon : Z; tm_year : Z
}.

(** [updateTime]; [ntp] is what [getLocalTime] delivers within its 10 ms,
    if it is called. *)
Definition updateTime (wifiConnected : bool) (ntp : option Tm) (c : Clock)
  : Clock :=
  match (if wifiConnected then ntp else None) with
  | Some t =>
      mkClock (tm_hour t) (tm_min t) (tm_sec t) (tm_mday t)
              (to_int32 (tm_mon t + 1)) (to_int32 (tm_year t + 1900))
  | None =>
      let s := to_int32 (seconds c + 1) in
      if s >=? 60 then
        let m := to_int32 (minutes c + 1) in
        if m >=? 60 then
          let h := to_int32 (hours c + 1) in
          mkClock (if h >=? 24 then 0 else h) 0 0 (day c) (month c) (year c)
        else mkClock (hours c) m 0 (day c) (month c) (year c)
      else mkClock (hours c) (minutes c) s (day c) (month c) (year c)
  end.

Definition validTime (c : Clock) : Prop :=
  0 <= hours c < 24 /\ 0 <= minutes c < 60 /\ 0 <= seconds c < 60.

Definition secondOfDay (c : Clock) : Z :=
  hours c * 3600 + minutes c * 60 + seconds c.

(** ** Tetris: clearing lines ([tetrisClearLines]) *)

Definition TETRIS_COLS : nat := 10.
Definition TETRIS_ROWS : nat := 20.

(** [tetrisBoard] is held as its rows, top row first; each row has
    [TETRIS_COLS] cells. *)
Definition emptyRow : list Z := replicate TETRIS_COLS 0.

(** [full = true; for (c...) if (tetrisBoard[r][c] == 0) { full = false; break; }] *)
Definition rowFull (row : list Z) : bool := forallb (fun v => negb (v =? 0)) row.

(** [for (rr = r; rr > 0; rr--) for (c...) tetrisBoard[rr][c] = tetrisBoard[rr - 1][c];] *)
Fixpoint shiftRowsDown (rr : nat) (b : list (list Z)) : list (list Z) :=
  match rr with
  | O => b
  | S j => shiftRowsDown j (<[S j := default [] (b !! j)]> b)
  end.

(** The row loop, with [n = r + 1] rows still to look at.  A full row is
    removed and the same index is looked at again ([r++] undone by the
    [r--] of the loop head); [fuel] bounds the number of iterations. *)
Fixpoint clearLoop (fuel n : nat) (b : list (list Z)) (cleared : Z) {struct fuel}
  : option (list (list Z) * Z) :=
  match n with
  | O => Some (b, cleared)
  | S r =>
      match fuel with
      | O => None
      | S f =>
          if rowFull (default [] (b !! r))
          then clearLoop f (S r) (<[0%nat := emptyRow]> (shiftRowsDown r b))
                         (to_int32 (cleared + 1))
          else clearLoop f r b cleared
      end
  end.

Record Tetris : Type := mkTetris {
  tetrisBoard : list (list Z);
  tetrisScore : Z; tetrisLevel : Z; tetrisLines : Z;      (* int *)
  tetrisDropInterval : Z
}.

Definition points : list Z := [0; 100; 300; 500; 800].

(** [tetrisClearLines].  Every row is looked at once and once more for
    each row removed, so [2 * TETRIS_ROWS] iterations are enough.  [None]
    when [points[cleared]] is read past the end of the array. *)
Definition tetrisClearLines (t : Tetris) : option Tetris :=
  match clearLoop (2 * TETRIS_ROWS) TETRIS_ROWS (tetrisBoard t) 0 with
  | None => None
  | Some (b, cleared) =>
      if cleared >? 0 then
        match points !! Z.to_nat cleared with
        | None => None
        | Some pts =>
            let lines := to_int32 (tetrisLines t + cleared) in
            let score := to_int32 (tetrisScore t + to_int32 (pts * tetrisLevel t)) in
            let level := to_int32 (1 + Z.quot lines 10) in
            Some (mkTetris b score level lines
                    (Z.max 100 (to_int32 (500 - to_int32 (to_int32 (level - 1) * 50)))))
        end
      else Some (mkTetris b (tetrisScore t) (tetrisLevel t) (tetrisLines t)
                          (tetrisDropInterval t))
  end.

Definition fullRows (b : list (list Z)) : nat :=
  length (filter (fun row => rowFull row = true) b).

(** ** File list: natural order ([naturalCompare]) *)

(** Names are the bytes of a C string up to its terminator. *)
Definition isdigit (c : Z) : bool := (48 <=? c) && (c <=? 57).
Definition tolower (c : Z) : Z := if (65 <=? c) && (c <=? 90) then c + 32 else c.

(** [while (isdigit( *a )) { num = num * 10 + ( *a - '0'); a++; }] on a
    32-bit [long]; returns the number and the rest of the string. *)
Fixpoint scanNum (acc : Z) (s : list Z) : Z * list Z :=
  match s with
  | c :: r => if isdigit c then scanNum (to_int32 (acc * 10 + (c - 48))) r
              else (acc, s)
  | [] => (acc, [])
  end.

(** The [while ( *a && *b )] loop and the three [return]s after it.  Every
    iteration moves [a] forward, so [fuel = strlen(a)] iterations are
    enough; [None] is "fuel ran out". *)
Fixpoint naturalCompareLoop (fuel : nat) (a b : list Z) : option Z :=
  match a, b with
  | [], [] => Some 0
  | _ :: _, [] => Some 1
  | [], _ :: _ => Some (-1)
  | ca :: ra, cb :: rb =>
      match fuel with
      | O => None
      | S f =>
          if isdigit ca && isdigit cb then
            let '(numA, a') := scanNum 0 a in
            let '(numB, b') := scanNum 0 b in
            if negb (numA =? numB) then Some (if numA <? numB then -1 else 1)
            else naturalCompareLoop f a' b'
          else
            let la := tolower ca in
            let lb := tolower cb in
            if negb (la =? lb) then Some (if la <? lb then -1 else 1)
            else naturalCompareLoop f ra rb
      end
  end.

Definition naturalCompare (a b : list Z) : option Z :=
  naturalCompareLoop (length a) a b.

(** ** File list: sorting ([sortFiles]) *)

(** The [swap] flag of one comparison of entries [j] and [j + 1]. *)
Definition wantSwap (nj : list Z) (dj : bool) (nj1 : list Z) (dj1 : bool)
  : option bool :=
  if negb dj && dj1 then Some true
  else if eqb dj dj1 then (fun r => r >? 0) <$> naturalCompare nj nj1
  else Some false.

(** Body of the inner loop on the two parallel arrays; [None] when [j + 1]
    is past the end of the arrays. *)
Definition sortStep (j : nat) (f : list (list Z) * list bool)
  : option (list (list Z) * list bool) :=
  let '(names, dirs) := f in
  match names !! j, names !! S j, dirs !! j, dirs !! S j with
  | Some nj, Some nj1, Some dj, Some dj1 =>
      match wantSwap nj dj nj1 dj1 with
      | Some true => Some (<[S j := nj]> (<[j := nj1]> names),
                           <[S j := dj]> (<[j := dj1]> dirs))
      | Some false => Some f
      | None => None
      end
  | _, _, _, _ => None
  end.

(** [for (j = ...; j < fileCount - i - 1; j++)] with [fuel] iterations left. *)
Fixpoint sortInner (fuel j : nat) (f : list (list Z) * list bool)
  : option (list (list Z) * list bool) :=
  match fuel with
  | O => Some f
  | S k => sortStep j f ≫= sortInner k (S j)
  end.

(** [for (i = ...; i < fileCount - 1; i++)] with [fuel] iterations left. *)
Fixpoint sortOuter (fuel i : nat) (fileCount : Z) (f : list (list Z) * list bool)
  : option (list (list Z) * list bool) :=
  match fuel with
  | O => Some f
  | S k => sortInner (Z.to_nat (fileCount - Z.of_nat i - 1)) 0 f
           ≫= sortOuter k (S i) fileCount
  end.

Definition sortFiles (fileCount : Z) (f : list (list Z) * list bool)
  : option (list (list Z) * list bool) :=
  sortOuter (Z.to_nat (fileCount - 1)) 0 fileCount f.

(** The first [fileCount] entries as (name, is-directory) pairs. *)
Definition entries (fileCount : Z) (f : list (list Z) * list bool)
  : list (list Z * bool) :=
  take (Z.to_nat fileCount) (zip f.1 f.2).

(** Every directory comes before every file. *)
Fixpoint dirsFirst (ds : list bool) : bool :=
  match ds with
  | [] => true
  | true :: r => dirsFirst r
  | false :: r => forallb negb r
  end.

(** One pass of adjacent comparisons over [a :: l], carrying the larger
    element along. *)
Fixpoint bub {A} (sw : A -> A -> bool) (a : A) (l : list A) : list A :=
  match l with
  | [] => [a]
  | b :: r => if sw a b then b :: bub sw a r else a :: bub sw b r
  end.

(** [wantSwap] on pairs, as a total function. *)
Definition swapEntries (a b : list Z * bool) : bool :=
  match wantSwap a.1 a.2 b.1 b.2 with Some sw => sw | None => false end.

(** ** Taskbar auto-hide ([isTaskbarCovered], [updateTaskbarState]) *)

Definition START_MENU_ITEMS : Z := 14.

(** A window that reaches into the taskbar band, or takes the whole
    screen. *)
Definition coversTaskbar (r : DeskWindow.t) : bool :=
  if DeskWindow.fullscreen r || DeskWindow.maximized r then true
  else DeskWindow.y r + DeskWindow.h r >? SCREEN_HEIGHT - DESK_TASKBAR_H.

(** [isTaskbarCovered]: the scan over the z-order with
    [fuel = deskWinCount - i]; [None] when a z-order cell does not index
    [deskWins]. *)
Fixpoint coverScan (fuel i : nat) (d : Desk) : option bool :=
  match fuel with
  | O => Some false
  | S f =>
      let idx := rd (deskWinOrder d) i in
      if idx <? 0 then None
      else
        match deskWins d !! Z.to_nat idx with
        | None => None
        | Some r =>
            if DeskWindow.open r && coversTaskbar r then Some true
            else coverScan f (S i) d
        end
  end.

Definition isTaskbarCovered (d : Desk) : option bool :=
  coverScan (deskWinCount d) 0 d.

Record Taskbar : Type := mkTaskbar { taskbarHidden : bool; startMenuOpen : bool }.

(** The start menu rectangle test of [updateTaskbarState]:
    two columns of 52 px, 14 px per row. *)
Definition cursorInStartMenu (p : Pointer) (tb : Taskbar) : bool :=
  if startMenuOpen tb then
    let rows := Z.quot (START_MENU_ITEMS + 1) 2 in
    let menuW := 52 * 2 + 6 in
    let menuH := rows * 14 + 6 in
    let menuY := SCREEN_HEIGHT - DESK_TASKBAR_H - menuH in
    (mouseX p >=? 2) && (mouseX p <? 2 + menuW) && (mouseY p >=? menuY)
  else false.

(** The taskbar trigger area: the bottom two pixel rows while the taskbar
    is hidden, the whole band while it is shown. *)
Definition cursorInTaskbar (p : Pointer) (tb : Taskbar) : bool :=
  if taskbarHidden tb then mouseY p >=? SCREEN_HEIGHT - 2
  else mouseY p >=? SCREEN_HEIGHT - DESK_TASKBAR_H.

Definition updateTaskbarState (p : Pointer) (d : Desk) (tb : Taskbar)
  : option Taskbar :=
  match isTaskbarCovered d with
  | None => None
  | Some shouldHide =>
      let inBar := cursorInTaskbar p tb in
      let inMenu := cursorInStartMenu p tb in
      let shouldHide := if inBar || inMenu then false else shouldHide in
      let menu := if startMenuOpen tb && negb inBar && negb inMenu
                  then false else startMenuOpen tb in
      Some (mkTaskbar shouldHide menu)
  end.

(** The window at z-order position [j] covers the taskbar. *)
Definition coversAt (d : Desk) (j : nat) : bool :=
  match deskWins d !! Z.to_nat (rd (deskWinOrder d) j) with
  | Some r => coversTaskbar r
  | None => false
  end.

(** Number of frames of a chord run on which [takeScreenshot()] is
    called. *)
Definition countFired (os : list ChordOut) : nat :=
  length (filter (fun o => fired o = true) os).

(** ** Screenshot file and image loader ([takeScreenshot], [loadBMPFile]) *)

(** Little-endian bytes of a 16- or 32-bit object, as [f.write((uint8_t* )&v, n)]
    sends them; a negative [int32_t] gives its two's complement bytes. *)
Definition byteAt (v k : Z) : Z := (v / 256 ^ k) mod 256.
Definition le16 (v : Z) : list Z := [byteAt v 0; byteAt v 1].
Definition le32 (v : Z) : list Z := [byteAt v 0; byteAt v 1; byteAt v 2; byteAt v 3].

(** [(4 - (width * 3) % 4) % 4] *)
Definition rowPadding (width : Z) : Z := Z.rem (4 - Z.rem (width * 3) 4) 4.

(** The 54 header bytes written by [takeScreenshot]. *)
Definition bmpHeader (width height : Z) : list Z :=
  let padding := rowPadding width in
  let rowSizePadded := (width * 3 + padding) mod 2 ^ 32 in
  let imageSize := (rowSizePadded * height) mod 2 ^ 32 in
  let fileSize := (54 + imageSize) mod 2 ^ 32 in
  [66; 77] ++ le32 fileSize ++ le32 0 ++ le32 54
  ++ le32 40 ++ le32 width ++ le32 (- height) ++ le16 1 ++ le16 24
  ++ le32 0 ++ le32 imageSize ++ le32 0 ++ le32 0 ++ le32 0 ++ le32 0.

(** RGB565 to the three bytes written for a pixel, in file order B, G, R. *)
Definition rgb565to888 (c : Z) : list Z :=
  [Z.land (Z.shiftl (Z.land c 31) 3) 255;
   Z.land (Z.shiftl (Z.land (Z.shiftr c 5) 63) 2) 255;
   Z.land (Z.shiftl (Z.land (Z.shiftr c 11) 31) 3) 255].

(** [for (x ...) { c = bufferCopy[y * width + x]; f.write(b); f.write(g); f.write(r); }] *)
Fixpoint writePixels (n : nat) (x y width : Z) (buf : list Z) : list Z :=
  match n with
  | O => []
  | S m => rgb565to888 (rd buf (Z.to_nat (y * width + x)))
           ++ writePixels m (x + 1) y width buf
  end.

(** [for (y ...) { pixels; for (p < padding) f.write(0); }] *)
Fixpoint writeRows (n : nat) (y width padding : Z) (buf : list Z) : list Z :=
  match n with
  | O => []
  | S m => writePixels (Z.to_nat width) 0 y width buf
           ++ replicate (Z.to_nat padding) 0
           ++ writeRows m (y + 1) width padding buf
  end.

(** Everything [takeScreenshot] writes to the file for a [width] x [height]
    copy of the frame buffer. *)
Definition writeBMP (width height : Z) (buf : list Z) : list Z :=
  bmpHeader width height
  ++ writeRows (Z.to_nat height) 0 width (rowPadding width) buf.

Definition screenshotFile (buf : list Z) : list Z :=
  writeBMP SCREEN_WIDTH SCREEN_HEIGHT buf.

(** Reads of the loader from its 54-byte header buffer. *)
Definition u16_at (b : list Z) (off : nat) : Z := rd b off + 256 * rd b (off + 1).
Definition u32_at (b : list Z) (off : nat) : Z :=
  rd b off + 256 * rd b (off + 1) + 65536 * rd b (off + 2)
  + 16777216 * rd b (off + 3).

Record BMPInfo : Type := mkBMPInfo {
  origWidth : Z; origHeight : Z; topDown : bool; dataOffset : Z
}.

(** Head of [loadBMPFile]: [None] where it returns [false]. *)
Definition readBMPHeader (file : list Z) : option BMPInfo :=
  if (length file <? 54)%nat then None
  else
    let header := take 54 file in
    if negb (rd header 0 =? 66) || negb (rd header 1 =? 77) then None
    else
      let width := to_int32 (u32_at header 18) in
      let height := to_int32 (u32_at header 22) in
      let bpp := u16_at header 28 in
      let off := u32_at header 10 in
      let td := height <? 0 in
      let height := if td then to_int32 (- height) else height in
      if negb (bpp =? 24) then None
      else Some (mkBMPInfo width height td off).

(** [((r >> 3) << 11) | ((g >> 2) << 5) | (b >> 3)] *)
Definition rgb888to565 (b g r : Z) : Z :=
  Z.lor (Z.lor (Z.shiftl (Z.shiftr r 3) 11) (Z.shiftl (Z.shiftr g 2) 5))
        (Z.shiftr b 3).

(** [for (x ...) tempImg[destY * origWidth + x] = color;] from [rowData]. *)
Fixpoint readPixels (n : nat) (x : Z) (rowData : list Z) (destY width : Z)
    (img : list Z) : option (list Z) :=
  match n with
  | O => Some img
  | S m =>
      let b := rd rowData (Z.to_nat (x * 3)) in
      let g := rd rowData (Z.to_nat (x * 3 + 1)) in
      let r := rd rowData (Z.to_nat (x * 3 + 2)) in
      poke (destY * width + x) (rgb888to565 b g r) img
      ≫= readPixels m (x + 1) rowData destY width
  end.

(** The row loop of the fast path.  [stream] is the file from the read
    position on; [f.read] overwrites the front of [rowData] with the bytes
    it gets.  [None] when a row does not fit [rowData] or a pixel is
    stored outside [tempImg]. *)
Fixpoint readRows (n : nat) (y : Z) (stream rowData : list Z) (info : BMPInfo)
    (img : list Z) : option (list Z) :=
  match n with
  | O => Some img
  | S m =>
      let destY := if topDown info then y else origHeight info - 1 - y in
      let nbytes := origWidth info * 3 + rowPadding (origWidth info) in
      if nbytes >? Z.of_nat (length rowData) then None
      else
        let got := take (Z.to_nat nbytes) stream in
        let rowData' := got ++ drop (length got) rowData in
        readPixels (Z.to_nat (origWidth info)) 0 rowData' destY (origWidth info) img
        ≫= readRows m (y + 1) (drop (Z.to_nat nbytes) stream) rowData' info
  end.

(** [loadBMPFile] up to the point where the whole image sits in [tempImg]
    (scaling to the screen follows).  [rowData] and [tempImg] come in with
    whatever they hold. *)
Definition loadBMPPixels (file rowData tempImg : list Z)
  : option (BMPInfo * list Z) :=
  match readBMPHeader file with
  | None => None
  | Some info =>
      match readRows (Z.to_nat (origHeight info)) 0
                     (drop (Z.to_nat (dataOffset info)) file) rowData info tempImg with
      | None => None
      | Some img => Some (info, img)
      end
  end.

(** ** Scroll bar drag of the file list ([drawDesktopApp]) *)

Definition DESK_TITLEBAR_H : Z := 18.

(** Geometry of the file list inside a Files window: [(listY, listH, maxVisible)]. *)
Definition fileListGeometry (r : DeskWindow.t) : Z * Z * Z :=
  let wy := if DeskWindow.maximized r then 0 else DeskWindow.y r in
  let wh := if DeskWindow.maximized r then to_int16 (SCREEN_HEIGHT - DESK_TASKBAR_H)
            else DeskWindow.h r in
  let cy := to_int16 (wy + DESK_TITLEBAR_H + 1) in
  let ch := to_int16 (wh - DESK_TITLEBAR_H - 3) in
  let pathH := if DeskWindow.maximized r then 14 else 12 in
  let btnH := if DeskWindow.maximized r then 14 else 12 in
  let fItemH := if DeskWindow.maximized r then 14 else 12 in
  let listY := cy + pathH + 2 in
  let listH := ch - pathH - btnH - 4 in
  (listY, listH, Z.quot listH fItemH).

(** The new [fileScrollOffset] while the scroll bar of the Files window
    [r] is dragged with the cursor at row [my]. *)
Definition fileScrollDrag (r : DeskWindow.t) (my fileCount : Z) : Z :=
  let '(listY, listH, maxVisible) := fileListGeometry r in
  let relY := my - listY in
  let relY := if relY <? 0 then 0 else relY in
  let relY := if relY >? listH then listH else relY in
  let maxScroll := Z.max 0 (fileCount - maxVisible) in
  let off := Z.quot (relY * maxScroll) (Z.max 1 listH) in
  if off >? maxScroll then maxScroll else off.

(** ** Seconds tick ([loop]) *)

(** [if (currentTime - lastSecond >= 1000) { lastSecond = currentTime; updateTime(); }]
    with no time from the network. *)
Definition tickStep (currentTime : Z) (s : Z * Clock) : Z * Clock :=
  let '(lastSecond, c) := s in
  if sub32 currentTime lastSecond >=? 1000
  then (currentTime, updateTime false None c)
  else s.

Definition runTicks (frames : list Z) (s : Z * Clock) : Z * Clock :=
  foldl (fun s t => tickStep t s) s frames.

(** [n] frame times, [FRAME_MS] apart, from [t] on. *)
Fixpoint tickFrames (t : Z) (n : nat) : list Z :=
  match n with
  | O => []
  | S m => t :: tickFrames (t + FRAME_MS) m
  end.

(** ** Tetris: collision test and hard drop ([tetrisCheckCollision], [tetrisHardDrop]) *)

(** [tetrisPieces[7][4]]: a 4x4 bit mask per piece and rotation. *)
Definition tetrisPieces : list (list Z) :=
  [[0x0F00; 0x2222; 0x00F0; 0x4444];    (* I *)
   [0xCC00; 0xCC00; 0xCC00; 0xCC00];    (* O *)
   [0x0E40; 0x4C40; 0x4E00; 0x4640];    (* T *)
   [0x06C0; 0x8C40; 0x6C00; 0x4620];    (* S *)
   [0x0C60; 0x4C80; 0xC600; 0x2640];    (* Z *)
   [0x44C0; 0x8E00; 0x6440; 0x0E20];    (* J *)
   [0x4460; 0x0E80; 0xC440; 0x2E00]].   (* L *)

Definition pieceMask (pieceType rot : Z) : Z :=
  rd (default [] (tetrisPieces !! Z.to_nat pieceType)) (Z.to_nat rot).

(** [piece & (0x8000 >> (r * 4 + c))] *)
Definition pieceBit (piece r c : Z) : bool :=
  negb (Z.land piece (Z.shiftr 0x8000 (r * 4 + c)) =? 0).

(** The cells of the 4x4 mask in the order the two loops visit them. *)
Definition maskCells : list (Z * Z) :=
  r ← [0; 1; 2; 3]; c ← [0; 1; 2; 3]; [(r, c)].

Definition boardCell (b : list (list Z)) (br bc : Z) : Z :=
  rd (default [] (b !! Z.to_nat br)) (Z.to_nat bc).

(** [tetrisCheckCollision(px, py, rot)] for the current piece type: the
    first cell of the mask that is outside the side walls, below the floor
    or on an occupied cell makes it return [true]. *)
Definition tetrisCheckCollision (b : list (list Z)) (pieceType px py rot : Z)
  : bool :=
  let piece := pieceMask pieceType rot in
  existsb (fun '(r, c) =>
             pieceBit piece r c &&
             (let br := py + r in
              let bc := px + c in
              (bc <? 0) || (bc >=? Z.of_nat TETRIS_COLS)
              || (br >=? Z.of_nat TETRIS_ROWS)
              || ((br >=? 0) && (boardCell b br bc >? 0))))
          maskCells.

(** [while (!tetrisCheckCollision(x, y + 1, rot)) { y++; score += 2; }]
    returning the final row and score; [None] when [fuel] iterations were
    not enough. *)
Fixpoint hardDropLoop (fuel : nat) (b : list (list Z)) (pieceType px rot : Z)
    (py score : Z) : option (Z * Z) :=
  match fuel with
  | O => None
  | S f =>
      if tetrisCheckCollision b pieceType px (py + 1) rot then Some (py, score)
      else hardDropLoop f b pieceType px rot (py + 1) (to_int32 (score + 2))
  end.

(** The loop of [tetrisHardDrop]: from row [py] the floor stops the piece
    after at most [TETRIS_ROWS - py] steps. *)
Definition tetrisHardDrop (b : list (list Z)) (pieceType px rot py score : Z)
  : option (Z * Z) :=
  hardDropLoop (S (Z.to_nat (Z.of_nat TETRIS_ROWS - py))) b pieceType px rot py score.

(** ** Tetris: locking a piece ([tetrisLockPiece]) *)






(** * Properties *)

(** ** Array helpers *)

Lemma rd_lookup (a : list Z) i v : a !! i = Some v -> rd a i = v.
Proof. unfold rd. intros ->. reflexivity. Qed.

Lemma lookup_rd (a : list Z) i : (i < length a)%nat -> a !! i = Some (rd a i).
Proof.
  intros Hi. destruct (lookup_lt_is_Some_2 a i Hi) as [v Hv].
  rewrite Hv. f_equal. symmetry. by apply rd_lookup.
Qed.

Lemma length_shiftBack n (ord : list Z) : length (shiftBack n ord) = length ord.
Proof.
  revert ord. induction n as [|n IH]; intros ord; simpl; [done|].
  by rewrite IH, length_insert.
Qed.

(** After the loop, cells [1..n] hold the old cells [0..n-1]; cell [0] and
    the cells past [n] are untouched. *)
Lemma shiftBack_spec n (ord : list Z) :
  (n < length ord)%nat ->
  shiftBack n ord = take 1 ord ++ take n ord ++ drop (S n) ord.
Proof.
  revert ord. induction n as [|n IH]; intros ord Hn; simpl shiftBack.
  - rewrite take_0. simpl. by rewrite take_drop.
  - rewrite IH by (rewrite length_insert; lia).
    rewrite !take_insert_ge by lia.
    rewrite drop_insert_ge by lia.
    replace (S n - S n)%nat with 0%nat by lia.
    rewrite (take_S_r ord n (rd ord n)) by (apply lookup_rd; lia).
    rewrite (drop_S ord (rd ord (S n)) (S n)) by (apply lookup_rd; lia).
    simpl. by rewrite <- (assoc_L (++)).
Qed.

Lemma insert_front_shiftBack n v (ord : list Z) :
  (n < length ord)%nat ->
  <[0%nat := v]> (shiftBack n ord) = v :: take n ord ++ drop (S n) ord.
Proof.
  intros Hn. rewrite shiftBack_spec by done.
  destruct ord as [|a ord]; [simpl in Hn; lia|]. reflexivity.
Qed.

Lemma length_shiftFront fuel i (ord : list Z) :
  length (shiftFront fuel i ord) = length ord.
Proof.
  revert i ord. induction fuel as [|f IH]; intros i ord; simpl; [done|].
  by rewrite IH, length_insert.
Qed.

(** After the loop, cells [i..i+fuel-1] hold the old cells [i+1..i+fuel];
    everything else is untouched. *)
Lemma shiftFront_spec fuel i (ord : list Z) :
  (i + fuel < length ord)%nat ->
  shiftFront fuel i ord
  = take i ord ++ take fuel (drop (S i) ord) ++ drop (i + fuel) ord.
Proof.
  revert i ord. induction fuel as [|f IH]; intros i ord Hlen; simpl shiftFront.
  - rewrite take_0, Nat.add_0_r. simpl. by rewrite take_drop.
  - rewrite IH by (rewrite length_insert; lia).
    rewrite (take_S_r _ i (rd ord (S i)))
      by (apply list_lookup_insert_eq; lia).
    rewrite take_insert_ge by lia.
    rewrite !drop_insert_lt by lia.
    rewrite (drop_S ord (rd ord (S i)) (S i)) by (apply lookup_rd; lia).
    simpl. rewrite <- (assoc_L (++)). simpl.
    by replace (S (i + f)) with (i + S f)%nat by lia.
Qed.

(** The logical effect of the removal loop on the first [n] cells. *)
Lemma take_shiftFront n pos (ord : list Z) :
  (pos < n)%nat -> (n <= length ord)%nat ->
  take (n - 1) (shiftFront (n - 1 - pos) pos ord) = delete pos (take n ord).
Proof.
  intros Hpos Hn. rewrite shiftFront_spec by lia.
  rewrite delete_take_drop, take_take.
  replace (pos `min` n)%nat with pos by lia.
  rewrite (assoc_L (++)), take_app_length'.
  - f_equal. rewrite take_drop_commute. f_equal. f_equal. lia.
  - rewrite length_app, !length_take, length_drop. lia.
Qed.

Lemma findOrderPos_Some fuel i (ord : list Z) v p :
  findOrderPos fuel i ord v = Some p ->
  (i <= p < i + fuel)%nat /\ rd ord p = v /\
  forall j, (i <= j < p)%nat -> rd ord j <> v.
Proof.
  revert i. induction fuel as [|f IH]; intros i; simpl; [done|].
  destruct (Z.eqb_spec (rd ord i) v) as [He|Hne].
  - intros [= <-]. repeat split; [lia|lia|done|]. intros j Hj. lia.
  - intros Hf. destruct (IH _ Hf) as (Hr & Hv & Hb).
    repeat split; [lia|lia|done|]. intros j Hj.
    destruct (decide (j = i)) as [->|]; [done|]. apply Hb. lia.
Qed.

Lemma findOrderPos_None fuel i (ord : list Z) v :
  findOrderPos fuel i ord v = None ->
  forall j, (i <= j < i + fuel)%nat -> rd ord j <> v.
Proof.
  revert i. induction fuel as [|f IH]; intros i; simpl; [intros _ j Hj; lia|].
  destruct (Z.eqb_spec (rd ord i) v) as [He|Hne]; [done|].
  intros Hf j Hj. destruct (decide (j = i)) as [->|]; [done|].
  apply (IH _ Hf). lia.
Qed.

Lemma findFreeSlot_Some i wins s :
  findFreeSlot i wins = Some s ->
  (i <= s)%nat /\ slotOpen wins (s - i) = false /\ (s - i < length wins)%nat /\
  forall j, (j < s - i)%nat -> slotOpen wins j = true.
Proof.
  revert i. induction wins as [|r rest IH]; intros i; simpl; [done|].
  destruct (DeskWindow.open r) eqn:Hr.
  - intros Hf. destruct (IH _ Hf) as (Hi & Hc & Hl & Hb).
    replace (s - i)%nat with (S (s - S i)) by lia.
    repeat split; [lia|done|lia|].
    intros [|j] Hj; [done|]. apply Hb. lia.
  - intros [= <-]. replace (i - i)%nat with 0%nat by lia.
    unfold slotOpen. simpl. repeat split; [lia|done|lia|]. intros j Hj. lia.
Qed.

Lemma findFreeSlot_None i wins :
  findFreeSlot i wins = None -> forall j, (j < length wins)%nat -> slotOpen wins j = true.
Proof.
  revert i. induction wins as [|r rest IH]; intros i; simpl; [intros _ j Hj; lia|].
  destruct (DeskWindow.open r) eqn:Hr; [|done].
  intros Hf [|j] Hj; [done|]. apply (IH _ Hf). lia.
Qed.

(** Removing one position from a duplicate-free list removes exactly the
    element stored there. *)
Lemma elem_of_delete_NoDup (l : list Z) i v z :
  NoDup l -> l !! i = Some v -> z ∈ delete i l <-> z ∈ l /\ z <> v.
Proof.
  intros Hnd Hi.
  rewrite <- (take_drop_middle l i v Hi) in Hnd |- * at 2.
  rewrite delete_take_drop.
  apply NoDup_app in Hnd as (_ & Hdisj & Hnd2).
  apply NoDup_cons in Hnd2 as (Hv & _).
  rewrite !elem_of_app, elem_of_cons. split.
  - intros [Hz|Hz].
    + split; [by left|]. intros ->. apply (Hdisj _ Hz). by left.
    + split; [by right; right|]. by intros ->.
  - intros [[Hz|[->|Hz]] Hne]; [by left|done|by right].
Qed.

(** ** The registry invariant *)

Lemma slotOpen_lt wins i : slotOpen wins i = true -> (i < length wins)%nat.
Proof.
  unfold slotOpen. destruct (wins !! i) eqn:Hi; [|done].
  intros _. by eapply lookup_lt_Some.
Qed.

Lemma slotOpen_insert wins i j r :
  (i < length wins)%nat ->
  slotOpen (<[i := r]> wins) j
  = if decide (i = j) then DeskWindow.open r else slotOpen wins j.
Proof.
  intros Hi. unfold slotOpen. destruct (decide (i = j)) as [->|Hne].
  - by rewrite list_lookup_insert_eq.
  - by rewrite list_lookup_insert_ne.
Qed.

Lemma length_zorder d :
  (deskWinCount d <= length (deskWinOrder d))%nat ->
  length (zorder d) = deskWinCount d.
Proof. intros H. unfold zorder. by rewrite length_take_le. Qed.

Lemma emptyDesk_inv : deskInv emptyDesk.
Proof.
  split; try done.
  - cbn. lia.
  - cbn. constructor.
  - intros z. split; [by intros ?%elem_of_nil|].
    intros [Hz Ho]. unfold slotOpen, emptyDesk, deskWins in Ho.
    destruct (replicate _ _ !! _) as [r|] eqn:Hr; [|done].
    apply lookup_replicate in Hr as [-> _]. done.
  - cbn. lia.
Qed.

(** A free slot leaves room in the z-order array. *)
Lemma free_slot_room d s :
  deskInv d -> (s < MAX_DESK_WINDOWS)%nat -> slotOpen (deskWins d) s = false ->
  (deskWinCount d < MAX_DESK_WINDOWS)%nat.
Proof.
  intros [Hw Ho Hc Hnd Hmem _] Hs Hfree.
  set (k := Z.of_nat <$> (seq 0 s ++ seq (S s) (MAX_DESK_WINDOWS - 1 - s))).
  assert (Hsub : zorder d ⊆+ k).
  { apply NoDup_submseteq; [done|]. intros z Hz.
    apply Hmem in Hz as [Hz0 Hop]. apply slotOpen_lt in Hop as Hlt.
    apply list_elem_of_fmap. exists (Z.to_nat z). split; [lia|].
    apply elem_of_app. rewrite !elem_of_seq.
    destruct (decide (Z.to_nat z = s)) as [He|Hne]; [congruence|].
    rewrite Hw in Hlt. lia. }
  apply submseteq_length in Hsub.
  rewrite length_zorder in Hsub by lia.
  unfold k in Hsub. rewrite length_fmap, length_app, !length_seq in Hsub. lia.
Qed.

Lemma zorder_open d appType title s :
  deskInv d -> findFreeSlot 0 (deskWins d) = Some s ->
  zorder (deskOpenWindow appType title d) = Z.of_nat s :: zorder d.
Proof.
  intros Hinv Hf. destruct (findFreeSlot_Some _ _ _ Hf) as (_ & Hc & Hl & _).
  rewrite Nat.sub_0_r in Hc, Hl.
  assert (Hroom := free_slot_room d s Hinv
                     ltac:(by rewrite <- (inv_wins d Hinv)) Hc).
  unfold deskOpenWindow, zorder. rewrite Hf. cbn.
  rewrite insert_front_shiftBack by (rewrite (inv_order d Hinv); lia).
  cbn. f_equal. rewrite take_app_length'; [done|].
  rewrite length_take_le; [done|]. rewrite (inv_order d Hinv). lia.
Qed.

Lemma deskOpenWindow_inv appType title d :
  deskInv d -> deskInv (deskOpenWindow appType title d).
Proof.
  intros Hinv. destruct (findFreeSlot 0 (deskWins d)) as [s|] eqn:Hf;
    [|unfold deskOpenWindow; by rewrite Hf].
  pose proof (zorder_open d appType title s Hinv Hf) as Hz.
  destruct (findFreeSlot_Some _ _ _ Hf) as (_ & Hc & Hl & _).
  rewrite Nat.sub_0_r in Hc, Hl.
  assert (Hs : (s < MAX_DESK_WINDOWS)%nat) by (by rewrite <- (inv_wins d Hinv)).
  assert (Hroom := free_slot_room d s Hinv Hs Hc).
  assert (Hopen : forall z, isOpen (deskOpenWindow appType title d) z
                            <-> z = Z.of_nat s \/ isOpen d z).
  { intros z. unfold isOpen, deskOpenWindow. rewrite Hf. cbn.
    rewrite slotOpen_insert by done.
    destruct (decide (s = Z.to_nat z)) as [He|Hne].
    - unfold openedWindow. destruct (defaultSize appType) as [[[[? ?] ?] ?] ?].
      cbn. split; [intros [? _]; left; lia|].
      intros [->|[? ?]]; split; try done; lia.
    - split; [by right|]. intros [->|?]; [|done]. rewrite Nat2Z.id in Hne. done. }
  split.
  - unfold deskOpenWindow. rewrite Hf. cbn. rewrite length_insert.
    apply (inv_wins d Hinv).
  - unfold deskOpenWindow. rewrite Hf. cbn.
    rewrite length_insert, length_shiftBack. apply (inv_order d Hinv).
  - unfold deskOpenWindow. rewrite Hf. cbn. lia.
  - rewrite Hz. apply NoDup_cons. split; [|apply (inv_nodup d Hinv)].
    intros Hin. apply (inv_mem d Hinv) in Hin as [_ Hin].
    rewrite Nat2Z.id in Hin. congruence.
  - intros z. rewrite Hz, Hopen, elem_of_cons.
    by rewrite (inv_mem d Hinv).
  - intros _. unfold deskOpenWindow. rewrite Hf. cbn.
    apply rd_lookup. apply list_lookup_insert_eq.
    rewrite length_shiftBack, (inv_order d Hinv). unfold MAX_DESK_WINDOWS. lia.
Qed.

(** What a successful close does to the registry, in list terms. *)
Lemma deskCloseWindow_open d winIdx r :
  deskInv d -> 0 <= winIdx ->
  deskWins d !! Z.to_nat winIdx = Some r -> DeskWindow.open r = true ->
  exists pos d',
    deskCloseWindow winIdx d = Some d' /\
    zorder d !! pos = Some winIdx /\
    zorder d' = delete pos (zorder d) /\
    deskWins d' = <[Z.to_nat winIdx := DeskWindow.set_open false r]> (deskWins d) /\
    length (deskWinOrder d') = length (deskWinOrder d) /\
    deskWinCount d' = (deskWinCount d - 1)%nat /\
    (0 < deskWinCount d)%nat /\
    activeWin d' = if (0 <? deskWinCount d')%nat then rd (deskWinOrder d') 0 else -1.
Proof.
  intros Hinv Hge Hr Hop.
  assert (Hin : winIdx ∈ zorder d).
  { apply (inv_mem d Hinv). split; [done|]. unfold slotOpen. by rewrite Hr. }
  pose proof (inv_count d Hinv) as Hc. pose proof (inv_order d Hinv) as Ho.
  unfold deskCloseWindow.
  destruct (Z.ltb_spec winIdx 0) as [?|_]; [lia|]. rewrite Hr, Hop. cbn [negb].
  destruct (findOrderPos (deskWinCount d) 0 (deskWinOrder d) winIdx)
    as [pos|] eqn:Hf.
  - destruct (findOrderPos_Some _ _ _ _ _ Hf) as (Hpos & Hv & _).
    exists pos. eexists. split; [reflexivity|]. cbn.
    assert (Hlk : zorder d !! pos = Some winIdx).
    { unfold zorder. rewrite lookup_take_lt by lia. rewrite <- Hv.
      apply lookup_rd. lia. }
    repeat split; try done; try lia.
    + unfold zorder at 1. cbn. apply take_shiftFront; lia.
    + apply length_shiftFront.
  - exfalso. apply elem_of_take in Hin as (j & Hj & Hlt).
    apply (findOrderPos_None _ _ _ _ Hf j); [lia|]. by apply rd_lookup.
Qed.

Lemma deskCloseWindow_inv winIdx d d' :
  deskInv d -> deskCloseWindow winIdx d = Some d' -> deskInv d'.
Proof.
  intros Hinv Hcl.
  destruct (Z.ltb_spec winIdx 0) as [Hneg|Hge].
  { unfold deskCloseWindow in Hcl. destruct (Z.ltb_spec winIdx 0); [|lia].
    by injection Hcl as <-. }
  destruct (deskWins d !! Z.to_nat winIdx) as [r|] eqn:Hr;
    [|unfold deskCloseWindow in Hcl; destruct (Z.ltb_spec winIdx 0); [lia|];
      by rewrite Hr in Hcl].
  destruct (DeskWindow.open r) eqn:Hop;
    [|unfold deskCloseWindow in Hcl; destruct (Z.ltb_spec winIdx 0); [lia|];
      rewrite Hr, Hop in Hcl; by injection Hcl as <-].
  destruct (deskCloseWindow_open d winIdx r Hinv Hge Hr Hop)
    as (pos & d'' & Hd & Hpos & Hz & Hw & Hlo & Hn & Hpos0 & Hact).
  rewrite Hcl in Hd. injection Hd as <-.
  assert (Hlt : (Z.to_nat winIdx < length (deskWins d))%nat)
    by (by eapply lookup_lt_Some).
  split.
  - rewrite Hw, length_insert. apply (inv_wins d Hinv).
  - rewrite Hlo. apply (inv_order d Hinv).
  - rewrite Hn. pose proof (inv_count d Hinv). lia.
  - rewrite Hz. eapply sublist_NoDup; [|apply sublist_delete].
    apply (inv_nodup d Hinv).
  - intros z. rewrite Hz.
    rewrite (elem_of_delete_NoDup _ _ _ _ (inv_nodup d Hinv) Hpos).
    rewrite (inv_mem d Hinv). unfold isOpen. rewrite Hw.
    rewrite slotOpen_insert by done. cbn.
    destruct (decide (Z.to_nat winIdx = Z.to_nat z)) as [He|Hne].
    + split; [intros [[? _] ?]; lia|intros [_ ?]; done].
    + split; [intros [? _]; done|]. intros [? ?]. repeat split; try done.
      intros ->. done.
  - intros Hc. rewrite Hact.
    destruct (Nat.ltb_spec 0 (deskWinCount d')); [done|lia].
Qed.

Lemma runOps_inv ops d :
  deskInv d -> Forall opInPool ops ->
  exists d', runOps ops d = Some d' /\ deskInv d'.
Proof.
  revert d. induction ops as [|op ops IH]; intros d Hinv Hall.
  - exists d. done.
  - apply Forall_cons in Hall as [Hop Hall]. destruct op as [a t|i]; cbn.
    + apply IH; [|done]. by apply deskOpenWindow_inv.
    + cbn in Hop. destruct (deskCloseWindow i d) as [d1|] eqn:Hc.
      * cbn. apply IH; [|done]. by eapply deskCloseWindow_inv.
      * exfalso. unfold deskCloseWindow in Hc.
        destruct (Z.ltb_spec i 0); [done|].
        destruct (deskWins d !! Z.to_nat i) as [r|] eqn:Hr.
        { destruct (negb (DeskWindow.open r)); [done|].
          by destruct (findOrderPos _ _ _ _). }
        apply lookup_ge_None in Hr. rewrite (inv_wins d Hinv) in Hr. lia.
Qed.

Lemma openIds_NoDup d : NoDup (openIds d).
Proof.
  unfold openIds. apply NoDup_fmap_2; [apply _|].
  apply NoDup_filter, NoDup_seq.
Qed.

Lemma elem_of_openIds d z :
  length (deskWins d) = MAX_DESK_WINDOWS -> z ∈ openIds d <-> isOpen d z.
Proof.
  intros Hw. unfold openIds, isOpen. rewrite list_elem_of_fmap. split.
  - intros (i & -> & Hi). apply list_elem_of_filter in Hi as [Hi _].
    rewrite Nat2Z.id. split; [lia|done].
  - intros [Hz Ho]. exists (Z.to_nat z). split; [lia|].
    apply list_elem_of_filter. split; [done|].
    apply elem_of_seq. apply slotOpen_lt in Ho. lia.
Qed.

(** C1 — Z-order invariant.  Every sequence of [deskOpenWindow] and
    [deskCloseWindow] calls started on the empty desktop, with close
    requests naming pool slots, runs to completion, and afterwards the
    z-order cells [deskWinOrder[0..deskWinCount-1]] are a permutation of
    the ids of the open slots (so they hold no duplicate and no closed id)
    and, when [deskWinCount > 0], the front cell is [activeWin]. *)
Theorem zorder_is_permutation_of_open_ids ops :
  Forall opInPool ops ->
  exists d,
    runOps ops emptyDesk = Some d /\
    zorder d ≡ₚ openIds d /\
    NoDup (zorder d) /\
    (forall z, z ∈ zorder d -> isOpen d z) /\
    ((0 < deskWinCount d)%nat -> rd (deskWinOrder d) 0 = activeWin d).
Proof.
  intros Hall.
  destruct (runOps_inv ops emptyDesk emptyDesk_inv Hall) as (d & Hrun & Hinv).
  exists d. split; [done|]. split; [|split; [|split]].
  - apply NoDup_Permutation; [apply (inv_nodup d Hinv)|apply openIds_NoDup|].
    intros z. rewrite (inv_mem d Hinv).
    by rewrite (elem_of_openIds d z (inv_wins d Hinv)).
  - apply (inv_nodup d Hinv).
  - intros z. apply (inv_mem d Hinv).
  - apply (inv_focus d Hinv).
Qed.

Lemma zorder_is_permutation_of_open_ids_witness :
  Forall opInPool [OpOpen 1 "Calc"; OpOpen 4 "Notes"; OpClose 0] /\
  exists d,
    runOps [OpOpen 1 "Calc"; OpOpen 4 "Notes"; OpClose 0] emptyDesk = Some d /\
    zorder d ≡ₚ openIds d /\
    NoDup (zorder d) /\
    (forall z, z ∈ zorder d -> isOpen d z) /\
    ((0 < deskWinCount d)%nat -> rd (deskWinOrder d) 0 = activeWin d).
Proof.
  assert (H : Forall opInPool [OpOpen 1 "Calc"; OpOpen 4 "Notes"; OpClose 0]).
  { repeat constructor. }
  split; [exact H|].
  exact (zorder_is_permutation_of_open_ids _ H).
Defined.

(** Scenario A of the specification, by evaluation. *)
Example scenarioA :
  let d := deskOpenWindow 4 "Notes" (deskOpenWindow 1 "Calc" emptyDesk) in
  zorder d = [1; 0] /\
  (zorder <$> deskCloseWindow 0 d) = Some [1] /\
  (activeWin <$> deskCloseWindow 0 d) = Some 1.
Proof. vm_compute. auto. Qed.

(** ** Opening a window *)

Lemma openedWindow_fields slot appType title :
  let r := openedWindow slot appType title in
  DeskWindow.open r = true /\
  DeskWindow.appType r = appType /\
  DeskWindow.maximized r = false /\
  DeskWindow.title r = copyTitle title /\
  (DeskWindow.w r, DeskWindow.h r, DeskWindow.minW r, DeskWindow.minH r,
   DeskWindow.fullscreen r) = defaultSize appType /\
  DeskWindow.x r = 20 + (Z.of_nat slot * 15) mod 60 /\
  DeskWindow.y r = 10 + (Z.of_nat slot * 12) mod 40.
Proof.
  unfold openedWindow. destruct (defaultSize appType) as [[[[? ?] ?] ?] ?].
  cbn. repeat split; rewrite Z.rem_mod_nonneg; lia.
Qed.

(** C2 (as the code has it) — [deskOpenWindow] on a well-formed desktop.
    With a free slot it claims the lowest-indexed one, writes into it the
    open record whose width, height and minimum size are those registered
    for the content type and whose origin is the cascade position of the
    slot, [(20 + 15*slot mod 60, 10 + 12*slot mod 40)], leaves every other
    record alone, puts the slot id in front of the z-order with the rest
    shifted back by one, and focuses it.  Without a free slot it returns
    the desktop unchanged. *)
Theorem deskOpenWindow_claims_lowest_free_slot d appType title :
  deskInv d ->
  match findFreeSlot 0 (deskWins d) with
  | Some slot =>
      let d' := deskOpenWindow appType title d in
      let r := openedWindow slot appType title in
      (slot < MAX_DESK_WINDOWS)%nat /\
      slotOpen (deskWins d) slot = false /\
      (forall j, (j < slot)%nat -> slotOpen (deskWins d) j = true) /\
      deskWins d' !! slot = Some r /\
      (DeskWindow.w r, DeskWindow.h r, DeskWindow.minW r, DeskWindow.minH r,
       DeskWindow.fullscreen r) = defaultSize appType /\
      DeskWindow.x r = 20 + (Z.of_nat slot * 15) mod 60 /\
      DeskWindow.y r = 10 + (Z.of_nat slot * 12) mod 40 /\
      (forall j, j <> slot -> deskWins d' !! j = deskWins d !! j) /\
      zorder d' = Z.of_nat slot :: zorder d /\
      deskWinCount d' = S (deskWinCount d) /\
      activeWin d' = Z.of_nat slot
  | None =>
      (forall j, (j < MAX_DESK_WINDOWS)%nat -> slotOpen (deskWins d) j = true) /\
      deskOpenWindow appType title d = d
  end.
Proof.
  intros Hinv. destruct (findFreeSlot 0 (deskWins d)) as [slot|] eqn:Hf.
  - destruct (findFreeSlot_Some _ _ _ Hf) as (_ & Hc & Hl & Hb).
    rewrite Nat.sub_0_r in Hc, Hl, Hb.
    pose proof (zorder_open d appType title slot Hinv Hf) as Hz.
    destruct (openedWindow_fields slot appType title)
      as (_ & _ & _ & _ & Hsz & Hx & Hy).
    cbn zeta. repeat split; try done.
    + by rewrite <- (inv_wins d Hinv).
    + unfold deskOpenWindow. rewrite Hf. cbn. by apply list_lookup_insert_eq.
    + intros j Hj. unfold deskOpenWindow. rewrite Hf. cbn.
      by apply list_lookup_insert_ne.
    + unfold deskOpenWindow. by rewrite Hf.
    + unfold deskOpenWindow. by rewrite Hf.
  - split.
    + intros j Hj. apply (findFreeSlot_None _ _ Hf).
      by rewrite (inv_wins d Hinv).
    + unfold deskOpenWindow. by rewrite Hf.
Qed.

Lemma deskOpenWindow_claims_lowest_free_slot_witness :
  deskInv emptyDesk /\
  match findFreeSlot 0 (deskWins emptyDesk) with
  | Some slot =>
      let d' := deskOpenWindow 1 "Calc" emptyDesk in
      let r := openedWindow slot 1 "Calc" in
      (slot < MAX_DESK_WINDOWS)%nat /\
      slotOpen (deskWins emptyDesk) slot = false /\
      (forall j, (j < slot)%nat -> slotOpen (deskWins emptyDesk) j = true) /\
      deskWins d' !! slot = Some r /\
      (DeskWindow.w r, DeskWindow.h r, DeskWindow.minW r, DeskWindow.minH r,
       DeskWindow.fullscreen r) = defaultSize 1 /\
      DeskWindow.x r = 20 + (Z.of_nat slot * 15) mod 60 /\
      DeskWindow.y r = 10 + (Z.of_nat slot * 12) mod 40 /\
      (forall j, j <> slot -> deskWins d' !! j = deskWins emptyDesk !! j) /\
      zorder d' = Z.of_nat slot :: zorder emptyDesk /\
      deskWinCount d' = S (deskWinCount emptyDesk) /\
      activeWin d' = Z.of_nat slot
  | None =>
      (forall j, (j < MAX_DESK_WINDOWS)%nat ->
                 slotOpen (deskWins emptyDesk) j = true) /\
      deskOpenWindow 1 "Calc" emptyDesk = emptyDesk
  end.
Proof.
  split; [exact emptyDesk_inv|].
  exact (deskOpenWindow_claims_lowest_free_slot emptyDesk 1 "Calc" emptyDesk_inv).
Defined.

(** C2 as stated fails: the rectangle given to a new window is not a
    function of its content type.  Two calculators opened in a row get
    different rectangles, because the origin comes from the slot. *)
Lemma open_rectangle_not_by_content_type :
  let d1 := deskOpenWindow 1 "Calc" emptyDesk in
  let d2 := deskOpenWindow 1 "Calc" d1 in
  findFreeSlot 0 (deskWins emptyDesk) = Some 0%nat /\
  findFreeSlot 0 (deskWins d1) = Some 1%nat /\
  rectOf <$> deskWins d1 !! 0%nat = Some (20, 10, 95, 85) /\
  rectOf <$> deskWins d2 !! 1%nat = Some (35, 22, 95, 85) /\
  ~ (exists rectFor : Z -> Z * Z * Z * Z,
       forall d a t slot,
         deskInv d -> findFreeSlot 0 (deskWins d) = Some slot ->
         rectOf <$> deskWins (deskOpenWindow a t d) !! slot = Some (rectFor a)).
Proof.
  cbn zeta. repeat split; try reflexivity.
  intros (rectFor & H).
  pose proof (H emptyDesk 1 "Calc"%string 0%nat emptyDesk_inv eq_refl) as H0.
  pose proof (H (deskOpenWindow 1 "Calc" emptyDesk) 1 "Calc"%string 1%nat
                (deskOpenWindow_inv _ _ _ emptyDesk_inv) eq_refl) as H1.
  vm_compute in H0, H1. congruence.
Qed.

(** ** Closing a window that is not open *)

(** C10 — [deskCloseWindow] on a negative index, or on a slot whose record
    is not open, returns with the whole desktop (records, z-order array,
    count, focus and the teardown state) unchanged. *)
Theorem deskCloseWindow_not_open_noop d winIdx :
  winIdx < 0 \/
  (exists r, deskWins d !! Z.to_nat winIdx = Some r /\ DeskWindow.open r = false) ->
  deskCloseWindow winIdx d = Some d.
Proof.
  intros [Hneg|(r & Hr & Hop)]; unfold deskCloseWindow.
  - destruct (Z.ltb_spec winIdx 0); [done|lia].
  - destruct (winIdx <? 0); [done|]. by rewrite Hr, Hop.
Qed.

Lemma deskCloseWindow_not_open_noop_witness :
  (3 < 0 \/
   exists r, deskWins (deskOpenWindow 1 "Calc" emptyDesk) !! Z.to_nat 3 = Some r /\
             DeskWindow.open r = false) /\
  deskCloseWindow 3 (deskOpenWindow 1 "Calc" emptyDesk)
  = Some (deskOpenWindow 1 "Calc" emptyDesk).
Proof.
  assert (H : 3 < 0 \/
    exists r, deskWins (deskOpenWindow 1 "Calc" emptyDesk) !! Z.to_nat 3 = Some r /\
              DeskWindow.open r = false).
  { right. exists DeskWindow.zero. split; reflexivity. }
  split; [exact H|].
  exact (deskCloseWindow_not_open_noop _ 3 H).
Defined.

(** ** Bringing a window to the front *)

Lemma take_delete (l : list Z) k n :
  (k < n)%nat -> take (n - 1) (delete k l) = delete k (take n l).
Proof.
  intros Hk. destruct (decide (n <= length l)%nat) as [Hn|Hn].
  - rewrite !delete_take_drop, take_take.
    replace (k `min` n)%nat with k by lia.
    rewrite take_app, length_take_le by lia.
    rewrite take_take. replace ((n - 1) `min` k)%nat with k by lia.
    f_equal. rewrite take_drop_commute. f_equal. f_equal. lia.
  - rewrite (take_ge l n) by lia. apply take_ge.
    destruct (decide (k < length l)%nat).
    + rewrite length_delete by (by apply lookup_lt_is_Some_2). lia.
    + rewrite delete_take_drop, take_ge, drop_ge by lia.
      rewrite length_app. simpl. lia.
Qed.

(** C8 (as the code has it) — [deskBringToFront].  For a position
    [0 < orderIdx < deskWinCount] the window stored there becomes the front
    element, the windows that were in front of it move back by one, nothing
    else changes, and it gets the focus.  For [orderIdx <= 0] the call
    returns at once and writes nothing, [activeWin] included.  Calling it
    for the front position after any call changes nothing. *)
Theorem deskBringToFront_rotates d orderIdx :
  (deskWinCount d <= length (deskWinOrder d))%nat ->
  let d' := deskBringToFront orderIdx d in
  let k := Z.to_nat orderIdx in
  (orderIdx <= 0 -> d' = d) /\
  (0 < orderIdx < Z.of_nat (deskWinCount d) ->
     zorder d !! k = Some (rd (deskWinOrder d) k) /\
     zorder d' = rd (deskWinOrder d) k :: delete k (zorder d) /\
     zorder d' ≡ₚ zorder d /\
     activeWin d' = rd (deskWinOrder d) k /\
     deskWins d' = deskWins d /\
     deskWinCount d' = deskWinCount d) /\
  deskBringToFront 0 d' = d'.
Proof.
  intros Hlen d' k. split; [|split].
  - intros Hle. unfold d', deskBringToFront.
    destruct (Z.leb_spec orderIdx 0); [done|lia].
  - intros Hk. unfold d', deskBringToFront.
    destruct (Z.leb_spec orderIdx 0); [lia|]. fold k.
    assert (Hkn : (k < deskWinCount d)%nat) by (unfold k; lia).
    assert (Hlk : zorder d !! k = Some (rd (deskWinOrder d) k)).
    { unfold zorder. rewrite lookup_take_lt by done. apply lookup_rd. lia. }
    assert (Hz : take (deskWinCount d)
                   (<[0%nat := rd (deskWinOrder d) k]> (shiftBack k (deskWinOrder d)))
                 = rd (deskWinOrder d) k :: delete k (zorder d)).
    { rewrite insert_front_shiftBack by lia.
      destruct (deskWinCount d) as [|n] eqn:Hn; [lia|]. cbn. f_equal.
      rewrite <- delete_take_drop. unfold zorder. rewrite Hn.
      rewrite <- (take_delete _ k (S n)) by lia. f_equal. lia. }
    unfold zorder at 2 3. cbn. rewrite Hz.
    repeat split; try done.
    symmetry. by apply delete_Permutation.
  - reflexivity.
Qed.

Lemma deskBringToFront_rotates_witness :
  let d := deskOpenWindow 4 "Notes" (deskOpenWindow 1 "Calc" emptyDesk) in
  (deskWinCount d <= length (deskWinOrder d))%nat /\
  zorder d = [1; 0] /\
  zorder (deskBringToFront 1 d) = [0; 1] /\
  activeWin (deskBringToFront 1 d) = 0 /\
  deskBringToFront 0 (deskBringToFront 1 d) = deskBringToFront 1 d.
Proof.
  cbn zeta.
  assert (H : (deskWinCount (deskOpenWindow 4 "Notes"
                               (deskOpenWindow 1 "Calc" emptyDesk))
               <= length (deskWinOrder (deskOpenWindow 4 "Notes"
                               (deskOpenWindow 1 "Calc" emptyDesk))))%nat).
  { vm_compute. lia. }
  destruct (deskBringToFront_rotates _ 1 H) as (_ & Hrot & Hidem).
  destruct (Hrot ltac:(vm_compute; split; reflexivity)) as (_ & Hz & _ & Ha & _).
  split; [exact H|]. split; [reflexivity|].
  split; [rewrite Hz; reflexivity|]. split; [rewrite Ha; reflexivity|].
  exact Hidem.
Defined.

(** C8 as stated fails at the front position: the call does not reaffirm
    the focus.  After the close button of the front window was clicked
    ([clickCloseButton] ends with [activeWin = -1]) one window is left at
    position 0 and nothing is focused; [deskBringToFront 0] leaves it so. *)
Lemma bringToFront_front_does_not_set_focus :
  exists d,
    clickCloseButton 0 (deskOpenWindow 4 "Notes" (deskOpenWindow 1 "Calc" emptyDesk))
    = Some d /\
    zorder d = [0] /\
    activeWin d = -1 /\
    activeWin (deskBringToFront 0 d) = -1 /\
    activeWin (deskBringToFront 0 d) <> rd (deskWinOrder (deskBringToFront 0 d)) 0.
Proof.
  eexists. split; [vm_compute; reflexivity|].
  vm_compute. repeat split; congruence.
Qed.

(** ** Drag and resize *)

(** Case analysis on the comparisons of a clamp, innermost first. *)
Ltac split_cmp :=
  rewrite ?Z.gtb_ltb, ?Z.geb_leb;
  repeat match goal with
         | |- context [?a <? ?b] =>
             lazymatch a with
             | context [if _ then _ else _] => fail
             | _ => destruct (Z.ltb_spec a b)
             end
         | |- context [?a <=? ?b] =>
             lazymatch a with
             | context [if _ then _ else _] => fail
             | _ => destruct (Z.leb_spec a b)
             end
         end.

Lemma to_int16_small z : -32768 <= z < 32768 -> to_int16 z = z.
Proof. intros H. unfold to_int16. rewrite Z.mod_small; lia. Qed.

Lemma to_int16_range z : -32768 <= to_int16 z < 32768.
Proof.
  unfold to_int16. pose proof (Z.mod_pos_bound (z + 32768) 65536). lia.
Qed.

Lemma defaultSize_bounds appType :
  let '(w, h, minW, minH, _) := defaultSize appType in
  0 < w <= 180 /\ 0 < h <= 120 /\ 0 < minW <= w /\ 0 < minH <= h.
Proof.
  unfold defaultSize. destruct appType as [|p|p]; [lia| |lia].
  do 4 (try destruct p as [p|p|]); lia.
Qed.

Lemma openedWindow_geo slot appType title :
  (slot < MAX_DESK_WINDOWS)%nat -> geoInv (openedWindow slot appType title).
Proof.
  intros Hs. unfold geoInv, openedWindow.
  pose proof (defaultSize_bounds appType) as Hb.
  destruct (defaultSize appType) as [[[[w h] mw] mh] fs]. cbn.
  unfold SCREEN_WIDTH, SCREEN_HEIGHT, MAX_DESK_WINDOWS in *.
  rewrite !Z.rem_mod_nonneg by lia.
  pose proof (Z.mod_pos_bound (Z.of_nat slot * 15) 60).
  pose proof (Z.mod_pos_bound (Z.of_nat slot * 12) 40). lia.
Qed.

Lemma dragUpdate_geo mx my offX offY r :
  geoInv r ->
  let r' := dragUpdate mx my offX offY r in
  geoInv r' /\
  DeskWindow.x r' + DeskWindow.w r' <= SCREEN_WIDTH /\
  DeskWindow.y r' + DeskWindow.h r' <= SCREEN_HEIGHT.
Proof.
  unfold geoInv, dragUpdate, SCREEN_WIDTH, SCREEN_HEIGHT. intros Hg. cbn.
  pose proof (to_int16_range (mx - offX)).
  pose proof (to_int16_range (my - offY)).
  rewrite (to_int16_small (240 - DeskWindow.w r)) by lia.
  rewrite (to_int16_small (135 - DeskWindow.h r)) by lia.
  split_cmp; lia.
Qed.

Lemma resizeUpdate_geo mx my offX offY r :
  geoInv r ->
  let r' := resizeUpdate mx my offX offY r in
  (0 < DeskWindow.minW r -> 0 < DeskWindow.minH r -> geoInv r') /\
  DeskWindow.x r' = DeskWindow.x r /\
  DeskWindow.y r' = DeskWindow.y r /\
  DeskWindow.minW r' = DeskWindow.minW r /\
  DeskWindow.minH r' = DeskWindow.minH r /\
  DeskWindow.x r' + DeskWindow.w r' <= SCREEN_WIDTH /\
  DeskWindow.y r' + DeskWindow.h r' <= SCREEN_HEIGHT /\
  (DeskWindow.minW r <= DeskWindow.w r ->
   DeskWindow.x r + DeskWindow.w r <= SCREEN_WIDTH ->
   DeskWindow.minW r <= DeskWindow.w r') /\
  (DeskWindow.minH r <= DeskWindow.h r ->
   DeskWindow.y r + DeskWindow.h r <= SCREEN_HEIGHT ->
   DeskWindow.minH r <= DeskWindow.h r').
Proof.
  unfold geoInv, resizeUpdate, SCREEN_WIDTH, SCREEN_HEIGHT. intros Hg. cbn.
  pose proof (to_int16_range (mx - DeskWindow.x r + offX)).
  pose proof (to_int16_range (my - DeskWindow.y r + offY)).
  rewrite (to_int16_small (240 - DeskWindow.x r)) by lia.
  rewrite (to_int16_small (135 - DeskWindow.y r)) by lia.
  split_cmp; lia.
Qed.

Lemma openedWindow_min slot appType title :
  let r := openedWindow slot appType title in
  0 < DeskWindow.minW r <= DeskWindow.w r /\
  0 < DeskWindow.minH r <= DeskWindow.h r.
Proof.
  unfold openedWindow. pose proof (defaultSize_bounds appType) as Hb.
  destruct (defaultSize appType) as [[[[w h] mw] mh] fs]. cbn. lia.
Qed.

(** Every record the window manager can produce lies with its origin on
    the screen, is at most as large as the screen, and has a positive
    declared minimum. *)
Lemma winReach_geo r :
  winReach r -> geoInv r /\ 0 < DeskWindow.minW r /\ 0 < DeskWindow.minH r.
Proof.
  induction 1 as [slot a t Hs|mx my ox oy r _ IH|mx my ox oy r _ IH|b r _ IH].
  - split; [by apply openedWindow_geo|].
    pose proof (openedWindow_min slot a t). cbn zeta in *. lia.
  - destruct IH as (Hg & Hm). split; [|exact Hm].
    apply (dragUpdate_geo mx my ox oy r Hg).
  - destruct IH as (Hg & Hw & Hh).
    destruct (resizeUpdate_geo mx my ox oy r Hg) as (Hg' & _ & _ & Hmw & Hmh & _).
    split; [by apply Hg'|]. cbn zeta in *. lia.
  - exact IH.
Qed.

(** C4 — Dragging.  After every drag update of a window record (origin =
    cursor minus recorded offset, then clamped) the window lies
    horizontally inside the screen, [0 <= x] and [x + w <= 240], and its
    top edge is not above the screen, [0 <= y].  The bottom edge is only
    kept inside the full screen height, [y + h <= 135], so it may lie in
    the taskbar band [115..135].  The size is not touched. *)
Theorem drag_keeps_window_on_screen mx my offX offY r :
  winReach r ->
  let r' := dragUpdate mx my offX offY r in
  0 <= DeskWindow.x r' /\
  DeskWindow.x r' + DeskWindow.w r' <= SCREEN_WIDTH /\
  0 <= DeskWindow.y r' /\
  DeskWindow.y r' + DeskWindow.h r' <= SCREEN_HEIGHT /\
  DeskWindow.w r' = DeskWindow.w r /\
  DeskWindow.h r' = DeskWindow.h r.
Proof.
  intros Hr. destruct (winReach_geo r Hr) as (Hg & _).
  destruct (dragUpdate_geo mx my offX offY r Hg) as ((Hx & Hy & _) & Hxw & Hyh).
  cbn zeta in *. repeat split; try lia; reflexivity.
Qed.

Lemma drag_keeps_window_on_screen_witness :
  winReach (openedWindow 1 9 "Tetris") /\
  let r' := dragUpdate 239 134 2 3 (openedWindow 1 9 "Tetris") in
  0 <= DeskWindow.x r' /\
  DeskWindow.x r' + DeskWindow.w r' <= SCREEN_WIDTH /\
  0 <= DeskWindow.y r' /\
  DeskWindow.y r' + DeskWindow.h r' <= SCREEN_HEIGHT /\
  DeskWindow.w r' = DeskWindow.w (openedWindow 1 9 "Tetris") /\
  DeskWindow.h r' = DeskWindow.h (openedWindow 1 9 "Tetris").
Proof.
  assert (H : winReach (openedWindow 1 9 "Tetris")).
  { apply reach_open. unfold MAX_DESK_WINDOWS. lia. }
  split; [exact H|].
  exact (drag_keeps_window_on_screen 239 134 2 3 _ H).
Defined.

(** The same on the window array: one frame of the dragging block keeps
    every record of a well-placed array well placed. *)
Lemma handleDragging_on_screen p wins :
  Forall winReach wins -> Forall winReach (handleDragging p wins).
Proof.
  intros Hall. unfold handleDragging.
  destruct (dragging p && (dragWinIdx p >=? 0) && mouseMoved p); [|done].
  destruct (wins !! Z.to_nat (dragWinIdx p)) as [r|] eqn:Hr; [|done].
  apply Forall_insert; [done|]. apply reach_drag.
  by eapply Forall_lookup_1.
Qed.

(** Dragged to the bottom-right corner, a Tetris window ends with its
    bottom edge inside the taskbar band. *)
Example drag_into_taskbar_band :
  let r' := dragUpdate 239 134 2 3 (openedWindow 1 9 "Tetris") in
  rectOf r' = (140, 15, 100, 120) /\
  SCREEN_HEIGHT - DESK_TASKBAR_H < DeskWindow.y r' + DeskWindow.h r'.
Proof. vm_compute. auto. Qed.

(** C5 (as the code has it) — Resizing.  After every resize update the
    window does not reach past the screen, [x + w <= 240] and
    [y + h <= 135], and its origin is where it was.  It is not below its
    declared minimum in a dimension in which it met the minimum and lay
    inside the screen before the update. *)
Theorem resize_respects_screen_and_minimum mx my offX offY r :
  winReach r ->
  let r' := resizeUpdate mx my offX offY r in
  DeskWindow.x r' = DeskWindow.x r /\
  DeskWindow.y r' = DeskWindow.y r /\
  DeskWindow.x r' + DeskWindow.w r' <= SCREEN_WIDTH /\
  DeskWindow.y r' + DeskWindow.h r' <= SCREEN_HEIGHT /\
  (DeskWindow.minW r <= DeskWindow.w r ->
   DeskWindow.x r + DeskWindow.w r <= SCREEN_WIDTH ->
   DeskWindow.minW r' <= DeskWindow.w r') /\
  (DeskWindow.minH r <= DeskWindow.h r ->
   DeskWindow.y r + DeskWindow.h r <= SCREEN_HEIGHT ->
   DeskWindow.minH r' <= DeskWindow.h r').
Proof.
  intros Hr. destruct (winReach_geo r Hr) as (Hg & _).
  destruct (resizeUpdate_geo mx my offX offY r Hg)
    as (_ & Hx & Hy & Hmw & Hmh & Hxw & Hyh & Hw & Hh).
  cbn zeta in *. rewrite Hmw, Hmh. repeat split; done.
Qed.

Lemma resize_respects_screen_and_minimum_witness :
  winReach (openedWindow 0 4 "Notes") /\
  let r' := resizeUpdate 100 60 8 8 (openedWindow 0 4 "Notes") in
  DeskWindow.x r' = DeskWindow.x (openedWindow 0 4 "Notes") /\
  DeskWindow.y r' = DeskWindow.y (openedWindow 0 4 "Notes") /\
  DeskWindow.x r' + DeskWindow.w r' <= SCREEN_WIDTH /\
  DeskWindow.y r' + DeskWindow.h r' <= SCREEN_HEIGHT /\
  (DeskWindow.minW (openedWindow 0 4 "Notes") <= DeskWindow.w (openedWindow 0 4 "Notes") ->
   DeskWindow.x (openedWindow 0 4 "Notes") + DeskWindow.w (openedWindow 0 4 "Notes")
   <= SCREEN_WIDTH ->
   DeskWindow.minW r' <= DeskWindow.w r') /\
  (DeskWindow.minH (openedWindow 0 4 "Notes") <= DeskWindow.h (openedWindow 0 4 "Notes") ->
   DeskWindow.y (openedWindow 0 4 "Notes") + DeskWindow.h (openedWindow 0 4 "Notes")
   <= SCREEN_HEIGHT ->
   DeskWindow.minH r' <= DeskWindow.h r').
Proof.
  assert (H : winReach (openedWindow 0 4 "Notes")).
  { apply reach_open. unfold MAX_DESK_WINDOWS. lia. }
  split; [exact H|].
  exact (resize_respects_screen_and_minimum 100 60 8 8 _ H).
Defined.

(** C5 as stated fails.  A Tetris window opened in slot 1 stands at
    [y = 22] with [h = minH = 120], so it meets its minimum and hangs over
    the bottom of the screen.  Its resize grip is under the cursor at
    [(130, 132)]; after the click, the first cursor movement runs the
    resize block, whose screen clamp leaves [h = 113 < 120]. *)
Lemma resize_below_declared_minimum :
  let d := deskOpenWindow 9 "Tetris" (deskOpenWindow 1 "Calc" emptyDesk) in
  let p0 := mkPointer 130 132 130 132 false false 0 0 (-1) in
  let p := moveMouse (-3) 0 (beginResize 1 p0) in
  exists r r',
    deskWins d !! 1%nat = Some r /\
    DeskWindow.minW r <= DeskWindow.w r /\
    DeskWindow.minH r <= DeskWindow.h r /\
    deskPtrHitsResize p0 r = true /\
    handleResizing p (deskWins d) !! 1%nat = Some r' /\
    DeskWindow.h r' = 113 /\
    DeskWindow.minH r' = 120 /\
    ~ DeskWindow.minH r' <= DeskWindow.h r'.
Proof.
  cbn zeta. do 2 eexists.
  split; [vm_compute; reflexivity|].
  split; [vm_compute; congruence|].
  split; [vm_compute; congruence|].
  split; [vm_compute; reflexivity|].
  split; [vm_compute; reflexivity|].
  vm_compute. repeat split; congruence.
Qed.

(** ** Frame buffer fallback *)

Lemma initDoubleBuffer_inv heapOk s : fbInv s -> fbInv (initDoubleBuffer heapOk s).1.
Proof.
  unfold fbInv, initDoubleBuffer. intros (H1 & H2 & H3).
  destruct (bufferReady s) eqn:Hr; cbn [andb].
  - rewrite (H1 eq_refl). cbn. rewrite Hr. auto.
  - rewrite (H2 eq_refl). destruct heapOk; cbn; repeat split; try done.
    all: intros Hg; specialize (H3 Hg); done.
Qed.

Lemma enterDesktop_inv heapOk s : fbInv s -> fbInv (enterDesktop heapOk s).
Proof.
  intros Hs. apply (initDoubleBuffer_inv heapOk) in Hs.
  unfold enterDesktop. set (s1 := (initDoubleBuffer heapOk s).1) in *.
  clearbody s1. destruct Hs as (H1 & H2 & H3).
  destruct (bufferReady s1) eqn:Hr; unfold fbInv; cbn; repeat split; auto; done.
Qed.

Lemma viewerPicture_bmp d bmp winIdx im :
  viewerPicture d bmp winIdx = Some im -> bmp = Some im.
Proof.
  unfold viewerPicture. destruct (winIdx <? 0); [done|].
  destruct (deskWins d !! Z.to_nat winIdx) as [r|]; [|done].
  destruct (negb (DeskWindow.open r)); [done|].
  destruct (DeskWindow.appType r =? 12); [|done].
  destruct (negb (viewingBMP d)); [done|].
  destruct bmp as [im'|]; [|done].
  destruct ((bmpViewWidth d >? 0) && (bmpViewHeight d >? 0)); [|done].
  congruence.
Qed.

Lemma imageDrawn_bmp i d bmp im :
  imageDrawn i d bmp = Some im -> bmp = Some im.
Proof.
  induction i as [|j IH]; cbn; [done|].
  destruct (viewerPicture d bmp (rd (deskWinOrder d) j)) eqn:Hv; [|done].
  intros [= ->]. by eapply viewerPicture_bmp.
Qed.

(** [imageDrawn] finds a picture exactly when a cell of the z-order is an
    image viewer that shows one. *)
Lemma imageDrawn_spec i d bmp im :
  imageDrawn i d bmp = Some im <->
  exists j, (j < i)%nat /\ viewerPicture d bmp (rd (deskWinOrder d) j) = Some im.
Proof.
  induction i as [|k IH]; cbn.
  - split; [done|]. intros (j & Hj & _). lia.
  - destruct (viewerPicture d bmp (rd (deskWinOrder d) k)) as [im'|] eqn:Hv.
    + split.
      * intros [= ->]. exists k. split; [lia|done].
      * intros (j & _ & Hj). apply viewerPicture_bmp in Hv, Hj. congruence.
    + rewrite IH. split; intros (j & Hj & Hp).
      * exists j. split; [lia|done].
      * exists j. split; [|done].
        destruct (decide (j = k)) as [->|]; [congruence|lia].
Qed.

(** The windows loop over a canvas that has its pixel array: it cannot
    fail, and the array ends up as the picture if one is drawn. *)
Lemma drawWindows_buffer i d bmp s px :
  deskBuffer s = Some (mkCanvas (Some px)) ->
  drawWindows i d bmp s
  = Some (mkFrameBuf (Some (mkCanvas (Some (default px (imageDrawn i d bmp)))))
                     (gfx s) (bufferReady s)).
Proof.
  revert s px. induction i as [|j IH]; intros s px Hs; cbn.
  - destruct s as [db g r]. cbn in *. by subst.
  - unfold deskDrawWindow.
    destruct (viewerPicture d bmp (rd (deskWinOrder d) j)) as [im|] eqn:Hv.
    + unfold copyImage. rewrite Hs. cbn.
      rewrite (IH _ im) by done. cbn.
      destruct (imageDrawn j d bmp) as [im'|] eqn:Hi; [|done].
      apply imageDrawn_bmp in Hi. apply viewerPicture_bmp in Hv.
      by simplify_eq.
    + by apply IH.
Qed.

(** The windows loop without a canvas: it dereferences the null pointer as
    soon as an image viewer shows a picture, and does nothing otherwise. *)
Lemma drawWindows_no_buffer i d bmp s :
  deskBuffer s = None ->
  drawWindows i d bmp s
  = match imageDrawn i d bmp with Some _ => None | None => Some s end.
Proof.
  intros Hs. induction i as [|j IH]; cbn; [done|].
  unfold deskDrawWindow.
  destruct (viewerPicture d bmp (rd (deskWinOrder d) j)) as [im|] eqn:Hv.
  - unfold copyImage. by rewrite Hs.
  - exact IH.
Qed.

Lemma drawWindows_inv i d bmp s s' :
  fbInv s -> drawWindows i d bmp s = Some s' -> fbInv s'.
Proof.
  intros Hs. destruct (deskBuffer s) as [[[px|]]|] eqn:Hd.
  - rewrite (drawWindows_buffer _ _ _ _ px Hd). intros [= <-].
    destruct Hs as (H1 & H2 & H3). unfold fbInv. cbn.
    split; [done|]. split; [|done].
    intros Hr. specialize (H2 Hr). congruence.
  - revert s Hs Hd. induction i as [|j IH]; intros s Hs Hd; cbn.
    + by intros [= <-].
    + unfold deskDrawWindow.
      destruct (viewerPicture d bmp (rd (deskWinOrder d) j)).
      * unfold copyImage. by rewrite Hd.
      * by apply IH.
  - rewrite (drawWindows_no_buffer _ _ _ _ Hd).
    destruct (imageDrawn i d bmp); [done|]. by intros [= <-].
Qed.

Lemma deskFullRedraw_inv heapOk scene d bmp s s' ops :
  fbInv s -> deskFullRedraw heapOk scene d bmp s = Some (s', ops) -> fbInv s'.
Proof.
  intros Hs. unfold deskFullRedraw.
  set (s1 := if negb (bufferReady s) then (initDoubleBuffer heapOk s).1 else s).
  assert (Hs1 : fbInv s1).
  { unfold s1. destruct (bufferReady s); cbn; [done|].
    by apply initDoubleBuffer_inv. }
  clearbody s1.
  set (s2 := match gfx s1 with
             | GfxNull => mkFrameBuf (deskBuffer s1)
                            (if bufferReady s1 then GfxDeskBuffer else GfxTft)
                            (bufferReady s1)
             | _ => s1
             end).
  assert (Hs2 : fbInv s2).
  { unfold s2. destruct (gfx s1) eqn:Hg; [|done|done].
    destruct Hs1 as (H1 & H2 & H3). unfold fbInv. cbn.
    destruct (bufferReady s1); repeat split; auto; done. }
  clearbody s2. unfold drawScene.
  destruct (gfx s2) eqn:Hg; [done| |].
  - destruct (deskBuffer s2) as [c|] eqn:Hd; [|done].
    destruct (drawWindows (deskWinCount d) d bmp s2) as [s3|] eqn:Hw; [|done].
    pose proof (drawWindows_inv _ _ _ _ _ Hs2 Hw) as Hs3.
    destruct (buffer c); intros Heq; simplify_eq; [|done].
    destruct Hs2 as (H1 & H2 & H3). unfold fbInv. cbn.
    split; [done|]. split; [|by auto].
    intros Hr. specialize (H2 Hr). congruence.
  - destruct (drawWindows (deskWinCount d) d bmp s2) as [s3|] eqn:Hw; [|done].
    intros Heq; simplify_eq. by eapply drawWindows_inv.
Qed.

Lemma initDoubleBuffer_ok heapOk s :
  (initDoubleBuffer heapOk s).2 = true ->
  bufferReady (initDoubleBuffer heapOk s).1 = true.
Proof.
  unfold initDoubleBuffer.
  destruct (bufferReady s) eqn:Hr; cbn [andb].
  - destruct (hasBuffer (deskBuffer s)); cbn; [done|].
    by destruct (hasBuffer _).
  - by destruct (hasBuffer _).
Qed.

Lemma screenshotGfx_inv heapOk desktop s :
  fbInv s -> fbInv (screenshotGfx heapOk desktop s).
Proof.
  intros Hs. apply (initDoubleBuffer_inv heapOk) in Hs.
  pose proof (initDoubleBuffer_ok heapOk s) as Hok.
  unfold screenshotGfx. destruct (initDoubleBuffer heapOk s) as [s1 ok].
  cbn [fst snd] in *. destruct ok; cbn [andb]; [|done].
  destruct (hasBuffer (deskBuffer s1) && desktop); [|done].
  destruct Hs as (H1 & H2 & H3). specialize (Hok eq_refl).
  unfold fbInv. cbn. naive_solver.
Qed.

Lemma fbReach_inv s : fbReach s -> fbInv s.
Proof.
  induction 1 as [|heapOk s _ IH|heapOk s _ IH|heapOk desktop s _ IH
                  |heapOk scene d bmp s s' ops _ IH Hd].
  - unfold fbInv. cbn. repeat split; done.
  - by apply initDoubleBuffer_inv.
  - by apply enterDesktop_inv.
  - by apply screenshotGfx_inv.
  - by eapply deskFullRedraw_inv.
Qed.

(** Without a buffer (ready flag false, or no pixel array) [flushBuffer]
    sends nothing to the display, and a full redraw whose own allocation
    attempt fails too has one of two outcomes.  If no window of the z-order
    is an image viewer with a picture, it completes, draws the scene
    through [tft] directly ([gfx] ends up pointing at the display),
    transfers no bitmap and leaves the manager in the clean "no buffer"
    state.  If one is, it dereferences the null [deskBuffer]. *)
Lemma deskFullRedraw_without_buffer s scene d bmp :
  fbReach s ->
  bufferReady s = false \/ hasBuffer (deskBuffer s) = false ->
  flushBuffer s = [] /\
  deskFullRedraw false scene d bmp s
  = match imageDrawn (deskWinCount d) d bmp with
    | Some _ => None
    | None => Some (mkFrameBuf None GfxTft false, [TftDirect scene])
    end /\
  flushBuffer (mkFrameBuf None GfxTft false) = [].
Proof.
  intros Hreach Hno. destruct (fbReach_inv s Hreach) as (H1 & H2 & H3).
  assert (Hr : bufferReady s = false).
  { destruct Hno as [?|Hb]; [done|]. destruct (bufferReady s); [|done].
    rewrite (H1 eq_refl) in Hb. done. }
  specialize (H2 Hr).
  assert (Hg : gfx s <> GfxDeskBuffer).
  { intros Hg. rewrite (H3 Hg) in Hr. done. }
  split; [|split; [|reflexivity]].
  - unfold flushBuffer. by rewrite Hr.
  - unfold deskFullRedraw, initDoubleBuffer. rewrite Hr, H2. cbn.
    unfold drawScene.
    destruct (gfx s); [| done |]; cbn;
      rewrite drawWindows_no_buffer by done;
      by destruct (imageDrawn (deskWinCount d) d bmp).
Qed.

(** C6 — evaluation at the failing input.  The desktop is entered while
    the allocation of the frame buffer fails: [deskBuffer] is null, the
    ready flag is false, [gfx] points at the display and [flushBuffer]
    sends nothing.  A redraw of the empty desktop, whose own allocation
    fails again, draws directly through [tft] and transfers no bitmap.
    Then a picture is opened from the file list ([loadBMPFile] allocates
    [bmpViewBuffer] itself) and the image viewer's window is drawn by the
    next redraw: its copy into [deskBuffer->getBuffer()] has no test in
    front of it and goes through the null pointer.  The redraw does not
    return. *)
Theorem redraw_without_buffer_image_viewer_crash :
  let s := enterDesktop false frameBufInit in
  let d := (openImage bluePicture emptyDesk).1 in
  let bmp := (openImage bluePicture emptyDesk).2 in
  fbReach s /\
  s = mkFrameBuf None GfxTft false /\
  flushBuffer s = [] /\
  deskFullRedraw false [7; 7; 7] emptyDesk None s
  = Some (mkFrameBuf None GfxTft false, [TftDirect [7; 7; 7]]) /\
  zorder d = [0] /\
  viewerPicture d bmp 0 = Some bluePicture /\
  deskFullRedraw false [7; 7; 7] d bmp s = None.
Proof.
  cbn zeta. split; [apply fb_enter, fb_boot|].
  repeat split; vm_compute; reflexivity.
Qed.

(** [flushBuffer] alone, on any state at all. *)
Lemma flushBuffer_without_buffer s :
  bufferReady s = false \/ hasBuffer (deskBuffer s) = false -> flushBuffer s = [].
Proof.
  unfold flushBuffer, hasBuffer. intros [->|Hb]; [done|].
  destruct (bufferReady s); [|done].
  destruct (deskBuffer s) as [c|]; [|done]. by destruct (buffer c).
Qed.

(** With the buffer in place the redraw reaches the display as one bulk
    transfer of the scene, after the bus was handed back to the display. *)
Example buffered_redraw :
  (fun r => (gfx r.1, r.2)) <$>
    deskFullRedraw true [7; 7; 7] emptyDesk None (enterDesktop true frameBufInit)
  = Some (GfxDeskBuffer,
          [SdDeselect; BusSettle 50; TftSetRotation 3; TftSetSPISpeed 20000000;
           TftDrawRGBBitmap [7; 7; 7]]).
Proof. reflexivity. Qed.

(** ** Storage hot-swap supervision *)



Lemma closeAllWindows_closed d :
  deskWinCount (closeAllWindows d) = 0%nat /\
  activeWin (closeAllWindows d) = -1 /\
  zorder (closeAllWindows d) = [] /\
  forall i, slotOpen (deskWins (closeAllWindows d)) i = false.
Proof.
  repeat split. intros i. unfold slotOpen, closeAllWindows. cbn.
  rewrite list_lookup_fmap. by destruct (deskWins d !! i).
Qed.



(** Scenario C on the clock.  Frames every 33 ms from boot with the card
    gone: probes at 2013 ms and 4026 ms, safe mode from the frame at
    4026 ms, all windows closed.  Card back in: the safe-mode frames come
    every 133 ms, the remount is attempted on the first one at least 5 s
    after the previous attempt (5090 ms), it succeeds, safe mode ends and
    the redraw flag is set. *)
Example scenarioC :
  let d := deskOpenWindow 1 "Calc" emptyDesk in
  let r1 := runSd (constFrames FRAME_MS 33 false false 122) storageBooted d in
  let r2 := runSd (constFrames 133 4159 true true 8) r1.1.1 r1.1.2 in
  (fun x : Z * SdOut => x.1)
    <$> filter (fun x : Z * SdOut => probed x.2 = true) r1.2 = [2013; 4026] /\
  (fun x : Z * SdOut => x.1)
    <$> filter (fun x : Z * SdOut => safeMode x.2 = true) r1.2 = [4026] /\
  zorder r1.1.2 = [] /\ activeWin r1.1.2 = -1 /\
  (fun x : Z * SdOut => x.1)
    <$> filter (fun x : Z * SdOut => remountTried x.2 = true) r2.2 = [5090] /\
  (fun x : Z * SdOut => x.1)
    <$> filter (fun x : Z * SdOut => safeMode x.2 = false) r2.2 = [5090] /\
  sdCardMounted r2.1.1 = true /\ sdCardRemoved r2.1.1 = false /\
  deskNeedRedraw r2.1.1 = true /\ reloads r2.1.1 = 1%nat.
Proof. vm_compute. repeat split. Qed.

(** ** Hold-to-repeat *)

Lemma sub32_small a b : 0 <= b <= a -> a < 2 ^ 32 -> sub32 a b = a - b.
Proof. intros H1 H2. unfold sub32. apply Z.mod_small. lia. Qed.

(** The frame that sees the press starts the hold and fires nothing. *)
Lemma gameStep_press t s :
  lastUpState (gameLast s) = HIGH -> 0 <= t < 2 ^ 32 ->
  gameStep t joyUpHeld s = (gameMid t (gameLastRepeat s) true, None).
Proof.
  intros Hl Ht. unfold gameStep, gameMid. cbn. rewrite Hl. cbn.
  rewrite sub32_small by lia. replace (t - t) with 0 by lia. cbn.
  reflexivity.
Qed.

(** Before the confirmed event: it fires on the first frame at least
    50 ms after the press. *)
Lemma gameStep_debounce t hs lr :
  0 <= hs <= t -> t < 2 ^ 32 ->
  gameStep t joyUpHeld (gameMid hs lr true)
  = if t - hs >=? 50 then (gameMid hs t false, Some (Confirmed, 1))
    else (gameMid hs lr true, None).
Proof.
  intros Hh Ht. unfold gameStep, gameMid. cbn.
  rewrite sub32_small by lia. by destruct (t - hs >=? 50).
Qed.

(** After it: a repeat fires on every frame that comes more than 400 ms
    after the press and more than 150 ms after the previous event. *)
Lemma gameStep_repeat t hs lr :
  0 < hs <= t -> 0 <= lr <= t -> t < 2 ^ 32 ->
  gameStep t joyUpHeld (gameMid hs lr false)
  = if (t - hs >? 400) && (t - lr >? 150)
    then (gameMid hs t false, Some (Repeat, 1))
    else (gameMid hs lr false, None).
Proof.
  intros Hh Hl Ht. unfold gameStep, gameMid. cbn.
  rewrite !sub32_small by lia.
  assert (Hpos : (hs >? 0) = true) by (rewrite Z.gtb_ltb; apply Z.ltb_lt; lia).
  rewrite Hpos. cbn.
  by destruct ((t - hs >? 400) && (t - lr >? 150)).
Qed.

(** Releasing every direction fires nothing. *)
Lemma gameStep_release t s : (gameStep t joyIdle s).2 = None.
Proof.
  unfold gameStep. cbn.
  destruct (isHigh (lastUpState (gameLast s))); reflexivity.
Qed.

(** Comparisons decided by linear arithmetic (with [mod] by a constant). *)
Ltac decide_cmp :=
  repeat match goal with
         | |- context [?a >=? ?b] => rewrite (Z.geb_leb a b)
         | |- context [?a >? ?b] => rewrite (Z.gtb_ltb a b)
         end;
  repeat match goal with
         | |- context [?a <=? ?b] =>
             first [ rewrite (proj2 (Z.leb_le a b)) by (Z.div_mod_to_equations; lia)
                   | rewrite (proj2 (Z.leb_gt a b)) by (Z.div_mod_to_equations; lia) ]
         | |- context [?a <? ?b] =>
             first [ rewrite (proj2 (Z.ltb_lt a b)) by (Z.div_mod_to_equations; lia)
                   | rewrite (proj2 (Z.ltb_ge a b)) by (Z.div_mod_to_equations; lia) ]
         | |- context [?a =? ?b] =>
             first [ rewrite (proj2 (Z.eqb_eq a b)) by (Z.div_mod_to_equations; lia)
                   | rewrite (proj2 (Z.eqb_neq a b)) by (Z.div_mod_to_equations; lia) ]
         end.

Ltac close_frame :=
  cbn; unfold gameMid, navMid;
  repeat match goal with
         | |- (_, _) = (_, _) => f_equal
         | |- mkGameInput _ _ _ _ _ = mkGameInput _ _ _ _ _ => f_equal
         | |- mkNavInput _ _ _ _ _ _ _ _ _ = mkNavInput _ _ _ _ _ _ _ _ _ => f_equal
         end;
  solve [ reflexivity | lia | Z.div_mod_to_equations; lia ].

Lemma gameStep_at s0 t0 k :
  lastUpState (gameLast s0) = HIGH -> 0 < t0 -> 0 <= k ->
  t0 + FRAME_MS * k < 2 ^ 32 ->
  gameStep (t0 + FRAME_MS * k) joyUpHeld (gameStateAt s0 t0 k)
  = (gameStateAt s0 t0 (k + 1), (fun e => (e, 1)) <$> eventAt 13 k).
Proof.
  unfold FRAME_MS. intros Hl Ht0 Hk Hw.
  unfold gameStateAt, eventAt, lastEventFrame, FRAME_MS.
  destruct (Z.eq_dec k 0) as [->|Hk0].
  { decide_cmp. cbn [andb].
    rewrite gameStep_press by (try done; lia). close_frame. }
  destruct (Z.le_gt_cases k 2) as [Hk2|Hk2].
  { decide_cmp. rewrite gameStep_debounce by lia.
    destruct (Z.eq_dec k 2) as [->|Hne]; decide_cmp; close_frame. }
  decide_cmp.
  destruct (Z.le_gt_cases k 13) as [Hk13|Hk13].
  - decide_cmp. rewrite gameStep_repeat by lia.
    destruct (Z.eq_dec k 13) as [->|Hne]; decide_cmp; close_frame.
  - decide_cmp.
    rewrite gameStep_repeat by (Z.div_mod_to_equations; lia).
    destruct (Z.eq_dec ((k - 13) mod 5) 0) as [He|Hne]; decide_cmp; close_frame.
Qed.

(** The menu path.  The frame that sees the press restarts the debounce. *)
Lemma navStep_press rdl t s :
  lastUpState (navLast s) = HIGH -> 0 <= t < 2 ^ 32 ->
  navStep rdl t joyUpHeld s
  = (navMid (lastRepeat s) (holdStart s) t (downDebounceStart s) false (navLast s),
     (None, None)).
Proof.
  intros Hl Ht. unfold navStep, navMid. cbn. rewrite Hl. cbn.
  rewrite sub32_small by lia. replace (t - t) with 0 by lia. cbn.
  reflexivity.
Qed.

(** The confirmed event fires on the first frame at least 50 ms after the
    press, and the hold delay is counted from that frame. *)
Lemma navStep_debounce rdl t lr hs uds dds jl :
  0 <= uds <= t -> t < 2 ^ 32 ->
  navStep rdl t joyUpHeld (navMid lr hs uds dds false jl)
  = if t - uds >=? 50
    then (navMid t t uds dds true jl, (Some Confirmed, None))
    else (navMid lr hs uds dds false jl, (None, None)).
Proof.
  intros Hu Ht. unfold navStep, navMid. cbn.
  rewrite sub32_small by lia. by destruct (t - uds >=? 50).
Qed.

(** A repeat fires on every frame that comes more than 400 ms after the
    confirmed event and more than the repeat delay after the last event. *)
Lemma navStep_repeat rdl t lr hs uds dds jl :
  0 < hs <= t -> 0 <= lr <= t -> t < 2 ^ 32 ->
  navStep rdl t joyUpHeld (navMid lr hs uds dds true jl)
  = if (t - hs >? 400) && (t - lr >? rdl)
    then (navMid t hs uds dds true jl, (Some Repeat, None))
    else (navMid lr hs uds dds true jl, (None, None)).
Proof.
  intros Hh Hl Ht. unfold navStep, navMid. cbn.
  rewrite !sub32_small by lia.
  assert (Hpos : (hs >? 0) = true) by (rewrite Z.gtb_ltb; apply Z.ltb_lt; lia).
  rewrite Hpos. cbn.
  by destruct ((t - hs >? 400) && (t - lr >? rdl)).
Qed.

Lemma navStep_at s0 t0 k :
  lastUpState (navLast s0) = HIGH -> 0 <= t0 -> 0 <= k ->
  t0 + FRAME_MS * k < 2 ^ 32 ->
  navStep 150 (t0 + FRAME_MS * k) joyUpHeld (navStateAt s0 t0 k)
  = (navStateAt s0 t0 (k + 1), (eventAt 15 k, None)).
Proof.
  unfold FRAME_MS. intros Hl Ht0 Hk Hw.
  unfold navStateAt, eventAt, lastEventFrame, FRAME_MS.
  destruct (Z.eq_dec k 0) as [->|Hk0].
  { decide_cmp. cbn [andb].
    rewrite navStep_press by (try done; lia). close_frame. }
  destruct (Z.le_gt_cases k 2) as [Hk2|Hk2].
  { decide_cmp. rewrite navStep_debounce by lia.
    destruct (Z.eq_dec k 2) as [->|Hne]; decide_cmp; close_frame. }
  decide_cmp.
  destruct (Z.le_gt_cases k 15) as [Hk15|Hk15].
  - decide_cmp. rewrite navStep_repeat by lia.
    destruct (Z.eq_dec k 15) as [->|Hne]; decide_cmp; close_frame.
  - decide_cmp.
    rewrite navStep_repeat by (Z.div_mod_to_equations; lia).
    destruct (Z.eq_dec ((k - 15) mod 5) 0) as [He|Hne]; decide_cmp; close_frame.
Qed.

Lemma runGame_held s0 t0 m : forall k,
  lastUpState (gameLast s0) = HIGH -> 0 < t0 -> 0 <= k ->
  t0 + FRAME_MS * (k + Z.of_nat m) < 2 ^ 32 ->
  runGame (heldFrames FRAME_MS (t0 + FRAME_MS * k) m) (gameStateAt s0 t0 k)
  = (gameStateAt s0 t0 (k + Z.of_nat m),
     (fun e => (e, 1)) <$> expectedEvents 13 k m).
Proof.
  induction m as [|m IH]; intros k Hl Ht0 Hk Hw.
  - cbn. by rewrite Z.add_0_r.
  - cbn [heldFrames runGame expectedEvents].
    rewrite gameStep_at by (unfold FRAME_MS in *; try done; lia).
    replace (t0 + FRAME_MS * k + FRAME_MS) with (t0 + FRAME_MS * (k + 1))
      by (unfold FRAME_MS; lia).
    rewrite IH by (unfold FRAME_MS in *; try done; lia).
    replace (k + 1 + Z.of_nat m) with (k + Z.of_nat (S m)) by lia.
    by destruct (eventAt 13 k).
Qed.

Lemma runNav_held s0 t0 m : forall k,
  lastUpState (navLast s0) = HIGH -> 0 <= t0 -> 0 <= k ->
  t0 + FRAME_MS * (k + Z.of_nat m) < 2 ^ 32 ->
  runNav 150 (heldFrames FRAME_MS (t0 + FRAME_MS * k) m) (navStateAt s0 t0 k)
  = (navStateAt s0 t0 (k + Z.of_nat m), expectedEvents 15 k m).
Proof.
  induction m as [|m IH]; intros k Hl Ht0 Hk Hw.
  - cbn. by rewrite Z.add_0_r.
  - cbn [heldFrames runNav expectedEvents].
    rewrite navStep_at by (unfold FRAME_MS in *; try done; lia).
    replace (t0 + FRAME_MS * k + FRAME_MS) with (t0 + FRAME_MS * (k + 1))
      by (unfold FRAME_MS; lia).
    rewrite IH by (unfold FRAME_MS in *; try done; lia).
    replace (k + 1 + Z.of_nat m) with (k + Z.of_nat (S m)) by lia.
    cbn. by destruct (eventAt 15 k).
Qed.

Lemma expectedEvents_snoc a m : forall k,
  expectedEvents a k (S m)
  = expectedEvents a k m
    ++ match eventAt a (k + Z.of_nat m) with Some e => [e] | None => [] end.
Proof.
  induction m as [|m IH]; intros k.
  - cbn. rewrite Z.add_0_r. by destruct (eventAt a k).
  - change (expectedEvents a k (S (S m))) with
      (match eventAt a k with
       | Some e => e :: expectedEvents a (k + 1) (S m)
       | None => expectedEvents a (k + 1) (S m)
       end).
    rewrite IH. cbn [expectedEvents].
    replace (k + 1 + Z.of_nat m) with (k + Z.of_nat (S m)) by lia.
    by destruct (eventAt a k).
Qed.

(** One confirmed event, then only repeats, [repeatsIn a n] of them. *)
Lemma expectedEvents_closed a n :
  3 <= a ->
  expectedEvents a 0 n
  = (if (3 <=? n)%nat then [Confirmed] else [])
    ++ replicate (repeatsIn a n) Repeat.
Proof.
  intros Ha. induction n as [|n IH].
  - unfold repeatsIn. decide_cmp. reflexivity.
  - rewrite expectedEvents_snoc, IH, Z.add_0_l. clear IH.
    unfold eventAt, repeatsIn.
    destruct (Z.eq_dec (Z.of_nat n) 2) as [Hn2|Hn2].
    { assert (n = 2%nat) as -> by lia. decide_cmp. cbn. reflexivity. }
    decide_cmp.
    destruct (Nat.leb_spec 3 n) as [H3|H3];
      destruct (Nat.leb_spec 3 (S n)) as [H3'|H3']; try lia.
    + destruct (Z.le_gt_cases a (Z.of_nat n)) as [Hle|Hgt].
      * destruct (Z.eq_dec ((Z.of_nat n - a) mod 5) 0) as [He|Hne].
        -- decide_cmp. cbn [andb].
           destruct (Z.eq_dec (Z.of_nat n) a) as [Hna|Hna].
           ++ decide_cmp. rewrite <- (assoc_L (++)). f_equal.
              replace (Z.to_nat ((Z.of_nat (S n) - a + 4) / 5)) with 1%nat
                by (Z.div_mod_to_equations; lia).
              reflexivity.
           ++ decide_cmp. rewrite <- (assoc_L (++)). f_equal.
              replace (Z.to_nat ((Z.of_nat (S n) - a + 4) / 5))
                with (S (Z.to_nat ((Z.of_nat n - a + 4) / 5)))
                by (Z.div_mod_to_equations; lia).
              by rewrite replicate_S_end.
        -- decide_cmp. cbn [andb]. rewrite app_nil_r. f_equal.
           destruct (Z.eq_dec (Z.of_nat n) a) as [Hna|Hna].
           { exfalso. apply Hne. rewrite Hna, Z.sub_diag. reflexivity. }
           decide_cmp. f_equal. Z.div_mod_to_equations; lia.
      * decide_cmp. cbn [andb]. rewrite app_nil_r. reflexivity.
    + decide_cmp. cbn [andb]. rewrite app_nil_r. reflexivity.
Qed.

(** C3 (as the code has it) — Hold-to-repeat at the frame period.  With a
    frame every 33 ms, a hold that is sampled by [n] frames, the first of
    which sees the press, produces exactly one confirmed event (on frame 2,
    the first frame at least 50 ms after the press) followed by repeat
    events only.  On the game path the repeats fall on frame 13 (the first
    frame more than 400 ms after the press) and every fifth frame after it,
    [(n - 9) / 5] of them once [n > 13]; on the menu path the hold delay
    runs from the confirmed event, so they fall on frame 15 and every fifth
    frame after it, [(n - 11) / 5] of them once [n > 15]. *)
Theorem hold_to_repeat_at_frame_period g s t0 n :
  lastUpState (gameLast g) = HIGH ->
  lastUpState (navLast s) = HIGH ->
  0 < t0 -> t0 + FRAME_MS * Z.of_nat n < 2 ^ 32 ->
  (runGame (heldFrames FRAME_MS t0 n) g).2
  = (fun e => (e, 1)) <$>
      ((if (3 <=? n)%nat then [Confirmed] else [])
       ++ replicate (repeatsIn 13 n) Repeat) /\
  (runNav 150 (heldFrames FRAME_MS t0 n) s).2
  = (if (3 <=? n)%nat then [Confirmed] else [])
    ++ replicate (repeatsIn 15 n) Repeat /\
  repeatsIn 13 n
  = (if (n <=? 13)%nat then 0 else (n - 9) / 5)%nat /\
  repeatsIn 15 n
  = (if (n <=? 15)%nat then 0 else (n - 11) / 5)%nat.
Proof.
  intros Hg Hs Ht0 Hw. split; [|split; [|split]].
  - pose proof (runGame_held g t0 n 0 Hg Ht0 ltac:(lia) ltac:(lia)) as H.
    unfold gameStateAt at 1 in H. cbn [Z.eqb] in H.
    replace (t0 + FRAME_MS * 0) with t0 in H by (unfold FRAME_MS; lia).
    rewrite H. cbn [snd]. by rewrite expectedEvents_closed by lia.
  - pose proof (runNav_held s t0 n 0 Hs ltac:(lia) ltac:(lia) ltac:(lia)) as H.
    unfold navStateAt at 1 in H. cbn [Z.eqb] in H.
    replace (t0 + FRAME_MS * 0) with t0 in H by (unfold FRAME_MS; lia).
    rewrite H. cbn [snd]. by rewrite expectedEvents_closed by lia.
  - unfold repeatsIn. destruct (Nat.leb_spec n 13).
    + by decide_cmp.
    + decide_cmp. apply Nat2Z.inj. rewrite Nat2Z.inj_div, Nat2Z.inj_sub by lia.
      rewrite Z2Nat.id by (Z.div_mod_to_equations; lia).
      f_equal. lia.
  - unfold repeatsIn. destruct (Nat.leb_spec n 15).
    + by decide_cmp.
    + decide_cmp. apply Nat2Z.inj. rewrite Nat2Z.inj_div, Nat2Z.inj_sub by lia.
      rewrite Z2Nat.id by (Z.div_mod_to_equations; lia).
      f_equal. lia.
Qed.

(** Scenario B on both paths: a 600 ms hold is sampled by 19 frames. *)
Lemma hold_to_repeat_at_frame_period_witness :
  lastUpState (gameLast gameInputInit) = HIGH /\
  lastUpState (navLast navInputInit) = HIGH /\
  0 < 1000 /\ 1000 + FRAME_MS * Z.of_nat (framesOfHold 600) < 2 ^ 32 /\
  framesOfHold 600 = 19%nat /\
  (runGame (heldFrames FRAME_MS 1000 (framesOfHold 600)) gameInputInit).2
  = [(Confirmed, 1); (Repeat, 1); (Repeat, 1)] /\
  (runNav 150 (heldFrames FRAME_MS 1000 (framesOfHold 600)) navInputInit).2
  = [Confirmed; Repeat].
Proof.
  assert (H1 : lastUpState (gameLast gameInputInit) = HIGH) by reflexivity.
  assert (H2 : lastUpState (navLast navInputInit) = HIGH) by reflexivity.
  assert (H3 : 0 < 1000) by lia.
  assert (H4 : 1000 + FRAME_MS * Z.of_nat (framesOfHold 600) < 2 ^ 32)
    by (vm_compute; reflexivity).
  destruct (hold_to_repeat_at_frame_period gameInputInit navInputInit 1000
              (framesOfHold 600) H1 H2 H3 H4) as (Hg & Hn & _).
  split; [exact H1|]. split; [exact H2|]. split; [exact H3|].
  split; [exact H4|]. split; [reflexivity|].
  split; [rewrite Hg; reflexivity|rewrite Hn; reflexivity].
Defined.

(** C3 as stated fails.  The claim gives [(D - 400) / 150] repeats and,
    for a 600 ms hold, two events in all.  On the game path a 600 ms hold
    (19 frames, released on the 20th) gives two repeats, hence three
    events, and a 650 ms hold gives two repeats where the formula gives
    one; on the menu path a 540 ms hold gives one repeat where the formula
    gives none. *)
Lemma hold_repeat_count_differs_from_formula :
  let game D := (runGame (heldFrames FRAME_MS 1000 (framesOfHold D)
                          ++ [(1000 + FRAME_MS * Z.of_nat (framesOfHold D), joyIdle)])
                         gameInputInit).2.*1 in
  let menu D := (runNav 150 (heldFrames FRAME_MS 1000 (framesOfHold D)
                             ++ [(1000 + FRAME_MS * Z.of_nat (framesOfHold D), joyIdle)])
                        navInputInit).2 in
  game 600 = [Confirmed; Repeat; Repeat] /\
  length (game 600) <> 2%nat /\
  Z.of_nat (countKind isRepeat (game 600)) <> (600 - 400) / 150 /\
  game 650 = [Confirmed; Repeat; Repeat] /\
  Z.of_nat (countKind isRepeat (game 650)) <> (650 - 400) / 150 /\
  menu 540 = [Confirmed; Repeat] /\
  Z.of_nat (countKind isRepeat (menu 540)) <> (540 - 400) / 150.
Proof. vm_compute. repeat split; congruence. Qed.

(** ** The screenshot chord *)

Lemma chordInit_inv : chordInv chordInit.
Proof. unfold chordInv. cbn. done. Qed.

Lemma chordStep_inv t joySet joyRst s :
  chordInv s -> chordInv (chordStep t joySet joyRst s).1.
Proof.
  unfold chordInv, chordStep. intros Hs.
  destruct joySet, joyRst; cbn.
  - destruct (Z.eqb_spec (screenshotHoldStart s) 0) as [He|Hne]; cbn.
    + destruct (sub32 t t >=? 1000); cbn; done.
    + destruct (negb (screenshotTaken s) && _); cbn; auto.
  - destruct (screenshotComboUsed s) eqn:E; cbn; intros; first [done|congruence].
  - destruct (screenshotComboUsed s) eqn:E; cbn; intros; first [done|congruence].
  - destruct (screenshotComboUsed s) eqn:E; cbn; intros; first [done|congruence].
Qed.

(** The screenshot is only taken on a frame with both buttons down, at
    least 1 s after the frame that started the chord session, and the
    "used" flag is set from then on. *)
Lemma chordStep_fired t joySet joyRst s :
  chordInv s ->
  fired (chordStep t joySet joyRst s).2 = true ->
  joySet = true /\ joyRst = true /\
  1000 <= sub32 t (screenshotHoldStart (chordStep t joySet joyRst s).1) /\
  screenshotComboUsed (chordStep t joySet joyRst s).1 = true.
Proof.
  unfold chordInv, chordStep. intros Hs.
  destruct joySet, joyRst; cbn;
    try (destruct (screenshotComboUsed s); cbn; done).
  destruct (Z.eqb_spec (screenshotHoldStart s) 0) as [He|Hne]; cbn.
  - destruct (sub32 t t >=? 1000) eqn:Hc; cbn; [|done].
    intros _. rewrite Z.geb_leb in Hc. apply Z.leb_le in Hc. done.
  - destruct (screenshotTaken s); cbn; [done|].
    destruct (sub32 t (screenshotHoldStart s) >=? 1000) eqn:Hc; cbn; [|done].
    intros _. rewrite Z.geb_leb in Hc. apply Z.leb_le in Hc. auto.
Qed.

(** While the "used" flag is set, every frame returns before the
    single-button handlers, and the flag stays set unless both buttons are
    up in that frame. *)
Lemma chordStep_suppresses t joySet joyRst s :
  screenshotComboUsed s = true ->
  gated (chordStep t joySet joyRst s).2 = true /\
  (screenshotComboUsed (chordStep t joySet joyRst s).1 = false ->
   joySet = false /\ joyRst = false).
Proof.
  unfold chordStep. intros Hu. rewrite Hu.
  destruct joySet, joyRst; cbn; rewrite ?Hu; try done.
  destruct (screenshotHoldStart s =? 0); cbn.
  - destruct (sub32 t t >=? 1000); cbn; done.
  - destruct (negb (screenshotTaken s) && _); cbn; rewrite ?Hu; done.
Qed.

(** Over any run of frames none of which has both buttons up, nothing
    reaches the single-button handlers once the flag is set. *)
Lemma runChord_suppresses frames : forall s,
  screenshotComboUsed s = true ->
  Forall (fun f => bothReleased f = false) frames ->
  Forall (fun o => gated o = true) (runChord frames s).2 /\
  screenshotComboUsed (runChord frames s).1 = true.
Proof.
  induction frames as [|[[t a] b] frames IH]; intros s Hu Hall.
  - cbn. split; [constructor|done].
  - apply Forall_cons in Hall as [Hf Hall]. cbn [runChord].
    destruct (chordStep t a b s) as [s1 o] eqn:Hstep.
    pose proof (chordStep_suppresses t a b s Hu) as [Hg Hrel].
    rewrite Hstep in Hg, Hrel. cbn [fst snd] in Hg, Hrel.
    assert (Hu1 : screenshotComboUsed s1 = true).
    { destruct (screenshotComboUsed s1) eqn:E; [done|].
      destruct (Hrel eq_refl) as [-> ->]. cbn in Hf. done. }
    destruct (IH s1 Hu1 Hall) as [IH1 IH2].
    destruct (runChord frames s1) as [s2 os]. cbn [fst snd] in *.
    split; [by constructor|done].
Qed.

(** The frame on which both buttons are first seen up is still gated and
    clears the flag; single-button handling resumes on the frame after. *)
Lemma chordStep_full_release t s :
  screenshotComboUsed s = true ->
  chordStep t false false s = (chordInit, mkChordOut false true).
Proof. unfold chordStep. intros ->. reflexivity. Qed.

(** A chord held without interruption from idle fires once, not before
    1 s has passed since the first frame that saw both buttons down. *)
Example chord_continuous_hold :
  fired <$> (runChord (constFrames FRAME_MS 1000 true true 33) chordInit).2
  = replicate 31 false ++ [true; false].
Proof. vm_compute. reflexivity. Qed.

(** C9 — evaluation at the failing input.  SET stays down.  RST is down on
    the frame at 1000 ms, up again from the next frame on, and down once
    more on the frame at 2518 ms.  The chord was never held for a second
    — both buttons were down together on two isolated frames — yet
    [takeScreenshot()] is called on the frame at 2518 ms: the branch that
    handles a partial release keeps [screenshotHoldStart], so the timer of
    the first press is still running.  Every frame is gated. *)
Theorem chord_fires_after_interrupted_hold :
  let frames := constFrames FRAME_MS 1000 true true 1
                ++ constFrames FRAME_MS 1033 true false 45
                ++ constFrames FRAME_MS 2518 true true 1 in
  fired <$> (runChord frames chordInit).2 = replicate 46 false ++ [true] /\
  Forall (fun o => gated o = true) (runChord frames chordInit).2.
Proof.
  cbn zeta. split; [vm_compute; reflexivity|].
  vm_compute. repeat constructor.
Qed.

(** ** Canvas drawing *)

Lemma poke_Some i v px :
  0 <= i < Z.of_nat (length px) ->
  poke i v px = Some (<[Z.to_nat i := v]> px).
Proof.
  intros Hi. unfold poke.
  destruct (Z.leb_spec 0 i); [|lia]. destruct (Z.ltb_spec i (Z.of_nat (length px))); [|lia].
  reflexivity.
Qed.

Lemma poke_inv i v px px' :
  poke i v px = Some px' ->
  0 <= i < Z.of_nat (length px) /\ px' = <[Z.to_nat i := v]> px.
Proof.
  unfold poke.
  destruct (Z.leb_spec 0 i); destruct (Z.ltb_spec i (Z.of_nat (length px)));
    cbn; intros Heq; try discriminate Heq.
  injection Heq as <-. split; [lia|reflexivity].
Qed.

Lemma bind_Some_r {A} (m : option A) : m ≫= Some = m.
Proof. by destruct m. Qed.

Lemma lookup_fill (px : list Z) a n c j :
  (a + n <= length px)%nat ->
  (take a px ++ replicate n c ++ drop (a + n) px) !! j
  = if decide (a <= j < a + n)%nat then Some c else px !! j.
Proof.
  intros Hlen. destruct (decide (a <= j < a + n)%nat) as [Hin|Hout].
  - rewrite lookup_app_r by (rewrite length_take; lia).
    rewrite length_take_le by lia.
    rewrite lookup_app_l by (rewrite length_replicate; lia).
    apply lookup_replicate_2. lia.
  - destruct (decide (j < a)%nat).
    + rewrite lookup_app_l by (rewrite length_take; lia).
      by apply lookup_take_lt.
    + rewrite lookup_app_r by (rewrite length_take; lia).
      rewrite length_take_le by lia.
      rewrite lookup_app_r by (rewrite length_replicate; lia).
      rewrite length_replicate, lookup_drop. f_equal. lia.
Qed.

(** A run of [n] stores from index [i] that fits the array overwrites
    exactly the cells [i .. i+n-1]. *)
Lemma fillRun_spec n : forall i c px,
  0 <= i -> i + Z.of_nat n <= Z.of_nat (length px) ->
  fillRun n i c px
  = Some (take (Z.to_nat i) px ++ replicate n c ++ drop (Z.to_nat i + n) px).
Proof.
  induction n as [|n IH]; intros i c px Hi Hlen.
  - cbn. rewrite Nat.add_0_r, take_drop. reflexivity.
  - cbn [fillRun]. rewrite poke_Some by lia. cbn.
    rewrite IH by (rewrite ?length_insert; lia).
    f_equal.
    replace (Z.to_nat (i + 1)) with (S (Z.to_nat i)) by lia.
    rewrite (take_S_r _ (Z.to_nat i) c) by (apply list_lookup_insert_eq; lia).
    rewrite take_insert_ge by lia.
    rewrite drop_insert_lt by lia.
    rewrite <- (assoc_L (++)). cbn. do 4 f_equal. lia.
Qed.

Lemma fillRun_length n : forall i c px px',
  fillRun n i c px = Some px' -> length px' = length px.
Proof.
  induction n as [|n IH]; intros i c px px'; cbn.
  - by intros [= <-].
  - destruct (poke i c px) as [px1|] eqn:Hp; cbn; [|done].
    intros Hr. apply IH in Hr. apply poke_inv in Hp as [_ ->].
    by rewrite Hr, length_insert.
Qed.

(** A run that does not fit is a write outside the array. *)
Lemma fillRun_None n : forall i c px,
  (0 < n)%nat -> (i < 0 \/ Z.of_nat (length px) < i + Z.of_nat n) ->
  fillRun n i c px = None.
Proof.
  induction n as [|n IH]; intros i c px Hn Hout; [lia|].
  cbn [fillRun]. destruct (poke i c px) as [px1|] eqn:Hp; [|done]. cbn.
  apply poke_inv in Hp as [Hi ->].
  destruct n as [|n]; [lia|].
  apply IH; [lia|]. rewrite length_insert. lia.
Qed.

Lemma pixel_index cw cx cy r x w :
  0 < cw -> 0 <= cx < cw -> 0 <= x -> x + w <= cw -> 0 <= cy -> 0 <= r ->
  (r * cw + x <= cy * cw + cx < r * cw + x + w <-> cy = r /\ x <= cx < x + w).
Proof.
  intros Hcw Hcx Hx Hw Hcy Hr. split.
  - intros [H1 H2]. assert (cy = r) by nia. subst. lia.
  - intros [-> H]. lia.
Qed.

(** Rows [row .. row+n-1], columns [x .. x+w-1]: every store lands in the
    array and exactly the pixels of that block change. *)
Lemma fillRows_spec cw ch x (w : nat) c n : forall row px,
  0 < cw -> 0 <= row -> row + Z.of_nat n <= ch ->
  0 <= x -> x + Z.of_nat w <= cw ->
  length px = Z.to_nat (cw * ch) ->
  exists px',
    fillRows n row cw x w c px = Some px' /\
    length px' = length px /\
    forall cx cy, 0 <= cx < cw -> 0 <= cy < ch ->
      pixelAt cw cx cy px'
      = if decide (row <= cy < row + Z.of_nat n /\ x <= cx < x + Z.of_nat w)
        then Some c else pixelAt cw cx cy px.
Proof.
  induction n as [|n IH]; intros row px Hcw Hrow Hn Hx Hw Hlen.
  - exists px. split; [done|]. split; [done|]. intros cx cy Hcx Hcy.
    destruct (decide _) as [[? _]|]; [lia|done].
  - cbn [fillRows].
    assert (Hfit : row * cw + x + Z.of_nat w <= Z.of_nat (length px)).
    { rewrite Hlen. rewrite Z2Nat.id by nia. nia. }
    rewrite fillRun_spec by nia. cbn.
    set (px1 := take _ px ++ replicate w c ++ drop _ px).
    assert (Hlen1 : length px1 = length px).
    { unfold px1. rewrite !length_app, length_take, length_replicate, length_drop.
      lia. }
    destruct (IH (row + 1) px1 Hcw ltac:(lia) ltac:(lia) Hx Hw
                ltac:(by rewrite Hlen1)) as (px' & Hrun & Hlen' & Hpix).
    exists px'. split; [done|]. split; [by rewrite Hlen', Hlen1|].
    intros cx cy Hcx Hcy. rewrite (Hpix cx cy Hcx Hcy).
    assert (Hp1 : pixelAt cw cx cy px1
                  = if decide (cy = row /\ x <= cx < x + Z.of_nat w)
                    then Some c else pixelAt cw cx cy px).
    { unfold pixelAt, px1. rewrite lookup_fill by lia.
      pose proof (pixel_index cw cx cy row x (Z.of_nat w)
                    Hcw Hcx Hx Hw ltac:(lia) Hrow) as Hidx.
      destruct (decide (cy = row /\ x <= cx < x + Z.of_nat w)) as [Hin|Hout].
      - apply Hidx in Hin. destruct (decide _) as [|Hno]; [done|].
        exfalso. apply Hno. nia.
      - destruct (decide _) as [Hyes|]; [|done].
        exfalso. apply Hout, Hidx. nia. }
    rewrite Hp1.
    repeat destruct (decide _); try done; lia.
Qed.

(** X1 — [PSRAMCanvas16::drawPixel].  On a canvas whose pixel array has
    [cw * ch] cells the call never stores outside the array; it sets the
    pixel [(x, y)] when that lies on the canvas and changes nothing
    otherwise. *)
Theorem canvasDrawPixel_sets_one_pixel cw ch x y color px :
  0 < cw -> 0 < ch -> length px = Z.to_nat (cw * ch) ->
  exists px',
    canvasDrawPixel cw ch x y color px = Some px' /\
    length px' = length px /\
    forall cx cy, 0 <= cx < cw -> 0 <= cy < ch ->
      pixelAt cw cx cy px'
      = if decide (cx = x /\ cy = y) then Some color else pixelAt cw cx cy px.
Proof.
  intros Hcw Hch Hlen. unfold canvasDrawPixel.
  rewrite !Z.geb_leb.
  destruct (Z.leb_spec 0 x); destruct (Z.ltb_spec x cw);
    destruct (Z.leb_spec 0 y); destruct (Z.ltb_spec y ch); cbn [andb];
    try (exists px; split; [done|]; split; [done|]; intros cx cy Hcx Hcy;
         destruct (decide _) as [[-> ->]|]; [lia|done]).
  assert (Hidx : 0 <= y * cw + x < Z.of_nat (length px)).
  { rewrite Hlen, Z2Nat.id by nia. nia. }
  rewrite poke_Some by done. eexists. split; [done|].
  split; [by rewrite length_insert|].
  intros cx cy Hcx Hcy. unfold pixelAt.
  destruct (decide (cx = x /\ cy = y)) as [[-> ->]|Hne].
  - apply list_lookup_insert_eq. lia.
  - apply list_lookup_insert_ne. intros Heq.
    assert (y * cw + x = cy * cw + cx) as Heq' by nia.
    apply Hne. assert (cy = y) by nia. subst. lia.
Qed.

Lemma canvasDrawPixel_sets_one_pixel_witness :
  exists px',
    canvasDrawPixel 4 3 1 2 7 (replicate 12 0) = Some px' /\
    length px' = length (replicate 12 0) /\
    forall cx cy, 0 <= cx < 4 -> 0 <= cy < 3 ->
      pixelAt 4 cx cy px'
      = if decide (cx = 1 /\ cy = 2) then Some 7
        else pixelAt 4 cx cy (replicate 12 0).
Proof.
  exact (canvasDrawPixel_sets_one_pixel 4 3 1 2 7 (replicate 12 0)
           ltac:(lia) ltac:(lia) ltac:(reflexivity)).
Defined.

(** X2 — [PSRAMCanvas16::fillRect].  For a rectangle of non-negative size
    given in [int16_t] coordinates, on a canvas whose pixel array has
    [cw * ch] cells: no store falls outside the array, and afterwards a
    pixel of the canvas has the fill colour exactly when it lies inside
    the rectangle; every other pixel is unchanged. *)
Theorem canvasFillRect_fills_clipped_rectangle cw ch x y w h color px :
  0 < cw < 32768 -> 0 < ch < 32768 -> length px = Z.to_nat (cw * ch) ->
  -32768 <= x < 32768 -> -32768 <= y < 32768 ->
  0 <= w < 32768 -> 0 <= h < 32768 ->
  exists px',
    canvasFillRect cw ch x y w h color px = Some px' /\
    length px' = length px /\
    forall cx cy, 0 <= cx < cw -> 0 <= cy < ch ->
      pixelAt cw cx cy px'
      = if decide (x <= cx < x + w /\ y <= cy < y + h)
        then Some color else pixelAt cw cx cy px.
Proof.
  intros Hcw Hch Hlen Hx Hy Hw Hh. unfold canvasFillRect.
  set (xw := if x <? 0 then (to_int16 (w + x), 0) else (w, x)).
  assert (Hxw : exists w1 x1, xw = (w1, x1) /\ 0 <= x1 < 32768 /\ -32768 <= w1 < 32768 /\
            forall cx, 0 <= cx -> (x <= cx < x + w <-> x1 <= cx < x1 + w1)).
  { unfold xw. destruct (Z.ltb_spec x 0).
    - rewrite to_int16_small by lia. do 2 eexists. split; [done|].
      repeat split; lia.
    - do 2 eexists. split; [done|]. repeat split; lia. }
  destruct Hxw as (w1 & x1 & -> & Hx1 & Hw1 & Hcol).
  set (yh := if y <? 0 then (to_int16 (h + y), 0) else (h, y)).
  assert (Hyh : exists h1 y1, yh = (h1, y1) /\ 0 <= y1 < 32768 /\ -32768 <= h1 < 32768 /\
            forall cy, 0 <= cy -> (y <= cy < y + h <-> y1 <= cy < y1 + h1)).
  { unfold yh. destruct (Z.ltb_spec y 0).
    - rewrite to_int16_small by lia. do 2 eexists. split; [done|].
      repeat split; lia.
    - do 2 eexists. split; [done|]. repeat split; lia. }
  destruct Hyh as (h1 & y1 & -> & Hy1 & Hh1 & Hrow).
  set (w2 := if x1 + w1 >? cw then to_int16 (cw - x1) else w1).
  assert (Hw2 : x1 + w2 <= cw /\
            forall cx, 0 <= cx < cw -> (x1 <= cx < x1 + w1 <-> x1 <= cx < x1 + w2)).
  { unfold w2. rewrite Z.gtb_ltb. destruct (Z.ltb_spec cw (x1 + w1)).
    - rewrite to_int16_small by lia. split; [lia|]. intros; lia.
    - split; [lia|]. intros; lia. }
  destruct Hw2 as (Hw2 & Hcol2). clearbody w2.
  set (h2 := if y1 + h1 >? ch then to_int16 (ch - y1) else h1).
  assert (Hh2 : y1 + h2 <= ch /\
            forall cy, 0 <= cy < ch -> (y1 <= cy < y1 + h1 <-> y1 <= cy < y1 + h2)).
  { unfold h2. rewrite Z.gtb_ltb. destruct (Z.ltb_spec ch (y1 + h1)).
    - rewrite to_int16_small by lia. split; [lia|]. intros; lia.
    - split; [lia|]. intros; lia. }
  destruct Hh2 as (Hh2 & Hrow2). clearbody h2.
  destruct (Z.leb_spec w2 0) as [Hwe|Hwp]; cbn [orb].
  { exists px. split; [done|]. split; [done|]. intros cx cy Hcx Hcy.
    destruct (decide _) as [[Hin _]|]; [|done].
    apply Hcol, Hcol2 in Hin; lia. }
  destruct (Z.leb_spec h2 0) as [Hhe|Hhp].
  { exists px. split; [done|]. split; [done|]. intros cx cy Hcx Hcy.
    destruct (decide _) as [[_ Hin]|]; [|done].
    apply Hrow, Hrow2 in Hin; lia. }
  destruct (fillRows_spec cw ch x1 (Z.to_nat w2) color (Z.to_nat h2) y1 px
              ltac:(lia) ltac:(lia) ltac:(lia) ltac:(lia) ltac:(lia) Hlen)
    as (px' & Hrun & Hlen' & Hpix).
  exists px'. split; [done|]. split; [done|].
  intros cx cy Hcx Hcy. rewrite (Hpix cx cy Hcx Hcy).
  rewrite !Z2Nat.id by lia.
  specialize (Hcol cx ltac:(lia)). specialize (Hcol2 cx Hcx).
  specialize (Hrow cy ltac:(lia)). specialize (Hrow2 cy Hcy).
  repeat destruct (decide _); try done; exfalso; tauto.
Qed.

Lemma canvasFillRect_fills_clipped_rectangle_witness :
  exists px',
    canvasFillRect 4 3 (-1) 1 3 5 7 (replicate 12 0) = Some px' /\
    length px' = length (replicate 12 0) /\
    forall cx cy, 0 <= cx < 4 -> 0 <= cy < 3 ->
      pixelAt 4 cx cy px'
      = if decide (-1 <= cx < -1 + 3 /\ 1 <= cy < 1 + 5) then Some 7
        else pixelAt 4 cx cy (replicate 12 0).
Proof.
  exact (canvasFillRect_fills_clipped_rectangle 4 3 (-1) 1 3 5 7
           (replicate 12 0)
           ltac:(lia) ltac:(lia) ltac:(reflexivity) ltac:(lia) ltac:(lia)
           ltac:(lia) ltac:(lia)).
Defined.

(** A rectangle that hangs over the left and the bottom edge. *)
Example canvasFillRect_clipped :
  canvasFillRect 4 3 (-1) 1 3 5 7 (replicate 12 0)
  = Some [0; 0; 0; 0; 7; 7; 0; 0; 7; 7; 0; 0].
Proof. reflexivity. Qed.

(** X3 — [drawFastHLine] is [fillRect] with height 1: for every [int16_t]
    row the two calls perform the same stores. *)
Theorem canvasDrawFastHLine_is_fillRect cw ch x y w color px :
  0 < ch < 32768 -> -32768 <= y < 32768 ->
  canvasDrawFastHLine cw ch x y w color px
  = canvasFillRect cw ch x y w 1 color px.
Proof.
  intros Hch Hy. unfold canvasDrawFastHLine, canvasFillRect.
  destruct (if x <? 0 then (to_int16 (w + x), 0) else (w, x)) as [w1 x1].
  set (w2 := if x1 + w1 >? cw then to_int16 (cw - x1) else w1). clearbody w2.
  destruct (Z.ltb_spec y 0) as [Hneg|Hpos]; cbn [orb]; cbv iota;
    rewrite ?Z.geb_leb, ?Z.gtb_ltb.
  - rewrite (to_int16_small (1 + y)) by lia.
    destruct (Z.ltb_spec ch (0 + (1 + y))); [lia|].
    destruct (Z.leb_spec (1 + y) 0); [|lia].
    by destruct (w2 <=? 0).
  - destruct (Z.leb_spec ch y) as [Hout|Hin].
    + destruct (Z.ltb_spec ch (y + 1)); [|lia].
      rewrite (to_int16_small (ch - y)) by lia.
      destruct (Z.leb_spec (ch - y) 0); [|lia].
      by destruct (w2 <=? 0).
    + destruct (Z.ltb_spec ch (y + 1)); [lia|].
      change (1 <=? 0) with false.
      destruct (w2 <=? 0); [done|]. cbn [orb].
      change (Z.to_nat 1) with 1%nat. cbn [fillRows].
      by rewrite bind_Some_r.
Qed.

Lemma canvasDrawFastHLine_is_fillRect_witness :
  canvasDrawFastHLine 4 3 (-1) 2 9 7 (replicate 12 0)
  = canvasFillRect 4 3 (-1) 2 9 1 7 (replicate 12 0).
Proof.
  exact (canvasDrawFastHLine_is_fillRect 4 3 (-1) 2 9 7 (replicate 12 0)
           ltac:(lia) ltac:(lia)).
Defined.

Lemma fillRows_one cw x c n : forall row px,
  fillRows n row cw x 1 c px = fillColumn n row cw x c px.
Proof.
  induction n as [|n IH]; intros row px; [done|].
  cbn [fillRows fillColumn fillRun]. rewrite bind_Some_r.
  destruct (poke _ _ _); cbn; [apply IH|done].
Qed.

(** X4 — [drawFastVLine] is [fillRect] with width 1. *)
Theorem canvasDrawFastVLine_is_fillRect cw ch x y h color px :
  0 < cw < 32768 -> -32768 <= x < 32768 ->
  canvasDrawFastVLine cw ch x y h color px
  = canvasFillRect cw ch x y 1 h color px.
Proof.
  intros Hcw Hx. unfold canvasDrawFastVLine, canvasFillRect.
  destruct (Z.ltb_spec x 0) as [Hneg|Hpos]; cbn [orb]; cbv iota;
    rewrite ?Z.geb_leb, ?Z.gtb_ltb.
  - rewrite (to_int16_small (1 + x)) by lia.
    destruct (if y <? 0 then (to_int16 (h + y), 0) else (h, y)) as [h1 y1].
    rewrite ?Z.gtb_ltb.
    destruct (Z.ltb_spec cw (0 + (1 + x))); [lia|].
    by destruct (Z.leb_spec (1 + x) 0); [|lia].
  - destruct (if y <? 0 then (to_int16 (h + y), 0) else (h, y)) as [h1 y1].
    rewrite ?Z.gtb_ltb.
    set (h2 := if ch <? y1 + h1 then to_int16 (ch - y1) else h1). clearbody h2.
    destruct (Z.leb_spec cw x) as [Hout|Hin].
    + destruct (Z.ltb_spec cw (x + 1)); [|lia].
      rewrite (to_int16_small (cw - x)) by lia.
      by destruct (Z.leb_spec (cw - x) 0); [|lia].
    + destruct (Z.ltb_spec cw (x + 1)); [lia|].
      change (1 <=? 0) with false. cbn [orb].
      destruct (h2 <=? 0); [done|].
      change (Z.to_nat 1) with 1%nat. by rewrite fillRows_one.
Qed.

Lemma canvasDrawFastVLine_is_fillRect_witness :
  canvasDrawFastVLine 4 3 2 (-1) 9 7 (replicate 12 0)
  = canvasFillRect 4 3 2 (-1) 1 9 7 (replicate 12 0).
Proof.
  exact (canvasDrawFastVLine_is_fillRect 4 3 2 (-1) 9 7 (replicate 12 0)
           ltac:(lia) ltac:(lia)).
Defined.

(** Both half words of [color << 16 | color] are [color]. *)
Lemma color32_halves c :
  0 <= c < 65536 ->
  Z.land (Z.lor (Z.shiftl c 16) c) 65535 = c /\
  Z.shiftr (Z.lor (Z.shiftl c 16) c) 16 = c.
Proof.
  intros Hc.
  assert (Hhigh : forall n, 16 <= n -> Z.testbit c n = false).
  { intros n Hn. destruct (Z.eq_dec c 0) as [->|Hne]; [apply Z.bits_0|].
    apply Z.bits_above_log2; [lia|].
    assert (Z.log2 c < 16) by (apply Z.log2_lt_pow2; lia). lia. }
  split; apply Z.bits_inj'; intros n Hn.
  - change 65535 with (Z.ones 16).
    rewrite Z.land_spec, Z.lor_spec.
    destruct (Z.lt_ge_cases n 16).
    + rewrite Z.shiftl_spec_low, Z.ones_spec_low by lia.
      by rewrite andb_true_r.
    + rewrite Z.ones_spec_high, Hhigh by lia. by rewrite andb_false_r.
  - rewrite Z.shiftr_spec, Z.lor_spec, Z.shiftl_spec by lia.
    replace (n + 16 - 16) with n by lia.
    rewrite (Hhigh (n + 16)) by lia. by rewrite orb_false_r.
Qed.

Lemma fillPairs_spec n : forall i c32 c px,
  Z.land c32 65535 = c -> Z.shiftr c32 16 = c ->
  0 <= i -> 2 * (i + Z.of_nat n) <= Z.of_nat (length px) ->
  fillPairs n i c32 px
  = Some (take (Z.to_nat (2 * i)) px ++ replicate (2 * n) c
          ++ drop (Z.to_nat (2 * i) + 2 * n) px).
Proof.
  induction n as [|n IH]; intros i c32 c px Hlo Hhi Hi Hlen.
  - cbn. rewrite Nat.add_0_r, take_drop. reflexivity.
  - replace (2 * S n)%nat with (S (S (2 * n))) by lia.
    remember (2 * n)%nat as m eqn:Hm.
    cbn [fillPairs]. rewrite Hlo, Hhi.
    rewrite poke_Some by lia. cbn.
    rewrite poke_Some by (rewrite length_insert; lia). cbn.
    rewrite (IH _ _ c) by (rewrite ?length_insert; try done; lia).
    f_equal.
    replace (Z.to_nat (2 * (i + 1))) with (S (S (Z.to_nat (2 * i)))) by lia.
    replace (Z.to_nat (2 * i + 1)) with (S (Z.to_nat (2 * i))) by lia.
    set (a := Z.to_nat (2 * i)).
    assert (Ha : (S (S a) <= length px)%nat) by lia.
    rewrite (take_S_r _ (S a) c)
      by (apply list_lookup_insert_eq; rewrite length_insert; lia).
    rewrite take_insert_ge by lia.
    rewrite (take_S_r _ a c) by (apply list_lookup_insert_eq; lia).
    rewrite take_insert_ge by lia.
    rewrite !drop_insert_lt by lia.
    rewrite <- !(assoc_L (++)).
    subst m. cbn [replicate app].
    do 5 f_equal. lia.
Qed.

(** X5 — [PSRAMCanvas16::fillScreen].  On a canvas whose pixel array has
    [cw * ch] cells, with a 16-bit colour, the call stays inside the array
    and leaves every pixel set to the colour, by the [memset] branch for
    black, by the paired 32-bit stores otherwise, and for an odd pixel
    count too. *)
Theorem canvasFillScreen_fills_every_pixel cw ch color px :
  0 <= cw * ch -> length px = Z.to_nat (cw * ch) -> 0 <= color < 65536 ->
  canvasFillScreen cw ch color px = Some (replicate (Z.to_nat (cw * ch)) color).
Proof.
  intros Hn Hlen Hc. unfold canvasFillScreen.
  destruct (Z.eqb_spec color 0) as [->|Hne].
  - rewrite fillRun_spec by lia. cbn.
    rewrite drop_ge by lia. by rewrite app_nil_r.
  - destruct (color32_halves color Hc) as [Hlo Hhi].
    set (n := cw * ch) in *.
    assert (Hdiv : n = 2 * (n / 2) + (if Z.odd n then 1 else 0)).
    { rewrite (Z.div_mod n 2) at 1 by lia. rewrite Zmod_odd. reflexivity. }
    rewrite (fillPairs_spec _ 0 _ color) by (try done; destruct (Z.odd n); lia).
    change (Z.to_nat (2 * 0)) with 0%nat. rewrite take_0, Nat.add_0_l.
    remember (2 * Z.to_nat (n / 2))%nat as m eqn:Hm.
    cbn [app mbind option_bind]. destruct (Z.odd n) eqn:Hodd.
    + assert (Hl : length (drop m px) = 1%nat) by (rewrite length_drop; lia).
      destruct (drop m px) as [|v [|? ?]]; try discriminate Hl.
      rewrite poke_Some by (rewrite length_app, length_replicate; cbn; lia).
      f_equal.
      rewrite insert_app_r_alt by (rewrite length_replicate; lia).
      rewrite length_replicate.
      replace (Z.to_nat (n - 1) - m)%nat with 0%nat by lia.
      cbn. replace (Z.to_nat n) with (m + 1)%nat by lia.
      by rewrite replicate_add.
    + f_equal. rewrite drop_ge by lia. rewrite app_nil_r.
      f_equal. lia.
Qed.

Lemma canvasFillScreen_fills_every_pixel_witness :
  canvasFillScreen 3 3 7 (replicate 9 0) = Some (replicate (Z.to_nat (3 * 3)) 7).
Proof.
  exact (canvasFillScreen_fills_every_pixel 3 3 7 (replicate 9 0)
           ltac:(lia) ltac:(reflexivity) ltac:(lia)).
Defined.

(** ** Partial flush *)

(** X6 — [flushBufferRegion].  With the buffer in place, a transfer is
    issued exactly when the requested height is positive and the first row
    is above the bottom of the screen.  It starts at row [max 0 startY],
    spans [min h (SCREEN_HEIGHT - that row)] rows, and reads exactly
    [SCREEN_WIDTH] pixels per row from inside the buffer: the rows sent lie
    on the screen.  A negative [startY] is raised to 0 without shortening
    [h]. *)
Theorem flushBufferRegion_stays_in_buffer startY h px gp :
  -32768 <= startY < 32768 -> -32768 <= h < 32768 ->
  length px = pixelCount ->
  let s := mkFrameBuf (Some (mkCanvas (Some px))) gp true in
  let y0 := Z.max 0 startY in
  let h0 := Z.min h (SCREEN_HEIGHT - y0) in
  if (0 <? h) && (startY <? SCREEN_HEIGHT) then
    exists slice,
      flushBufferRegion startY h s = Some (y0, h0, slice) /\
      0 <= y0 /\ 0 < h0 /\ y0 + h0 <= SCREEN_HEIGHT /\
      length slice = Z.to_nat (SCREEN_WIDTH * h0) /\
      forall j, (j < length slice)%nat ->
        slice !! j = px !! (Z.to_nat (y0 * SCREEN_WIDTH) + j)%nat
  else flushBufferRegion startY h s = None.
Proof.
  intros Hy Hh Hlen s y0 h0. unfold flushBufferRegion, s. cbn [bufferReady deskBuffer buffer].
  unfold pixelCount in *. unfold SCREEN_HEIGHT, SCREEN_WIDTH in *.
  assert (Hy0 : (if startY <? 0 then 0 else startY) = y0).
  { unfold y0. destruct (Z.ltb_spec startY 0); lia. }
  rewrite Hy0.
  assert (Hy0r : 0 <= y0 < 32768) by (unfold y0; lia).
  rewrite (to_int16_small (135 - y0)) by lia.
  rewrite Z.gtb_ltb.
  destruct (Z.ltb_spec 0 h) as [Hpos|Hnp]; cbn [andb].
  - destruct (Z.ltb_spec startY 135) as [Hin|Hout].
    + set (h1 := if 135 <? y0 + h then 135 - y0 else h).
      assert (Hh1 : h1 = h0).
      { unfold h1, h0. destruct (Z.ltb_spec 135 (y0 + h)); lia. }
      rewrite Hh1. assert (0 < h0) by (unfold h0, y0; lia).
      destruct (Z.leb_spec h0 0); [lia|].
      eexists; split; [reflexivity|].
      assert (y0 + h0 <= 135) by (unfold h0; lia).
      assert (Hl : length (take (Z.to_nat (240 * h0))
                     (drop (Z.to_nat (y0 * 240)) px)) = Z.to_nat (240 * h0)).
      { rewrite length_take, length_drop, Hlen. clearbody h0 y0. lia. }
      repeat split; try lia; try done.
      intros j Hj. rewrite Hl in Hj.
      rewrite lookup_take_lt by done. by rewrite lookup_drop.
    + destruct (Z.ltb_spec 135 (y0 + h)); [|unfold y0 in *; lia].
      destruct (Z.leb_spec (135 - y0) 0); [done|unfold y0 in *; lia].
  - destruct (Z.ltb_spec 135 (y0 + h)).
    + destruct (Z.leb_spec (135 - y0) 0); [done|lia].
    + destruct (Z.leb_spec h 0); [done|lia].
Qed.

Lemma flushBufferRegion_stays_in_buffer_witness :
  exists slice,
    flushBufferRegion (-10) 200
      (mkFrameBuf (Some (mkCanvas (Some (replicate pixelCount 0)))) GfxDeskBuffer true)
    = Some (0, 135, slice) /\ length slice = Z.to_nat (SCREEN_WIDTH * 135).
Proof.
  pose proof (flushBufferRegion_stays_in_buffer (-10) 200
                (replicate pixelCount 0) GfxDeskBuffer
                ltac:(lia) ltac:(lia) ltac:(apply length_replicate)) as H.
  cbn zeta in H. change ((0 <? 200) && (-10 <? SCREEN_HEIGHT)) with true in H.
  cbv iota in H. destruct H as (slice & H1 & _ & _ & _ & H2 & _).
  exists slice. split; [exact H1|exact H2].
Defined.

(** ** Frame buffer: allocation and buffered redraw *)

(** X7 — [initDoubleBuffer].  Whatever state it is called in, the returned
    flag, [bufferReady] and "the canvas exists and has a pixel array" agree
    afterwards; on failure no canvas object is left behind; [gfx] is not
    touched; and because a failed call leaves [deskBuffer] null, the next
    call allocates again and succeeds as soon as the heap can serve it. *)
Theorem initDoubleBuffer_postcondition heapOk s :
  let r := initDoubleBuffer heapOk s in
  bufferReady r.1 = r.2 /\
  hasBuffer (deskBuffer r.1) = r.2 /\
  (r.2 = false -> deskBuffer r.1 = None) /\
  gfx r.1 = gfx s /\
  (initDoubleBuffer true r.1).2 = true /\
  (r.2 = true -> forall heapOk', initDoubleBuffer heapOk' r.1 = (r.1, true)).
Proof.
  unfold initDoubleBuffer.
  destruct (bufferReady s) eqn:Hr; cbn [andb].
  - destruct (hasBuffer (deskBuffer s)) eqn:Hb; cbn.
    + rewrite Hr, Hb. cbn. repeat split; try done.
    + destruct (deskBuffer s) as [c|] eqn:Hd.
      * cbn in Hb |- *. rewrite Hb. cbn. repeat split; done.
      * destruct heapOk; cbn; repeat split; done.
  - destruct (deskBuffer s) as [c|] eqn:Hd.
    + cbn. destruct (buffer c) eqn:Hbuf; cbn; rewrite ?Hbuf; cbn;
        repeat split; done.
    + destruct heapOk; cbn; repeat split; done.
Qed.

(** X8 — Buffered redraw.  When the buffer is ready and [gfx] is null or
    already points at it, [deskFullRedraw] attempts no allocation, draws
    nothing on the display directly, and sends the drawn scene as exactly
    one bulk transfer after [ensureTFTState]; [gfx] points at the canvas
    afterwards.  This holds whatever windows are open: the copy of an
    image viewer lands in the same pixel array as the calls through
    [gfx]. *)
Theorem deskFullRedraw_buffered heapOk scene d bmp s :
  fbInv s -> bufferReady s = true -> gfx s <> GfxTft ->
  deskFullRedraw heapOk scene d bmp s
  = Some (mkFrameBuf (Some (mkCanvas (Some scene))) GfxDeskBuffer true,
          ensureTFTState ++ [TftDrawRGBBitmap scene]).
Proof.
  intros (H1 & _ & _) Hr Hg. specialize (H1 Hr).
  unfold deskFullRedraw, drawScene, hasBuffer in *.
  destruct s as [[[[px|]]|] [| |] r]; cbn in *; subst; try done.
  all: by rewrite (drawWindows_buffer _ _ _ _ px).
Qed.

Lemma deskFullRedraw_buffered_witness :
  deskFullRedraw false [1; 2; 3] (openImage bluePicture emptyDesk).1
                 (openImage bluePicture emptyDesk).2
                 (enterDesktop true frameBufInit)
  = Some (mkFrameBuf (Some (mkCanvas (Some [1; 2; 3]))) GfxDeskBuffer true,
          ensureTFTState ++ [TftDrawRGBBitmap [1; 2; 3]]).
Proof.
  apply (deskFullRedraw_buffered false [1; 2; 3] (openImage bluePicture emptyDesk).1
           (openImage bluePicture emptyDesk).2 (enterDesktop true frameBufInit)).
  - apply enterDesktop_inv. unfold fbInv. cbn. repeat split; done.
  - reflexivity.
  - discriminate.
Defined.

(** X9 — Redraw while [gfx] points at the display.  Once the desktop was
    entered without a buffer, [gfx] is [&tft] and [deskFullRedraw] does not
    re-point it.  If a buffer exists by then (it was ready, or the
    allocation made by this redraw succeeds), the calls of the scene go to
    the display directly, and the only write to the pixel array is the
    copy of the image viewer.  The flush that ends the redraw then sends
    that array over the scene: the picture if a window of the z-order is an
    image viewer that shows one, the untouched array otherwise, which is
    all zeroes for a canvas allocated by this call. *)
Theorem deskFullRedraw_direct_then_stale_flush heapOk scene d bmp s :
  fbInv s -> gfx s = GfxTft -> bufferReady s = true \/ heapOk = true ->
  exists px,
    buffer <$> deskBuffer (if bufferReady s then s
                           else (initDoubleBuffer heapOk s).1) = Some (Some px) /\
    (bufferReady s = false -> px = replicate pixelCount 0) /\
    let sent := default px (imageDrawn (deskWinCount d) d bmp) in
    deskFullRedraw heapOk scene d bmp s
    = Some (mkFrameBuf (Some (mkCanvas (Some sent))) GfxTft true,
            [TftDirect scene] ++ ensureTFTState ++ [TftDrawRGBBitmap sent]).
Proof.
  intros (H1 & H2 & _) Hg Hor. unfold deskFullRedraw, drawScene.
  destruct (bufferReady s) eqn:Hr; cbn [negb].
  - specialize (H1 eq_refl). unfold hasBuffer in H1.
    destruct s as [[[[px|]]|] g r]; cbn in *; try done. subst.
    exists px. repeat split; [done|]. cbn.
    by rewrite (drawWindows_buffer _ _ _ _ px).
  - destruct Hor as [? | ->]; [done|]. specialize (H2 eq_refl).
    destruct s as [db g r]; cbn in *; subst.
    exists (replicate pixelCount 0). repeat split. cbn.
    by rewrite (drawWindows_buffer _ _ _ _ (replicate pixelCount 0)).
Qed.

Lemma deskFullRedraw_direct_then_stale_flush_witness :
  deskFullRedraw true [1; 2; 3] emptyDesk None (enterDesktop false frameBufInit)
  = Some (mkFrameBuf (Some (mkCanvas (Some (replicate pixelCount 0)))) GfxTft true,
          [TftDirect [1; 2; 3]] ++ ensureTFTState
          ++ [TftDrawRGBBitmap (replicate pixelCount 0)]) /\
  deskFullRedraw true [1; 2; 3] (openImage bluePicture emptyDesk).1
                 (openImage bluePicture emptyDesk).2
                 (enterDesktop false frameBufInit)
  = Some (mkFrameBuf (Some (mkCanvas (Some bluePicture))) GfxTft true,
          [TftDirect [1; 2; 3]] ++ ensureTFTState
          ++ [TftDrawRGBBitmap bluePicture]).
Proof.
  split.
  - destruct (deskFullRedraw_direct_then_stale_flush true [1; 2; 3]
                emptyDesk None (enterDesktop false frameBufInit))
      as (px & _ & Hpx & Heq).
    + unfold fbInv. cbn. repeat split; done.
    + reflexivity.
    + right. reflexivity.
    + rewrite <- (Hpx eq_refl). exact Heq.
  - destruct (deskFullRedraw_direct_then_stale_flush true [1; 2; 3]
                (openImage bluePicture emptyDesk).1 (openImage bluePicture emptyDesk).2
                (enterDesktop false frameBufInit))
      as (px & _ & _ & Heq).
    + unfold fbInv. cbn. repeat split; done.
    + reflexivity.
    + right. reflexivity.
    + exact Heq.
Defined.

(** ** Registry: capacity, round trip, order *)

Lemma zorder_head d :
  (deskWinCount d <= length (deskWinOrder d))%nat ->
  (if (0 <? deskWinCount d)%nat then rd (deskWinOrder d) 0 else -1)
  = match zorder d with z :: _ => z | [] => -1 end.
Proof.
  intros Hle. unfold zorder.
  destruct (deskWinCount d) as [|n]; [by rewrite take_0|].
  destruct (deskWinOrder d) as [|z rest]; [cbn in Hle; lia|]. reflexivity.
Qed.

Lemma filter_all (v : Z) (l : list Z) :
  v ∉ l -> filter (fun z => z <> v) l = l.
Proof.
  induction l as [|a l IH]; intros Hv; [done|].
  apply not_elem_of_cons in Hv as [Hne Hv].
  rewrite filter_cons_True by done. f_equal. by apply IH.
Qed.

Lemma delete_filter_NoDup (l : list Z) i v :
  NoDup l -> l !! i = Some v -> delete i l = filter (fun z => z <> v) l.
Proof.
  revert i. induction l as [|a l IH]; intros i Hnd Hi; [done|].
  apply NoDup_cons in Hnd as [Ha Hnd]. destruct i as [|i]; cbn in Hi.
  - injection Hi as ->. rewrite filter_cons_False by naive_solver.
    change (delete 0%nat (v :: l)) with l.
    symmetry. by apply filter_all.
  - change (delete (S i) (a :: l)) with (a :: delete i l).
    rewrite filter_cons_True.
    + f_equal. by apply IH.
    + intros ->. apply Ha. by eapply list_elem_of_lookup_2.
Qed.

(** X10 — Capacity of the window pool.  In a well-formed registry
    [deskOpenWindow] opens a window (the count grows by one and the new id
    is in front) exactly when fewer than [MAX_DESK_WINDOWS] windows are
    open; with all 15 open the call changes nothing at all. *)
Theorem deskOpenWindow_succeeds_iff_room d appType title :
  deskInv d ->
  let d' := deskOpenWindow appType title d in
  ((deskWinCount d < MAX_DESK_WINDOWS)%nat ->
     deskWinCount d' = S (deskWinCount d) /\
     exists s, zorder d' = Z.of_nat s :: zorder d /\
               slotOpen (deskWins d) s = false /\ activeWin d' = Z.of_nat s) /\
  (deskWinCount d = MAX_DESK_WINDOWS -> d' = d).
Proof.
  intros Hinv d'. pose proof Hinv as [Hw Ho Hc Hnd Hmem _].
  destruct (findFreeSlot 0 (deskWins d)) as [s|] eqn:Hf.
  - destruct (findFreeSlot_Some _ _ _ Hf) as (_ & Hfree & Hl & _).
    rewrite Nat.sub_0_r in Hfree, Hl.
    pose proof (free_slot_room d s Hinv ltac:(by rewrite <- Hw) Hfree) as Hroom.
    split; [|lia]. intros _. split.
    + unfold d', deskOpenWindow. by rewrite Hf.
    + exists s. split; [by apply zorder_open|]. split; [done|].
      unfold d', deskOpenWindow. by rewrite Hf.
  - split; [|intros _; unfold d', deskOpenWindow; by rewrite Hf].
    intros Hlt. exfalso.
    pose proof (findFreeSlot_None _ _ Hf) as Hall.
    assert (Hsub : (Z.of_nat <$> seq 0 MAX_DESK_WINDOWS) ⊆+ zorder d).
    { apply NoDup_submseteq.
      - apply NoDup_fmap_2; [apply _|apply NoDup_seq].
      - intros z Hz. apply list_elem_of_fmap in Hz as (i & -> & Hi).
        apply elem_of_seq in Hi. apply Hmem. split; [lia|].
        rewrite Nat2Z.id. apply Hall. lia. }
    apply submseteq_length in Hsub.
    rewrite length_fmap, length_seq, length_zorder in Hsub by lia. lia.
Qed.

Lemma deskOpenWindow_succeeds_iff_room_witness :
  deskWinCount (deskOpenWindow 1 "Calc" emptyDesk) = 1%nat /\
  zorder (deskOpenWindow 1 "Calc" emptyDesk) = [0].
Proof.
  destruct (deskOpenWindow_succeeds_iff_room emptyDesk 1 "Calc" emptyDesk_inv)
    as [H _].
  destruct (H ltac:(cbn; unfold MAX_DESK_WINDOWS; lia)) as (Hc & s & Hz & _).
  split; [exact Hc|]. reflexivity.
Defined.

(** X11 — Open, then close.  Closing the window that [deskOpenWindow] has
    just opened gives back the z-order, the count and the set of open slots
    of before, and the focus goes to the window that was in front before
    (or to none), whichever window had the focus then. *)
Theorem deskOpen_then_close_restores d appType title s :
  deskInv d -> findFreeSlot 0 (deskWins d) = Some s ->
  exists d',
    deskCloseWindow (Z.of_nat s) (deskOpenWindow appType title d) = Some d' /\
    zorder d' = zorder d /\
    deskWinCount d' = deskWinCount d /\
    (forall i, slotOpen (deskWins d') i = slotOpen (deskWins d) i) /\
    activeWin d' = match zorder d with z :: _ => z | [] => -1 end.
Proof.
  intros Hinv Hf. pose proof Hinv as [Hw Ho Hc Hnd Hmem _].
  destruct (findFreeSlot_Some _ _ _ Hf) as (_ & Hfree & Hl & _).
  rewrite Nat.sub_0_r in Hfree, Hl.
  pose proof (deskOpenWindow_inv appType title d Hinv) as Hinv1.
  pose proof (zorder_open d appType title s Hinv Hf) as Hz1.
  set (d1 := deskOpenWindow appType title d) in *.
  assert (Hw1 : deskWins d1 = <[s := openedWindow s appType title]> (deskWins d)).
  { unfold d1, deskOpenWindow. by rewrite Hf. }
  assert (Hc1 : deskWinCount d1 = S (deskWinCount d)).
  { unfold d1, deskOpenWindow. by rewrite Hf. }
  assert (Hr : deskWins d1 !! Z.to_nat (Z.of_nat s)
               = Some (openedWindow s appType title)).
  { rewrite Nat2Z.id, Hw1. by apply list_lookup_insert_eq. }
  assert (Hopen : DeskWindow.open (openedWindow s appType title) = true).
  { unfold openedWindow. by destruct (defaultSize appType) as [[[[? ?] ?] ?] ?]. }
  destruct (deskCloseWindow_open d1 (Z.of_nat s) _ Hinv1 ltac:(lia) Hr Hopen)
    as (pos & d' & Hcl & Hpos & Hz & Hwins & Hlen & Hcnt & _ & Hact).
  assert (pos = 0%nat) as ->.
  { eapply NoDup_lookup; [apply (inv_nodup _ Hinv1)|exact Hpos|].
    by rewrite Hz1. }
  rewrite Hz1 in Hz. cbn in Hz.
  exists d'. split; [done|]. split; [done|]. split; [lia|]. split.
  - intros i. rewrite Hwins, Nat2Z.id, Hw1.
    rewrite list_insert_insert_eq.
    rewrite slotOpen_insert by done.
    destruct (decide (s = i)) as [<-|]; [|done].
    rewrite Hfree. unfold openedWindow.
    by destruct (defaultSize appType) as [[[[? ?] ?] ?] ?].
  - rewrite Hact, zorder_head; [by rewrite Hz|].
    rewrite Hlen, Hcnt, (inv_order _ Hinv1). pose proof (inv_count _ Hinv1). lia.
Qed.

Lemma deskOpen_then_close_restores_witness :
  exists d',
    deskCloseWindow 1 (deskOpenWindow 4 "Notes" (deskOpenWindow 1 "Calc" emptyDesk))
    = Some d' /\ zorder d' = [0] /\ activeWin d' = 0.
Proof.
  destruct (deskOpen_then_close_restores (deskOpenWindow 1 "Calc" emptyDesk)
              4 "Notes" 1%nat) as (d' & H1 & H2 & _ & _ & H3).
  - apply deskOpenWindow_inv, emptyDesk_inv.
  - reflexivity.
  - exists d'. split; [exact H1|]. split; [exact H2|exact H3].
Defined.

(** X12 — Closing an open window.  In a well-formed registry closing an
    open window keeps the other windows in their relative order, clears
    only that slot's open flag, and gives the focus to whatever window is
    in front afterwards ([-1] when none is left), also when the closed
    window was not the focused one. *)
Theorem deskCloseWindow_keeps_order d winIdx :
  deskInv d -> isOpen d winIdx ->
  exists d',
    deskCloseWindow winIdx d = Some d' /\
    zorder d' = filter (fun z => z <> winIdx) (zorder d) /\
    deskWinCount d' = (deskWinCount d - 1)%nat /\
    (forall i, slotOpen (deskWins d') i
               = if decide (i = Z.to_nat winIdx) then false
                 else slotOpen (deskWins d) i) /\
    activeWin d' = match zorder d' with z :: _ => z | [] => -1 end.
Proof.
  intros Hinv [Hge Hop]. unfold slotOpen in Hop.
  destruct (deskWins d !! Z.to_nat winIdx) as [r|] eqn:Hr; [|done].
  destruct (deskCloseWindow_open d winIdx r Hinv Hge Hr Hop)
    as (pos & d' & Hcl & Hpos & Hz & Hwins & Hlen & Hcnt & _ & Hact).
  exists d'. split; [done|]. split.
  { rewrite Hz. apply delete_filter_NoDup; [apply (inv_nodup _ Hinv)|done]. }
  split; [done|]. split.
  - intros i. rewrite Hwins.
    rewrite slotOpen_insert by (by eapply lookup_lt_Some).
    destruct (decide (Z.to_nat winIdx = i)), (decide (i = Z.to_nat winIdx));
      try done; congruence.
  - rewrite Hact. apply zorder_head.
    rewrite Hlen, Hcnt, (inv_order _ Hinv). pose proof (inv_count _ Hinv). lia.
Qed.

Lemma deskCloseWindow_keeps_order_witness :
  exists d',
    deskCloseWindow 0 (deskOpenWindow 4 "Notes" (deskOpenWindow 1 "Calc" emptyDesk))
    = Some d' /\ zorder d' = [1] /\ activeWin d' = 1.
Proof.
  destruct (deskCloseWindow_keeps_order
              (deskOpenWindow 4 "Notes" (deskOpenWindow 1 "Calc" emptyDesk)) 0)
    as (d' & H1 & H2 & _ & _ & H3).
  - apply deskOpenWindow_inv, deskOpenWindow_inv, emptyDesk_inv.
  - split; [lia|reflexivity].
  - exists d'. split; [exact H1|].
    assert (Hz : zorder d' = [1]) by (rewrite H2; reflexivity).
    split; [exact Hz|]. rewrite H3, Hz. reflexivity.
Defined.

(** X13 — [deskBringToFront] keeps the registry well formed.  For every
    position below [deskWinCount] (the values the hit test returns) the
    registry invariant survives the call: same open windows, no duplicate
    in the z-order, focus on the front cell. *)
Theorem deskBringToFront_inv d orderIdx :
  deskInv d -> orderIdx < Z.of_nat (deskWinCount d) ->
  deskInv (deskBringToFront orderIdx d).
Proof.
  intros Hinv Hlt. pose proof Hinv as [Hw Ho Hc Hnd Hmem Hfoc].
  unfold deskBringToFront. destruct (Z.leb_spec orderIdx 0) as [|Hpos]; [done|].
  set (k := Z.to_nat orderIdx).
  assert (Hk : (k < deskWinCount d)%nat) by (unfold k; lia).
  assert (Hlk : zorder d !! k = Some (rd (deskWinOrder d) k)).
  { unfold zorder. rewrite lookup_take_lt by done. apply lookup_rd. lia. }
  assert (Hz : take (deskWinCount d)
                 (<[0%nat := rd (deskWinOrder d) k]> (shiftBack k (deskWinOrder d)))
               = rd (deskWinOrder d) k :: delete k (zorder d)).
  { rewrite insert_front_shiftBack by lia.
    destruct (deskWinCount d) as [|n] eqn:Hn; [lia|]. cbn. f_equal.
    rewrite <- delete_take_drop. unfold zorder. rewrite Hn.
    rewrite <- (take_delete _ k (S n)) by lia. f_equal. lia. }
  assert (Hperm : rd (deskWinOrder d) k :: delete k (zorder d) ≡ₚ zorder d).
  { symmetry. by apply delete_Permutation. }
  split; cbn.
  - done.
  - by rewrite length_insert, length_shiftBack.
  - done.
  - unfold zorder. cbn. rewrite Hz. by rewrite Hperm.
  - intros z. unfold zorder, isOpen. cbn. rewrite Hz, Hperm. apply Hmem.
  - intros _. apply rd_lookup, list_lookup_insert_eq.
    rewrite length_shiftBack. lia.
Qed.

Lemma deskBringToFront_inv_witness :
  deskInv (deskBringToFront 1
             (deskOpenWindow 4 "Notes" (deskOpenWindow 1 "Calc" emptyDesk))).
Proof.
  apply deskBringToFront_inv.
  - apply deskOpenWindow_inv, deskOpenWindow_inv, emptyDesk_inv.
  - cbn. lia.
Defined.

(** ** Hit testing and the cursor *)

Lemma hitScan_spec p d fuel : forall i,
  (i + fuel)%nat = deskWinCount d ->
  (forall j, (j < deskWinCount d)%nat ->
     exists r, 0 <= rd (deskWinOrder d) j /\
               deskWins d !! Z.to_nat (rd (deskWinOrder d) j) = Some r /\
               DeskWindow.open r = true) ->
  exists res, hitScan fuel i p d = Some res /\
    match res with
    | Some k => (i <= k < deskWinCount d)%nat /\ hitsAt p d k = true /\
                forall j, (i <= j < k)%nat -> hitsAt p d j = false
    | None => forall j, (i <= j < deskWinCount d)%nat -> hitsAt p d j = false
    end.
Proof.
  induction fuel as [|f IH]; intros i Hi Hall.
  - exists None. split; [done|]. intros j Hj. lia.
  - cbn [hitScan]. destruct (Hall i ltac:(lia)) as (r & Hge & Hr & Hop).
    destruct (Z.ltb_spec (rd (deskWinOrder d) i) 0); [lia|].
    rewrite Hr, Hop. cbn [andb].
    destruct (ptrInWindow p r) eqn:Hhit.
    + exists (Some i). split; [done|]. split; [lia|]. split.
      * unfold hitsAt. by rewrite Hr.
      * intros j Hj. lia.
    + destruct (IH (S i) ltac:(lia) Hall) as (res & Hres & Hspec).
      exists res. split; [done|].
      assert (Hi0 : hitsAt p d i = false) by (unfold hitsAt; by rewrite Hr).
      destruct res as [k|].
      * destruct Hspec as (Hk & Hhk & Hbefore). split; [lia|]. split; [done|].
        intros j Hj. destruct (decide (j = i)) as [->|]; [done|].
        apply Hbefore. lia.
      * intros j Hj. destruct (decide (j = i)) as [->|]; [done|].
        apply Hspec. lia.
Qed.

(** X14 — [deskPtrHitsWindow] finds the front-most window under the
    pointer.  In a well-formed registry the scan always completes (every
    z-order cell indexes an open slot), and it returns the first z-order
    position whose window rectangle (the whole screen for a maximized or
    fullscreen window) the pointer hits; it returns "none" exactly when the
    pointer is over no window. *)
Theorem deskPtrHitsWindow_frontmost p d :
  deskInv d ->
  exists res, deskPtrHitsWindow p d = Some res /\
    match res with
    | Some k => (k < deskWinCount d)%nat /\ hitsAt p d k = true /\
                forall j, (j < k)%nat -> hitsAt p d j = false
    | None => forall j, (j < deskWinCount d)%nat -> hitsAt p d j = false
    end.
Proof.
  intros Hinv. pose proof Hinv as [Hw Ho Hc Hnd Hmem _].
  destruct (hitScan_spec p d (deskWinCount d) 0 ltac:(lia)) as (res & Hres & Hspec).
  - intros j Hj.
    assert (Hin : rd (deskWinOrder d) j ∈ zorder d).
    { apply list_elem_of_lookup. exists j. unfold zorder.
      rewrite lookup_take_lt by done. apply lookup_rd. lia. }
    apply Hmem in Hin as [Hge Hop]. unfold slotOpen in Hop.
    destruct (deskWins d !! Z.to_nat (rd (deskWinOrder d) j)) as [r|]; [|done].
    by exists r.
  - exists res. split; [done|]. destruct res as [k|].
    + destruct Hspec as (Hk & Hhit & Hb). split; [lia|]. split; [done|].
      intros j Hj. apply Hb. lia.
    + intros j Hj. apply Hspec. lia.
Qed.

Lemma deskPtrHitsWindow_frontmost_witness :
  deskPtrHitsWindow (mkPointer 30 20 30 20 false false 0 0 (-1))
    (deskOpenWindow 4 "Notes" (deskOpenWindow 1 "Calc" emptyDesk))
  = Some (Some 0%nat).
Proof.
  destruct (deskPtrHitsWindow_frontmost
              (mkPointer 30 20 30 20 false false 0 0 (-1))
              (deskOpenWindow 4 "Notes" (deskOpenWindow 1 "Calc" emptyDesk)))
    as (res & Hres & _).
  - apply deskOpenWindow_inv, deskOpenWindow_inv, emptyDesk_inv.
  - reflexivity.
Defined.

(** X15 — Cursor movement.  After the movement block of a desktop frame
    the cursor is on the screen, whatever the joystick did and wherever the
    cursor was; the previous position is remembered; and from an on-screen
    position with a speed of 0..1000 the cursor moves by at most the speed
    along each axis, and not at all while it is hidden or Paint has the
    focus. *)
Theorem cursorStep_on_screen up down left right mouseSpeed hidden paint p :
  let p' := cursorStep up down left right mouseSpeed hidden paint p in
  onScreen p' /\
  prevMouseX p' = mouseX p /\ prevMouseY p' = mouseY p /\
  (onScreen p -> 0 <= mouseSpeed <= 1000 ->
     Z.abs (mouseX p' - mouseX p) <= mouseSpeed /\
     Z.abs (mouseY p' - mouseY p) <= mouseSpeed /\
     (hidden || paint = true ->
        mouseX p' = mouseX p /\ mouseY p' = mouseY p)).
Proof.
  cbn zeta. unfold cursorStep, onScreen, SCREEN_WIDTH, SCREEN_HEIGHT.
  cbn [mouseX mouseY prevMouseX prevMouseY].
  set (mv := negb hidden && negb paint).
  split; [|split; [done|split; [done|]]].
  - split.
    + pose proof (to_int16_range (mouseX p - mouseSpeed)).
      pose proof (to_int16_range (mouseX p + mouseSpeed)).
      pose proof (to_int16_range (to_int16 (mouseX p - mouseSpeed) + mouseSpeed)).
      destruct (mv && left), (mv && right); split_cmp; lia.
    + pose proof (to_int16_range (mouseY p - mouseSpeed)).
      pose proof (to_int16_range (mouseY p + mouseSpeed)).
      pose proof (to_int16_range (to_int16 (mouseY p - mouseSpeed) + mouseSpeed)).
      destruct (mv && up), (mv && down); split_cmp; lia.
  - intros [Hx Hy] Hs.
    assert (Hsm : forall a b : bool, forall v,
              0 <= v < 240 ->
              let v1 := if a then to_int16 (v - mouseSpeed) else v in
              let v2 := if b then to_int16 (v1 + mouseSpeed) else v1 in
              v - mouseSpeed <= v2 <= v + mouseSpeed /\
              (a = false -> b = false -> v2 = v)).
    { intros a b v Hv. cbn zeta.
      destruct a, b; rewrite ?to_int16_small; rewrite ?to_int16_small; lia. }
    destruct (Hsm (mv && left) (mv && right) (mouseX p) ltac:(lia)) as [Hx1 Hx2].
    destruct (Hsm (mv && up) (mv && down) (mouseY p) ltac:(lia)) as [Hy1 Hy2].
    cbn zeta in *.
    set (x2 := if mv && right then _ else _) in *.
    set (y2 := if mv && down then _ else _) in *.
    clearbody x2 y2.
    split; [split_cmp; lia|]. split; [split_cmp; lia|].
    intros Hh. assert (mv = false) as Hmv.
    { unfold mv. destruct hidden, paint; done. }
    rewrite Hmv in Hx2, Hy2. cbn [andb] in Hx2, Hy2.
    rewrite (Hx2 eq_refl eq_refl), (Hy2 eq_refl eq_refl).
    split; split_cmp; lia.
Qed.

Lemma cursorStep_on_screen_witness :
  let p := mkPointer 238 1 0 0 false false 0 0 (-1) in
  let p' := cursorStep true false false true 4 false false p in
  mouseX p' = 239 /\ mouseY p' = 0 /\
  Z.abs (mouseX p' - mouseX p) <= 4 /\ Z.abs (mouseY p' - mouseY p) <= 4.
Proof.
  cbn zeta.
  destruct (cursorStep_on_screen true false false true 4 false false
              (mkPointer 238 1 0 0 false false 0 0 (-1))) as (_ & _ & _ & H).
  destruct H as (Hx & Hy & _).
  - unfold onScreen, SCREEN_WIDTH, SCREEN_HEIGHT. cbn. lia.
  - lia.
  - split; [reflexivity|]. split; [reflexivity|]. split; [exact Hx|exact Hy].
Defined.

(** ** Desktop click debounce *)







(** ** Wall clock *)

Lemma to_int32_small z : - 2 ^ 31 <= z < 2 ^ 31 -> to_int32 z = z.
Proof. intros H. unfold to_int32. rewrite Z.mod_small; lia. Qed.

Lemma updateTime_fallback_step c :
  validTime c ->
  let c' := updateTime false None c in
  validTime c' /\ secondOfDay c' = (secondOfDay c + 1) mod 86400 /\
  day c' = day c /\ month c' = month c /\ year c' = year c.
Proof.
  intros (Hh & Hm & Hs). unfold updateTime, validTime, secondOfDay.
  rewrite !to_int32_small by lia.
  destruct (Z.geb_spec (seconds c + 1) 60);
    [|cbn; repeat split; try lia; rewrite Z.mod_small by lia; lia].
  destruct (Z.geb_spec (minutes c + 1) 60);
    [|cbn; repeat split; try lia; rewrite Z.mod_small by lia; lia].
  destruct (Z.geb_spec (hours c + 1) 24); cbn; repeat split; try lia.
  - replace (hours c * 3600 + minutes c * 60 + seconds c + 1) with 86400 by lia.
    reflexivity.
  - rewrite Z.mod_small by lia. lia.
Qed.

(** X17 — Software clock.  Without a time from the network (no WiFi, or
    [getLocalTime] timing out) each call of [updateTime] advances a valid
    time of day by exactly one second, wrapping from 23:59:59 to 00:00:00;
    so [n] calls advance it by [n] seconds modulo a day.  The date is never
    touched: the day does not advance at midnight. *)
Theorem updateTime_fallback_counts_seconds wifi (n : nat) c :
  validTime c ->
  let c' := Nat.iter n (updateTime wifi None) c in
  validTime c' /\
  secondOfDay c' = (secondOfDay c + Z.of_nat n) mod 86400 /\
  day c' = day c /\ month c' = month c /\ year c' = year c.
Proof.
  intros Hv. cbn zeta.
  assert (Hw : updateTime wifi None = updateTime false None).
  { unfold updateTime. by destruct wifi. }
  rewrite Hw. clear Hw.
  induction n as [|n IH].
  - cbn. repeat split; try apply Hv.
    symmetry. rewrite Z.add_0_r. apply Z.mod_small.
    destruct Hv as (? & ? & ?). unfold secondOfDay. lia.
  - rewrite Nat.iter_succ.
    destruct IH as (IHv & IHs & IHd & IHm & IHy).
    destruct (updateTime_fallback_step _ IHv) as (Hv' & Hs' & Hd' & Hm' & Hy').
    cbn zeta in *. repeat split; try apply Hv'; try congruence.
    rewrite Hs', IHs.
    rewrite Zplus_mod_idemp_l. f_equal. lia.
Qed.

Lemma updateTime_fallback_counts_seconds_witness :
  let c' := Nat.iter 2 (updateTime true None) (mkClock 23 59 59 15 12 2025) in
  secondOfDay c' = 1 /\ day c' = 15.
Proof.
  cbn zeta.
  destruct (updateTime_fallback_counts_seconds true 2
              (mkClock 23 59 59 15 12 2025)) as (_ & Hs & Hd & _).
  - unfold validTime. cbn. lia.
  - split; [exact Hs|exact Hd].
Defined.

(** ** Tetris: clearing lines *)

Lemma length_shiftRowsDown n (b : list (list Z)) : length (shiftRowsDown n b) = length b.
Proof.
  revert b. induction n as [|n IH]; intros b; cbn [shiftRowsDown]; [done|].
  by rewrite IH, length_insert.
Qed.

Lemma shiftRowsDown_spec n (b : list (list Z)) :
  (n < length b)%nat ->
  shiftRowsDown n b = take 1 b ++ take n b ++ drop (S n) b.
Proof.
  revert b. induction n as [|n IH]; intros b Hn; cbn [shiftRowsDown].
  - rewrite take_0. simpl. by rewrite take_drop.
  - destruct (lookup_lt_is_Some_2 b n ltac:(lia)) as [rn Hrn].
    destruct (lookup_lt_is_Some_2 b (S n) ltac:(lia)) as [rs Hrs].
    rewrite Hrn. cbn [from_option id].
    rewrite IH by (rewrite length_insert; lia).
    rewrite !take_insert_ge by lia.
    rewrite drop_insert_ge by lia.
    replace (S n - S n)%nat with 0%nat by lia.
    rewrite (take_S_r b n rn) by done.
    rewrite (drop_S b rs (S n)) by done.
    simpl. by rewrite <- (assoc_L (++)).
Qed.

Lemma clear_row r (b : list (list Z)) :
  (r < length b)%nat ->
  <[0%nat := emptyRow]> (shiftRowsDown r b) = emptyRow :: take r b ++ drop (S r) b.
Proof.
  intros Hr. rewrite shiftRowsDown_spec by done.
  destruct b as [|a b]; [simpl in Hr; lia|]. reflexivity.
Qed.

Lemma rowFull_emptyRow : rowFull emptyRow = false.
Proof. reflexivity. Qed.

(** Scanning the rows that were cleared before changes nothing. *)
Lemma clearLoop_zeros n : forall fuel c (D : list (list Z)) k,
  (n <= c)%nat -> (n <= fuel)%nat ->
  clearLoop fuel n (replicate c emptyRow ++ D) k
  = Some (replicate c emptyRow ++ D, k).
Proof.
  induction n as [|n IH]; intros fuel c D k Hc Hf.
  - by destruct fuel.
  - destruct fuel as [|f]; [lia|]. cbn [clearLoop].
    rewrite lookup_app_l by (rewrite length_replicate; lia).
    rewrite (lookup_replicate_2 c emptyRow n) by lia.
    cbn [from_option id]. rewrite rowFull_emptyRow. apply IH; lia.
Qed.

Lemma clearLoop_spec (P : list (list Z)) : forall fuel c (D : list (list Z)) k,
  (2 * length P + c <= fuel)%nat ->
  -1 <= k -> k + Z.of_nat (length P) < 2 ^ 31 ->
  clearLoop fuel (c + length P) (replicate c emptyRow ++ P ++ D) k
  = Some (replicate (c + fullRows P) emptyRow
            ++ filter (fun row => rowFull row = false) P ++ D,
          k + Z.of_nat (fullRows P)).
Proof.
  induction P as [|row P IH] using rev_ind; intros fuel c D k Hf Hk Hk2.
  - unfold fullRows. rewrite filter_nil. cbn [length app].
    rewrite !Nat.add_0_r, Z.add_0_r. apply clearLoop_zeros; lia.
  - rewrite length_app in *. cbn [length] in *.
    replace (c + (length P + 1))%nat with (S (c + length P)) by lia.
    destruct fuel as [|f]; [lia|]. cbn [clearLoop].
    assert (Hlk : (replicate c emptyRow ++ (P ++ [row]) ++ D) !! (c + length P)%nat
                  = Some row).
    { rewrite lookup_app_r by (rewrite length_replicate; lia).
      rewrite length_replicate.
      replace (c + length P - c)%nat with (length P) by lia.
      rewrite <- (assoc_L (++)). rewrite lookup_app_r by lia.
      by rewrite Nat.sub_diag. }
    rewrite Hlk. cbn [from_option id].
    unfold fullRows. rewrite !filter_app, length_app.
    destruct (rowFull row) eqn:Hfull.
    + rewrite clear_row
        by (rewrite !length_app, length_replicate; cbn; lia).
      assert (Htake : take (c + length P) (replicate c emptyRow ++ (P ++ [row]) ++ D)
                      = replicate c emptyRow ++ P).
      { rewrite <- !(assoc_L (++)), (assoc_L (++) _ P).
        apply take_app_length'. rewrite length_app, length_replicate. lia. }
      assert (Hdrop : drop (S (c + length P)) (replicate c emptyRow ++ (P ++ [row]) ++ D)
                      = D).
      { rewrite <- !(assoc_L (++)). rewrite (assoc_L (++) _ P), (assoc_L (++) _ [row]).
        apply drop_app_length'. rewrite !length_app, length_replicate. cbn. lia. }
      rewrite Htake, Hdrop.
      change (emptyRow :: (replicate c emptyRow ++ P) ++ D)
        with ((replicate (S c) emptyRow ++ P) ++ D).
      rewrite <- (assoc_L (++)).
      replace (S (c + length P)) with (S c + length P)%nat by lia.
      rewrite to_int32_small by lia.
      rewrite IH by lia.
      rewrite filter_cons_True, filter_cons_False by (rewrite ?Hfull; done).
      rewrite filter_nil, app_nil_r. cbn [length].
      unfold fullRows.
      set (x := length (filter _ P)).
      replace (c + (x + 1))%nat with (S c + x)%nat by lia.
      replace (k + Z.of_nat (x + 1)) with (k + 1 + Z.of_nat x) by lia.
      reflexivity.
    + rewrite <- (assoc_L (++) P). cbn [app].
      rewrite IH by lia.
      rewrite filter_cons_False, filter_cons_True by (rewrite ?Hfull; done).
      rewrite filter_nil. cbn [length]. unfold fullRows.
      rewrite <- (assoc_L (++)). cbn [app].
      set (x := length (filter _ P)).
      replace (c + (x + 0))%nat with (c + x)%nat by lia.
      replace (k + Z.of_nat (x + 0)) with (k + Z.of_nat x) by lia.
      reflexivity.
Qed.

(** X18 — [tetrisClearLines].  On a board of 20 rows the row loop ends,
    and it leaves the rows that were not full in their order at the bottom,
    with one empty row on top for each full row removed.  If between one
    and four rows were full, the line count grows by that number, the score
    by 100/300/500/800 times the level, the level becomes
    [1 + lines / 10] and the drop interval is [max 100 (500 - 50 (level - 1))];
    if none was full, nothing but the (unchanged) board is written; with
    five or more full rows the score table is read past its end. *)
Theorem tetrisClearLines_removes_full_rows t :
  length (tetrisBoard t) = TETRIS_ROWS ->
  0 <= tetrisLines t < 1000000 -> 0 <= tetrisScore t < 1000000000 ->
  1 <= tetrisLevel t < 100000 ->
  let k := fullRows (tetrisBoard t) in
  let b' := replicate k emptyRow
            ++ filter (fun row => rowFull row = false) (tetrisBoard t) in
  clearLoop (2 * TETRIS_ROWS) TETRIS_ROWS (tetrisBoard t) 0
    = Some (b', Z.of_nat k) /\
  length b' = TETRIS_ROWS /\
  tetrisClearLines t =
    match k with
    | O => Some (mkTetris b' (tetrisScore t) (tetrisLevel t) (tetrisLines t)
                          (tetrisDropInterval t))
    | S _ =>
        match points !! k with
        | Some pts =>
            let lines := tetrisLines t + Z.of_nat k in
            let level := 1 + lines / 10 in
            Some (mkTetris b' (tetrisScore t + pts * tetrisLevel t) level lines
                    (Z.max 100 (500 - 50 * (level - 1))))
        | None => None
        end
    end /\
  ((4 < k)%nat <-> tetrisClearLines t = None).
Proof.
  intros Hlen Hlines Hscore Hlevel k b'.
  assert (Hloop : clearLoop (2 * TETRIS_ROWS) TETRIS_ROWS (tetrisBoard t) 0
                  = Some (b', Z.of_nat k)).
  { pose proof (clearLoop_spec (tetrisBoard t) (2 * TETRIS_ROWS) 0 [] 0) as H.
    rewrite Hlen in H. cbn [replicate app Nat.add] in H.
    rewrite !app_nil_r in H. rewrite H; [done| |lia|unfold TETRIS_ROWS; lia].
    lia. }
  assert (Hk : (k <= TETRIS_ROWS)%nat).
  { unfold k, fullRows. rewrite <- Hlen. apply length_filter. }
  assert (Hb' : length b' = TETRIS_ROWS).
  { unfold b'. rewrite length_app, length_replicate.
    pose proof (filter_app_complement (fun row => rowFull row = true) (tetrisBoard t)) as Hp.
    apply Permutation_length in Hp. rewrite length_app in Hp.
    rewrite (list_filter_iff (fun row => rowFull row = false)
                             (fun row => ~ rowFull row = true)).
    - unfold k, fullRows. lia.
    - intros row. by destruct (rowFull row). }
  assert (Hcl : tetrisClearLines t =
    match k with
    | O => Some (mkTetris b' (tetrisScore t) (tetrisLevel t) (tetrisLines t)
                          (tetrisDropInterval t))
    | S _ =>
        match points !! k with
        | Some pts =>
            let lines := tetrisLines t + Z.of_nat k in
            let level := 1 + lines / 10 in
            Some (mkTetris b' (tetrisScore t + pts * tetrisLevel t) level lines
                    (Z.max 100 (500 - 50 * (level - 1))))
        | None => None
        end
    end).
  { unfold tetrisClearLines. rewrite Hloop.
    destruct k as [|k'] eqn:Ek; [done|].
    destruct (Z.gtb_spec (Z.of_nat (S k')) 0); [|lia].
    rewrite Nat2Z.id.
    destruct (points !! S k') as [pts|] eqn:Hp; [|done].
    assert (Hpts : 0 <= pts <= 800).
    { apply list_elem_of_lookup_2 in Hp. unfold points in Hp.
      repeat (apply elem_of_cons in Hp as [->|Hp]; [lia|]).
      by apply elem_of_nil in Hp. }
    unfold TETRIS_ROWS in Hk. cbn zeta.
    rewrite (to_int32_small (tetrisLines t + _)) by lia.
    rewrite (to_int32_small (pts * tetrisLevel t)) by nia.
    rewrite (to_int32_small (tetrisScore t + _)) by nia.
    rewrite Z.quot_div_nonneg by lia.
    assert (0 <= (tetrisLines t + Z.of_nat (S k')) / 10 < 1000000).
    { split; [apply Z.div_pos; lia|]. apply Z.div_lt_upper_bound; lia. }
    rewrite (to_int32_small (1 + _)) by lia.
    rewrite (to_int32_small (1 + _ - 1)) by lia.
    rewrite (to_int32_small (_ * 50)) by lia.
    rewrite (to_int32_small (500 - _)) by lia.
    do 3 f_equal. lia. }
  split; [done|]. split; [done|]. split; [done|].
  rewrite Hcl. unfold TETRIS_ROWS in Hk.
  destruct k as [|[|[|[|[|k']]]]]; cbn; split; intros H; try done; try lia.
Qed.

Lemma tetrisClearLines_removes_full_rows_witness :
  let full := replicate TETRIS_COLS 3 in
  let part := 5 :: replicate 9 0 in
  let t := mkTetris (replicate 17 emptyRow ++ [full; part; full]) 0 1 9 500 in
  tetrisClearLines t
  = Some (mkTetris (replicate 19 emptyRow ++ [part]) 300 2 11 450).
Proof.
  cbn zeta.
  pose proof (tetrisClearLines_removes_full_rows
    (mkTetris (replicate 17 emptyRow
               ++ [replicate TETRIS_COLS 3; 5 :: replicate 9 0; replicate TETRIS_COLS 3])
              0 1 9 500)
    ltac:(reflexivity) ltac:(cbn; lia) ltac:(cbn; lia) ltac:(cbn; lia))
    as (_ & _ & H & _).
  rewrite H. reflexivity.
Defined.

(** ** File list: natural order *)

Lemma scanNum_length s : forall acc, (length (scanNum acc s).2 <= length s)%nat.
Proof.
  induction s as [|c r IH]; intros acc; cbn; [lia|].
  destruct (isdigit c); cbn; [|lia]. specialize (IH (to_int32 (acc * 10 + (c - 48)))). lia.
Qed.

Lemma scanNum_digit c r acc :
  isdigit c = true -> (length (scanNum acc (c :: r)).2 <= length r)%nat.
Proof. intros Hc. cbn. rewrite Hc. apply scanNum_length. Qed.

Lemma naturalCompareLoop_total f : forall a b,
  (length a <= f)%nat ->
  exists r, naturalCompareLoop f a b = Some r /\ (r = -1 \/ r = 0 \/ r = 1).
Proof.
  induction f as [|f IH]; intros a b Hf.
  - destruct a; [|cbn in Hf; lia]. destruct b; cbn; eauto.
  - destruct a as [|ca ra], b as [|cb rb]; cbn [naturalCompareLoop]; eauto.
    cbn [length] in Hf.
    destruct (isdigit ca && isdigit cb) eqn:Hd.
    + apply andb_true_iff in Hd as [Ha Hb].
      pose proof (scanNum_digit ca ra 0 Ha) as Hla.
      destruct (scanNum 0 (ca :: ra)) as [numA a'].
      destruct (scanNum 0 (cb :: rb)) as [numB b'].
      destruct (negb (numA =? numB)).
      * destruct (numA <? numB); eauto.
      * apply IH. cbn in Hla. lia.
    + cbn zeta. destruct (negb (tolower ca =? tolower cb)).
      * destruct (tolower ca <? tolower cb); eauto.
      * apply IH. lia.
Qed.

Lemma naturalCompareLoop_fuel f1 : forall f2 a b,
  (length a <= f1)%nat -> (length b <= f2)%nat ->
  naturalCompareLoop f1 a b = naturalCompareLoop f2 a b.
Proof.
  induction f1 as [|f1 IH]; intros f2 a b H1 H2.
  - destruct a; [|cbn in H1; lia]. destruct b, f2; reflexivity.
  - destruct a as [|ca ra], b as [|cb rb]; try (destruct f2; reflexivity).
    destruct f2 as [|f2]; [cbn in H2; lia|].
    cbn [naturalCompareLoop]. cbn [length] in H1, H2.
    destruct (isdigit ca && isdigit cb) eqn:Hd.
    + apply andb_true_iff in Hd as [Ha Hb].
      pose proof (scanNum_digit ca ra 0 Ha) as Hla.
      pose proof (scanNum_digit cb rb 0 Hb) as Hlb.
      destruct (scanNum 0 (ca :: ra)) as [numA a'].
      destruct (scanNum 0 (cb :: rb)) as [numB b'].
      destruct (negb (numA =? numB)); [done|].
      cbn in Hla, Hlb. apply IH; lia.
    + cbn zeta. destruct (negb (tolower ca =? tolower cb)); [done|].
      apply IH; lia.
Qed.

Lemma naturalCompareLoop_antisym f : forall a b,
  (length a <= f)%nat -> (length b <= f)%nat ->
  naturalCompareLoop f b a = Z.opp <$> naturalCompareLoop f a b.
Proof.
  induction f as [|f IH]; intros a b Ha Hb.
  - destruct a; [|cbn in Ha; lia]. destruct b; [|cbn in Hb; lia]. reflexivity.
  - destruct a as [|ca ra], b as [|cb rb]; try reflexivity.
    cbn [naturalCompareLoop]. cbn [length] in Ha, Hb.
    rewrite (andb_comm (isdigit cb)).
    destruct (isdigit ca && isdigit cb) eqn:Hd.
    + apply andb_true_iff in Hd as [Hda Hdb].
      pose proof (scanNum_digit ca ra 0 Hda) as Hla.
      pose proof (scanNum_digit cb rb 0 Hdb) as Hlb.
      destruct (scanNum 0 (ca :: ra)) as [numA a'].
      destruct (scanNum 0 (cb :: rb)) as [numB b'].
      rewrite (Z.eqb_sym numB numA).
      destruct (Z.eqb_spec numA numB) as [->|Hne]; cbn [negb].
      * cbn in Hla, Hlb. apply IH; lia.
      * cbn. f_equal.
        destruct (Z.ltb_spec numA numB), (Z.ltb_spec numB numA); lia.
    + cbn zeta. rewrite (Z.eqb_sym (tolower cb)).
      destruct (Z.eqb_spec (tolower ca) (tolower cb)) as [Heq|Hne]; cbn [negb].
      * apply IH; lia.
      * cbn. f_equal.
        destruct (Z.ltb_spec (tolower ca) (tolower cb)),
                 (Z.ltb_spec (tolower cb) (tolower ca)); lia.
Qed.

Lemma naturalCompareLoop_refl f : forall a,
  (length a <= f)%nat -> naturalCompareLoop f a a = Some 0.
Proof.
  induction f as [|f IH]; intros a Ha.
  - destruct a; [done|cbn in Ha; lia].
  - destruct a as [|ca ra]; [done|]. cbn [naturalCompareLoop]. cbn [length] in Ha.
    destruct (isdigit ca && isdigit ca) eqn:Hd.
    + apply andb_true_iff in Hd as [Hda _].
      pose proof (scanNum_digit ca ra 0 Hda) as Hla.
      destruct (scanNum 0 (ca :: ra)) as [numA a'].
      rewrite Z.eqb_refl. cbn [negb]. cbn in Hla. apply IH. lia.
    + cbn zeta. rewrite Z.eqb_refl. cbn [negb]. apply IH. lia.
Qed.

(** X19 — [naturalCompare].  The comparison loop ends for every pair of
    names (each iteration consumes at least one character of [a]), the
    result is -1, 0 or 1, a name compares equal to itself, and swapping the
    arguments negates the result (also where a digit run overflows the
    32-bit [long]), so the sort never sees a pair that is "greater" both
    ways round. *)
Theorem naturalCompare_total_antisymmetric a b :
  exists r,
    naturalCompare a b = Some r /\ (r = -1 \/ r = 0 \/ r = 1) /\
    naturalCompare b a = Some (- r) /\
    naturalCompare a a = Some 0.
Proof.
  unfold naturalCompare.
  destruct (naturalCompareLoop_total (length a) a b ltac:(lia)) as (r & Hr & Hcases).
  exists r. split; [done|]. split; [done|]. split.
  - set (F := (length a `max` length b)%nat).
    rewrite (naturalCompareLoop_fuel (length b) F b a) by lia.
    rewrite (naturalCompareLoop_antisym F a b) by lia.
    rewrite <- (naturalCompareLoop_fuel (length a) F a b) by lia.
    by rewrite Hr.
  - by apply naturalCompareLoop_refl.
Qed.

(** "file2" sorts before "file10", and case is ignored. *)
Example naturalCompare_numbers :
  naturalCompare [102; 105; 108; 101; 50] [102; 105; 108; 101; 49; 48] = Some (-1) /\
  naturalCompare [70; 73; 76; 69; 50] [102; 105; 108; 101; 50] = Some 0 /\
  naturalCompare [97; 48; 49] [97; 49] = Some 0.
Proof. repeat split. Qed.

(** ** File list: sorting *)

Lemma bub_perm {A} (sw : A -> A -> bool) l : forall a, bub sw a l ≡ₚ a :: l.
Proof.
  induction l as [|b r IH]; intros a; cbn; [done|].
  destruct (sw a b).
  - rewrite IH. apply Permutation_swap.
  - by rewrite IH.
Qed.

Lemma bub_snoc {A} (sw : A -> A -> bool) l : forall a,
  exists pre x, bub sw a l = pre ++ [x] /\ length pre = length l.
Proof.
  induction l as [|b r IH]; intros a; cbn.
  - by exists [], a.
  - destruct (sw a b).
    + destruct (IH a) as (pre & x & -> & Hl). exists (b :: pre), x. cbn. by rewrite Hl.
    + destruct (IH b) as (pre & x & -> & Hl). exists (a :: pre), x. cbn. by rewrite Hl.
Qed.

Lemma bub_nonempty {A} (sw : A -> A -> bool) l a : bub sw a l <> [].
Proof. destruct l as [|b r]; cbn; [done|]. by destruct (sw a b). Qed.

(** A file anywhere in the pass ends up in its last cell. *)
Lemma bub_last_file (sw : list Z * bool -> list Z * bool -> bool) l :
  (forall a b, a.2 = false -> b.2 = true -> sw a b = true) ->
  (forall a b, sw a b = true -> a.2 = true -> b.2 = true) ->
  forall a pre x, bub sw a l = pre ++ [x] ->
  (exists e, e ∈ a :: l /\ e.2 = false) -> x.2 = false.
Proof.
  intros H1 H2. induction l as [|b r IH]; intros a pre x Hb (e & He & Hf).
  - cbn in Hb. destruct pre as [|? [|? ?]]; try discriminate Hb.
    injection Hb as <-. apply list_elem_of_singleton in He. by subst.
  - cbn in Hb. destruct (sw a b) eqn:Hsw.
    + destruct pre as [|p pre]; cbn in Hb.
      { injection Hb as _ Hb. by apply bub_nonempty in Hb. }
      injection Hb as <- Hb. apply (IH a pre x Hb).
      destruct (a.2) eqn:Ha; [|exists a; split; [by left|done]].
      pose proof (H2 a b Hsw Ha) as Hbd.
      apply elem_of_cons in He as [->|He]; [congruence|].
      apply elem_of_cons in He as [->|He]; [congruence|].
      exists e. split; [by right|done].
    + destruct pre as [|p pre]; cbn in Hb.
      { injection Hb as _ Hb. by apply bub_nonempty in Hb. }
      injection Hb as <- Hb. apply (IH b pre x Hb).
      apply elem_of_cons in He as [->|He]; [|by exists e].
      destruct (b.2) eqn:Hbd; [|exists b; split; [by left|done]].
      rewrite (H1 a b Hf Hbd) in Hsw. done.
Qed.

Lemma swapEntries_file_dir a b : a.2 = false -> b.2 = true -> swapEntries a b = true.
Proof. unfold swapEntries, wantSwap. by intros -> ->. Qed.

Lemma swapEntries_dir a b : swapEntries a b = true -> a.2 = true -> b.2 = true.
Proof.
  unfold swapEntries, wantSwap. intros Hs Ha. rewrite Ha in Hs. cbn in Hs.
  by destruct (b.2).
Qed.

Lemma wantSwap_total nj dj nj1 dj1 :
  wantSwap nj dj nj1 dj1 = Some (swapEntries (nj, dj) (nj1, dj1)).
Proof.
  unfold swapEntries. cbn. unfold wantSwap.
  destruct (negb dj && dj1); [done|]. destruct (eqb dj dj1); [|done].
  unfold naturalCompare. destruct (naturalCompareLoop_total (length nj) nj nj1 ltac:(lia)) as (r & -> & _). done.
Qed.

(** One comparison, seen on the list of pairs. *)
Lemma sortStep_zip j names dirs (pre : list (list Z * bool)) a b post :
  length names = length dirs ->
  zip names dirs = pre ++ a :: b :: post -> length pre = j ->
  exists names' dirs',
    sortStep j (names, dirs) = Some (names', dirs') /\
    length names' = length dirs' /\
    zip names' dirs' = if swapEntries a b then pre ++ b :: a :: post
                       else pre ++ a :: b :: post.
Proof.
  intros Hlen Hz Hj. unfold sortStep.
  assert (Hza : zip names dirs !! j = Some a).
  { rewrite Hz, lookup_app_r by lia. by replace (j - length pre)%nat with 0%nat by lia. }
  assert (Hzb : zip names dirs !! S j = Some b).
  { rewrite Hz, lookup_app_r by lia. by replace (S j - length pre)%nat with 1%nat by lia. }
  apply lookup_zip_with_Some in Hza as (nj & dj & -> & Hnj & Hdj).
  apply lookup_zip_with_Some in Hzb as (nj1 & dj1 & -> & Hnj1 & Hdj1).
  rewrite Hnj, Hnj1, Hdj, Hdj1, wantSwap_total.
  destruct (swapEntries (nj, dj) (nj1, dj1)).
  - eexists _, _. split; [reflexivity|]. split; [by rewrite !length_insert|].
    rewrite <- !(insert_zip_with pair). rewrite Hz.
    rewrite <- Hj.
    rewrite (insert_app_r_alt pre _ (length pre)) by lia.
    rewrite Nat.sub_diag. cbn [insert list_insert].
    rewrite (insert_app_r_alt pre _ (S (length pre))) by lia.
    replace (S (length pre) - length pre)%nat with 1%nat by lia. reflexivity.
  - eexists _, _. split; [reflexivity|]. split; [done|]. done.
Qed.

Lemma sortInner_zip seg : forall j f (pre : list (list Z * bool)) a post,
  length f.1 = length f.2 ->
  zip f.1 f.2 = pre ++ a :: seg ++ post -> length pre = j ->
  exists f',
    sortInner (length seg) j f = Some f' /\
    length f'.1 = length f'.2 /\
    zip f'.1 f'.2 = pre ++ bub swapEntries a seg ++ post.
Proof.
  induction seg as [|b seg IH]; intros j [names dirs] pre a post Hlen Hz Hj.
  - exists (names, dirs). done.
  - cbn [length sortInner]. cbn [fst snd] in *.
    destruct (sortStep_zip j names dirs pre a b (seg ++ post) Hlen Hz Hj)
      as (names' & dirs' & -> & Hlen' & Hz').
    cbn [mbind option_bind]. cbn [bub].
    destruct (swapEntries a b).
    + destruct (IH (S j) (names', dirs') (pre ++ [b]) a post) as (f' & Hf' & Hl' & Hzf').
      * done.
      * cbn [fst snd]. rewrite Hz'. by rewrite <- (assoc_L (++)).
      * rewrite length_app. cbn. lia.
      * exists f'. split; [done|]. split; [done|].
        rewrite Hzf'. by rewrite <- (assoc_L (++)).
    + destruct (IH (S j) (names', dirs') (pre ++ [a]) b post) as (f' & Hf' & Hl' & Hzf').
      * done.
      * cbn [fst snd]. rewrite Hz'. by rewrite <- (assoc_L (++)).
      * rewrite length_app. cbn. lia.
      * exists f'. split; [done|]. split; [done|].
        rewrite Hzf'. by rewrite <- (assoc_L (++)).
Qed.

Lemma dirsFirst_cons_true ds : dirsFirst (true :: ds) = dirsFirst ds.
Proof. reflexivity. Qed.

Lemma forallb_negb_dirsFirst ds : forallb negb ds = true -> dirsFirst ds = true.
Proof.
  induction ds as [|[|] r IH]; cbn; try done.
Qed.

Lemma sortOuter_zip fuel : forall i n f (pre suf post : list (list Z * bool)),
  length f.1 = length f.2 ->
  zip f.1 f.2 = pre ++ suf ++ post ->
  length pre = S fuel -> length suf = i ->
  n = Z.of_nat (length pre + length suf) ->
  ((exists e, e ∈ pre /\ e.2 = false) -> forallb negb (suf.*2) = true) ->
  dirsFirst (suf.*2) = true ->
  exists f' body,
    sortOuter fuel i n f = Some f' /\
    length f'.1 = length f'.2 /\
    zip f'.1 f'.2 = body ++ post /\
    body ≡ₚ pre ++ suf /\
    dirsFirst (body.*2) = true.
Proof.
  induction fuel as [|fuel IH]; intros i n f pre suf post Hlen Hz Hpre Hsuf Hn Hbound Hsorted.
  - exists f, (pre ++ suf). cbn [sortOuter]. split; [done|]. split; [done|].
    split; [by rewrite Hz, (assoc_L (++))|]. split; [done|].
    destruct pre as [|a [|? ?]]; try discriminate Hpre. cbn.
    destruct a as [na [|]]; cbn; [done|].
    apply Hbound. exists (na, false). split; [by left|done].
  - cbn [sortOuter].
    destruct pre as [|a seg]; [discriminate Hpre|]. cbn [length] in Hpre.
    replace (Z.to_nat (n - Z.of_nat i - 1)) with (length seg) by (cbn [length] in Hn; lia).
    destruct (sortInner_zip seg 0 f [] a (suf ++ post) Hlen Hz eq_refl)
      as (f1 & -> & Hlen1 & Hz1).
    cbn [mbind option_bind]. cbn [app] in Hz1.
    destruct (bub_snoc swapEntries seg a) as (pre' & x & Hb & Hlp).
    rewrite Hb in Hz1. rewrite <- (assoc_L (++)) in Hz1. cbn [app] in Hz1.
    assert (Hperm : pre' ++ [x] ≡ₚ a :: seg) by (rewrite <- Hb; apply bub_perm).
    assert (Hx : (exists e, e ∈ a :: seg /\ e.2 = false) -> x.2 = false).
    { apply (bub_last_file swapEntries seg swapEntries_file_dir swapEntries_dir a pre' x Hb). }
    destruct (IH (S i) n f1 pre' (x :: suf) post) as (f' & body & Hf' & Hl' & Hz' & Hp' & Hd').
    + done.
    + done.
    + lia.
    + cbn. lia.
    + cbn [length] in *. lia.
    + intros (e & He & Hf).
      assert (Hin : exists e, e ∈ a :: seg /\ e.2 = false).
      { exists e. split; [|done]. rewrite <- Hperm. apply elem_of_app. by left. }
      cbn. rewrite (Hx Hin). cbn. apply Hbound. done.
    + cbn. destruct (x.2) eqn:Hx2; [done|].
      apply Hbound. exists x. split; [|done].
      rewrite <- Hperm. apply elem_of_app. right. by left.
    + exists f', body. split; [done|]. split; [done|]. split; [done|].
      split; [|done]. rewrite Hp'.
      rewrite <- Hperm. rewrite <- (assoc_L (++)). done.
Qed.

(** X20 — [sortFiles].  For [fileCount] entries held in the two parallel
    arrays, the bubble sort runs without leaving the arrays, keeps each
    name together with its directory flag, only permutes the first
    [fileCount] entries and leaves the cells behind them alone, and puts
    every directory before every file, whatever [naturalCompare] says
    about the names. *)
Theorem sortFiles_permutes_dirs_first fileCount names dirs :
  length names = length dirs -> 0 <= fileCount <= Z.of_nat (length names) ->
  exists names' dirs',
    sortFiles fileCount (names, dirs) = Some (names', dirs') /\
    length names' = length names /\ length dirs' = length dirs /\
    entries fileCount (names', dirs') ≡ₚ entries fileCount (names, dirs) /\
    drop (Z.to_nat fileCount) (zip names' dirs')
      = drop (Z.to_nat fileCount) (zip names dirs) /\
    dirsFirst (take (Z.to_nat fileCount) dirs') = true.
Proof.
  intros Hlen Hn. unfold sortFiles, entries. cbn [fst snd].
  set (n := Z.to_nat fileCount).
  assert (Hzl : length (zip names dirs) = length names).
  { by apply length_zip_with_l_eq. }
  destruct n as [|m] eqn:Hm.
  - assert (fileCount = 0) as -> by lia. cbn.
    exists names, dirs. rewrite !take_0. repeat split; done.
  - replace (Z.to_nat (fileCount - 1)) with m by lia.
    set (body := take (S m) (zip names dirs)).
    set (post := drop (S m) (zip names dirs)).
    assert (Hbl : length body = S m) by (unfold body; rewrite length_take; lia).
    destruct (sortOuter_zip m 0 fileCount (names, dirs) body [] post)
      as (f' & body' & Hf' & Hl' & Hz' & Hp' & Hd'); try done.
    + cbn [fst snd app]. unfold body, post. by rewrite take_drop.
    + cbn [length]. lia.
    + destruct f' as [names' dirs']. cbn [fst snd] in *.
      rewrite app_nil_r in Hp'.
      assert (Hbl' : length body' = S m) by (by rewrite Hp').
      assert (Hzl' : length (zip names' dirs') = length names').
      { by apply length_zip_with_l_eq. }
      assert (Hlen' : length names' = length names).
      { rewrite <- Hzl', Hz', length_app, Hbl', <- Hzl.
        pose proof (take_drop (S m) (zip names dirs)) as Htd.
        fold body post in Htd. rewrite <- Htd, length_app. lia. }
      exists names', dirs'. split; [done|]. split; [done|].
      split; [congruence|]. split.
      { rewrite Hz', take_app_length' by done. done. }
      split.
      { rewrite Hz', drop_app_length' by done. done. }
      assert (Hd2 : take (S m) dirs' = body'.*2).
      { rewrite <- (take_app_length' body' post (S m)) by done.
        rewrite <- Hz'. rewrite fmap_take. f_equal.
        unfold zip. symmetry. apply snd_zip. lia. }
      by rewrite Hd2.
Qed.

Lemma sortFiles_permutes_dirs_first_witness :
  sortFiles 3 ([[98]; [97]; [99]; [122]], [false; false; true; true])
  = Some ([[99]; [97]; [98]; [122]], [true; false; false; true]).
Proof.
  destruct (sortFiles_permutes_dirs_first 3 [[98]; [97]; [99]; [122]]
              [false; false; true; true] ltac:(reflexivity) ltac:(cbn; lia))
    as (names' & dirs' & H & _).
  reflexivity.
Defined.

(** ** Taskbar auto-hide *)

Lemma zorder_cells_open d :
  deskInv d ->
  forall j, (j < deskWinCount d)%nat ->
    exists r, 0 <= rd (deskWinOrder d) j /\
              deskWins d !! Z.to_nat (rd (deskWinOrder d) j) = Some r /\
              DeskWindow.open r = true.
Proof.
  intros [Hw Ho Hc Hnd Hmem _] j Hj.
  assert (Hin : rd (deskWinOrder d) j ∈ zorder d).
  { apply list_elem_of_lookup. exists j. unfold zorder.
    rewrite lookup_take_lt by done. apply lookup_rd. lia. }
  apply Hmem in Hin as [Hge Hop]. unfold slotOpen in Hop.
  destruct (deskWins d !! Z.to_nat (rd (deskWinOrder d) j)) as [r|]; [|done].
  by exists r.
Qed.

Lemma coverScan_spec d fuel : forall i,
  (i + fuel)%nat = deskWinCount d ->
  (forall j, (j < deskWinCount d)%nat ->
     exists r, 0 <= rd (deskWinOrder d) j /\
               deskWins d !! Z.to_nat (rd (deskWinOrder d) j) = Some r /\
               DeskWindow.open r = true) ->
  exists c, coverScan fuel i d = Some c /\
    (c = true <-> exists j, (i <= j < deskWinCount d)%nat /\ coversAt d j = true).
Proof.
  induction fuel as [|f IH]; intros i Hi Hall.
  - exists false. split; [done|]. split; [done|]. intros (j & Hj & _). lia.
  - cbn [coverScan]. destruct (Hall i ltac:(lia)) as (r & Hge & Hr & Hop).
    destruct (Z.ltb_spec (rd (deskWinOrder d) i) 0); [lia|].
    rewrite Hr, Hop. cbn [andb].
    destruct (coversTaskbar r) eqn:Hc.
    + exists true. split; [done|]. split; [|done]. intros _.
      exists i. split; [lia|]. unfold coversAt. by rewrite Hr.
    + destruct (IH (S i) ltac:(lia) Hall) as (c & Hres & Hspec).
      exists c. split; [done|]. rewrite Hspec. split.
      * intros (j & Hj & Hcj). exists j. split; [lia|done].
      * intros (j & Hj & Hcj). exists j. split; [|done].
        destruct (decide (j = i)) as [->|]; [|lia].
        unfold coversAt in Hcj. rewrite Hr in Hcj. congruence.
Qed.

(** X21 — Taskbar auto-hide.  In a well-formed registry
    [updateTaskbarState] completes, and afterwards the taskbar is hidden
    exactly when some window of the z-order covers it (fullscreen,
    maximized, or bottom edge below row 115) while the cursor is outside
    the trigger area (the bottom two rows if the taskbar was hidden, the
    whole band if it was shown) and outside an open start menu.  The
    function never opens the start menu, and the start menu is never left
    open with the taskbar hidden.  With no window open the taskbar is
    shown. *)
Theorem updateTaskbarState_hides_iff_covered p d tb :
  deskInv d ->
  exists tb',
    updateTaskbarState p d tb = Some tb' /\
    (taskbarHidden tb' = true <->
       (exists j, (j < deskWinCount d)%nat /\ coversAt d j = true) /\
       mouseY p < (if taskbarHidden tb then SCREEN_HEIGHT - 2
                   else SCREEN_HEIGHT - DESK_TASKBAR_H) /\
       cursorInStartMenu p tb = false) /\
    (startMenuOpen tb' = true -> startMenuOpen tb = true) /\
    (taskbarHidden tb' = true -> startMenuOpen tb' = false) /\
    (deskWinCount d = 0%nat -> taskbarHidden tb' = false).
Proof.
  intros Hinv.
  destruct (coverScan_spec d (deskWinCount d) 0 ltac:(lia) (zorder_cells_open d Hinv))
    as (c & Hc & Hspec).
  unfold updateTaskbarState, isTaskbarCovered. rewrite Hc.
  eexists. split; [reflexivity|]. cbn [taskbarHidden startMenuOpen].
  assert (Hbar : cursorInTaskbar p tb = false <->
                 mouseY p < (if taskbarHidden tb then SCREEN_HEIGHT - 2
                             else SCREEN_HEIGHT - DESK_TASKBAR_H)).
  { unfold cursorInTaskbar. destruct (taskbarHidden tb).
    - destruct (Z.geb_spec (mouseY p) (SCREEN_HEIGHT - 2)); split; (done || lia).
    - destruct (Z.geb_spec (mouseY p) (SCREEN_HEIGHT - DESK_TASKBAR_H));
        split; (done || lia). }
  assert (Hex : c = true <-> exists j, (j < deskWinCount d)%nat /\ coversAt d j = true).
  { rewrite Hspec. split; intros (j & Hj & Hcj); exists j; (split; [lia|done]). }
  split; [|split; [|split]].
  - rewrite <- Hbar, <- Hex.
    destruct (cursorInTaskbar p tb), (cursorInStartMenu p tb), c; cbn;
      intuition congruence.
  - by destruct (startMenuOpen tb), (cursorInTaskbar p tb), (cursorInStartMenu p tb).
  - destruct (cursorInTaskbar p tb), (cursorInStartMenu p tb), (startMenuOpen tb);
      cbn; done.
  - intros H0. destruct c; [|by destruct (_ || _)].
    destruct (proj1 Hex eq_refl) as (j & Hj & _). lia.
Qed.

Lemma updateTaskbarState_hides_iff_covered_witness :
  let d := deskOpenWindow 1 "Calc" emptyDesk in
  updateTaskbarState (mkPointer 120 67 120 67 false false 0 0 (-1)) d
    (mkTaskbar false false)
  = Some (mkTaskbar (coversAt d 0) false).
Proof.
  cbn zeta.
  destruct (updateTaskbarState_hides_iff_covered
              (mkPointer 120 67 120 67 false false 0 0 (-1))
              (deskOpenWindow 1 "Calc" emptyDesk) (mkTaskbar false false))
    as (tb' & H & _).
  - apply deskOpenWindow_inv, emptyDesk_inv.
  - reflexivity.
Defined.

(** ** Screenshot chord and storage policy over whole runs *)

Lemma countFired_cons o os :
  countFired (o :: os) = ((if fired o then 1 else 0) + countFired os)%nat.
Proof.
  unfold countFired. destruct (fired o) eqn:Hf.
  - by rewrite filter_cons_True.
  - rewrite filter_cons_False; [done|]. by rewrite Hf.
Qed.

(** After the screenshot was taken nothing fires again until both buttons
    are up. *)
Lemma runChord_taken frames : forall s,
  screenshotHoldStart s <> 0 -> screenshotTaken s = true ->
  screenshotComboUsed s = true ->
  Forall (fun f => bothReleased f = false) frames ->
  countFired (runChord frames s).2 = 0%nat.
Proof.
  induction frames as [|[[t a] b] frames IH]; intros s Hh Ht Hu Hall; [done|].
  apply Forall_cons in Hall as [Hf Hall]. cbn [runChord].
  assert (Hstep : chordStep t a b s = (s, mkChordOut false true)).
  { unfold chordStep. destruct a, b; cbn in Hf |- *; try done.
    - destruct (Z.eqb_spec (screenshotHoldStart s) 0); [done|].
      by rewrite Ht.
    - by rewrite Hu.
    - by rewrite Hu. }
  rewrite Hstep. specialize (IH s Hh Ht Hu Hall).
  destruct (runChord frames s) as [s2 os]. cbn [snd] in *.
  by rewrite countFired_cons.
Qed.

(** X22 — One screenshot per chord session.  From any state the loop can
    be in (a recorded start implies the "used" flag), over any run of
    frames in which the two buttons are never both up, [takeScreenshot] is
    called at most once; and a frame that calls it has both buttons down,
    comes at least 1000 ms (modulo 2^32) after the recorded start of the
    session, and leaves the "taken" and "used" flags set. *)
Theorem chord_fires_once_per_session frames s :
  chordInv s ->
  Forall (fun f => bothReleased f = false) frames ->
  (countFired (runChord frames s).2 <= 1)%nat /\
  (forall t a b, fired (chordStep t a b s).2 = true ->
     a = true /\ b = true /\
     let s' := (chordStep t a b s).1 in
     1000 <= sub32 t (screenshotHoldStart s') /\ screenshotHoldStart s' <> 0 /\
     screenshotTaken s' = true /\ screenshotComboUsed s' = true).
Proof.
  intros Hinv Hall.
  assert (Hfire : forall s t a b, chordInv s ->
     fired (chordStep t a b s).2 = true ->
     a = true /\ b = true /\
     let s' := (chordStep t a b s).1 in
     1000 <= sub32 t (screenshotHoldStart s') /\ screenshotHoldStart s' <> 0 /\
     screenshotTaken s' = true /\ screenshotComboUsed s' = true).
  { clear. intros s t a b Hinv. unfold chordStep.
    destruct a, b; cbn; try (destruct (screenshotComboUsed s); cbn; done).
    destruct (Z.eqb_spec (screenshotHoldStart s) 0) as [He|Hne]; cbn.
    - unfold sub32. rewrite Z.sub_diag. cbn. done.
    - destruct (screenshotTaken s); cbn; [done|].
      destruct (Z.geb_spec (sub32 t (screenshotHoldStart s)) 1000); cbn; [|done].
      intros _. repeat split; try done. by apply Hinv. }
  split; [|intros t a b; by apply Hfire].
  revert s Hinv. induction frames as [|[[t a] b] frames IH]; intros s Hinv; [cbn; lia|].
  apply Forall_cons in Hall as [Hf Hall]. cbn [runChord].
  specialize (IH Hall).
  pose proof (Hfire s t a b Hinv) as Hs.
  pose proof (chordStep_inv t a b s Hinv) as Hinv1.
  destruct (chordStep t a b s) as [s1 o] eqn:Hstep. cbn [fst snd] in Hs, Hinv1.
  destruct (fired o) eqn:Hfo.
  - destruct (Hs eq_refl) as (_ & _ & _ & Hh & Ht & Hu).
    pose proof (runChord_taken frames s1 Hh Ht Hu Hall) as Hz.
    destruct (runChord frames s1) as [s2 os]. cbn [snd] in *.
    rewrite countFired_cons, Hfo, Hz. lia.
  - specialize (IH s1 Hinv1).
    destruct (runChord frames s1) as [s2 os]. cbn [snd] in *.
    rewrite countFired_cons, Hfo. lia.
Qed.

Lemma chord_fires_once_per_session_witness :
  (countFired (runChord (constFrames FRAME_MS 1000 true true 40
                         ++ constFrames FRAME_MS 2320 true false 10
                         ++ constFrames FRAME_MS 2650 true true 40) chordInit).2
   <= 1)%nat.
Proof.
  apply (chord_fires_once_per_session
           (constFrames FRAME_MS 1000 true true 40
            ++ constFrames FRAME_MS 2320 true false 10
            ++ constFrames FRAME_MS 2650 true true 40) chordInit chordInit_inv).
  vm_compute. repeat constructor.
Defined.

Lemma closeAllWindows_inv d : deskInv d -> deskInv (closeAllWindows d).
Proof.
  intros [Hw Ho Hc Hnd Hmem _].
  destruct (closeAllWindows_closed d) as (H1 & H2 & H3 & H4).
  split.
  - cbn. by rewrite length_fmap.
  - done.
  - rewrite H1. lia.
  - rewrite H3. constructor.
  - intros z. rewrite H3. split; [by intros ?%elem_of_nil|].
    intros [_ Hop]. by rewrite H4 in Hop.
  - rewrite H1. lia.
Qed.

(** X23 — Storage supervision and the window registry.  Whatever the card
    does, one frame of supervision leaves a well-formed registry well
    formed.  The registry is written only on the frame on which a mounted
    card fails its probe for the second time in a row under the "require
    SD" policy: then every window is closed, the z-order is empty and no
    window has the focus.  On every other frame, and in every frame when
    storage is optional, the registry is returned as it was. *)
Theorem sdSupervise_keeps_registry t cardOk beginOk st d :
  deskInv d ->
  let r := sdSupervise t cardOk beginOk st d in
  deskInv r.1.2 /\
  (r.1.2 = d \/
   r.1.2 = closeAllWindows d /\ biosRequireSD st = true /\ cardOk = false /\
   sdCardMounted st = true /\ sdCardRemoved st = false /\
   1 <= sdCardWarningCount st /\ probed r.2 = true /\
   zorder r.1.2 = [] /\ activeWin r.1.2 = -1) /\
  (biosRequireSD st = false -> r.1.2 = d).
Proof.
  intros Hinv. cbn zeta. unfold sdSupervise.
  destruct (sdCardMounted st) eqn:Hm, (sdCardRemoved st) eqn:Hr; cbn [andb negb];
    try (split; [done|split; [by left|done]]).
  destruct (sub32 t (lastSDCheck st) >=? 2000); cbn [andb];
    try (split; [done|split; [by left|done]]).
  destruct cardOk; cbn [negb]; [split; [done|split; [by left|done]]|].
  destruct (Z.geb_spec (sdCardWarningCount st + 1) 2);
    [|split; [done|split; [by left|done]]].
  destruct (biosRequireSD st) eqn:Hb; [|split; [done|split; [by left|done]]].
  cbn [fst snd]. split; [by apply closeAllWindows_inv|].
  split; [|done]. right. repeat split; try done. lia.
Qed.

Lemma sdSupervise_keeps_registry_witness :
  let d := deskOpenWindow 1 "Calc" emptyDesk in
  let st := mkStorage true false 1 0 0 true false false 0 in
  zorder (sdSupervise 4000 false false st d).1.2 = [] /\
  deskInv (sdSupervise 4000 false false st d).1.2.
Proof.
  cbn zeta.
  destruct (sdSupervise_keeps_registry 4000 false false
              (mkStorage true false 1 0 0 true false false 0)
              (deskOpenWindow 1 "Calc" emptyDesk)) as (Hinv & _ & _).
  - apply deskOpenWindow_inv, emptyDesk_inv.
  - split; [reflexivity|exact Hinv].
Defined.

(** ** Screenshot file and image loader *)

Lemma lor_shiftl_small a b n :
  0 <= n -> 0 <= b < 2 ^ n -> Z.lor (Z.shiftl a n) b = a * 2 ^ n + b.
Proof.
  intros Hn Hb. rewrite <- Z.shiftl_mul_pow2 by done.
  assert (Hdisj : Z.land (Z.shiftl a n) b = 0).
  { apply Z.bits_inj'. intros m Hm. rewrite Z.land_spec, Z.bits_0.
    destruct (Z.lt_ge_cases m n).
    - by rewrite Z.shiftl_spec_low.
    - destruct (Z.eq_dec b 0) as [->|Hne]; [by rewrite Z.bits_0, andb_false_r|].
      rewrite (Z.bits_above_log2 b m), andb_false_r; [done|lia|].
      assert (Z.log2 b < n) by (apply Z.log2_lt_pow2; lia). lia. }
  rewrite (Z.add_nocarry_lxor _ _ Hdisj). symmetry. by apply Z.lxor_lor.
Qed.

(** The bytes of a pixel are its three fields shifted up, and the loader
    shifts them down again. *)
Lemma rgb565_roundtrip c :
  0 <= c < 65536 ->
  exists b g r, rgb565to888 c = [b; g; r] /\ rgb888to565 b g r = c /\
                0 <= b <= 255 /\ 0 <= g <= 255 /\ 0 <= r <= 255.
Proof.
  intros Hc. eexists _, _, _. split; [reflexivity|].
  unfold rgb888to565.
  change 31 with (Z.ones 5). change 63 with (Z.ones 6). change 255 with (Z.ones 8).
  rewrite !Z.land_ones by lia. rewrite !Z.shiftr_div_pow2 by lia.
  rewrite !(Z.shiftl_mul_pow2 _ 3), !(Z.shiftl_mul_pow2 _ 2) by lia.
  change (2 ^ 2) with 4. change (2 ^ 3) with 8. change (2 ^ 5) with 32.
  change (2 ^ 6) with 64. change (2 ^ 8) with 256. change (2 ^ 11) with 2048.
  assert (HB : (c mod 32 * 8) mod 256 = c mod 32 * 8)
    by (apply Z.mod_small; Z.div_mod_to_equations; lia).
  assert (HG : ((c / 32) mod 64 * 4) mod 256 = (c / 32) mod 64 * 4)
    by (apply Z.mod_small; Z.div_mod_to_equations; lia).
  assert (HR : ((c / 2048) mod 32 * 8) mod 256 = (c / 2048) mod 32 * 8)
    by (apply Z.mod_small; Z.div_mod_to_equations; lia).
  rewrite HB, HG, HR.
  rewrite !Z.div_mul by lia.
  set (R := (c / 2048) mod 32). set (G := (c / 32) mod 64). set (B := c mod 32).
  assert (HRr : 0 <= R < 32) by (unfold R; Z.div_mod_to_equations; lia).
  assert (HGr : 0 <= G < 64) by (unfold G; Z.div_mod_to_equations; lia).
  assert (HBr : 0 <= B < 32) by (unfold B; Z.div_mod_to_equations; lia).
  rewrite (Z.shiftl_mul_pow2 G 5) by lia.
  rewrite (lor_shiftl_small R (G * 2 ^ 5) 11) by lia.
  replace (R * 2 ^ 11 + G * 2 ^ 5) with (Z.shiftl (R * 64 + G) 5)
    by (rewrite Z.shiftl_mul_pow2 by lia; lia).
  rewrite (lor_shiftl_small (R * 64 + G) B 5) by lia.
  change (Z.ones 8) with 255. split; [|lia].
  unfold R, G, B. change (2 ^ 5) with 32. Z.div_mod_to_equations. lia.
Qed.

(** X24 — Pixel conversion round trip.  The three bytes [takeScreenshot]
    writes for an RGB565 pixel are bytes (0..255, in the order B, G, R),
    and the conversion [loadBMPFile] applies to them gives back the very
    same 16-bit value: a screenshot loses no colour information. *)
Theorem rgb565_to_888_and_back c :
  0 <= c < 65536 ->
  match rgb565to888 c with
  | [b; g; r] => rgb888to565 b g r = c /\
                 0 <= b <= 255 /\ 0 <= g <= 255 /\ 0 <= r <= 255
  | _ => False
  end.
Proof.
  intros Hc. destruct (rgb565_roundtrip c Hc) as (b & g & r & -> & H). exact H.
Qed.

Lemma rgb565_to_888_and_back_witness :
  rgb565to888 63519 = [248; 0; 248] /\ rgb888to565 248 0 248 = 63519.
Proof.
  pose proof (rgb565_to_888_and_back 63519 ltac:(lia)) as H.
  split; [reflexivity|]. exact (proj1 H).
Defined.

Lemma u32_le32 v :
  byteAt v 0 + 256 * byteAt v 1 + 65536 * byteAt v 2 + 16777216 * byteAt v 3
  = v mod 2 ^ 32.
Proof.
  unfold byteAt. change (256 ^ 0) with 1. change (256 ^ 1) with 256.
  change (256 ^ 2) with 65536. change (256 ^ 3) with 16777216.
  change (2 ^ 32) with 4294967296.
  Z.div_mod_to_equations. lia.
Qed.

Lemma u16_le16 v : 0 <= v < 65536 -> byteAt v 0 + 256 * byteAt v 1 = v.
Proof.
  intros Hv. unfold byteAt. change (256 ^ 0) with 1. change (256 ^ 1) with 256.
  Z.div_mod_to_equations. lia.
Qed.

Lemma length_bmpHeader w h : length (bmpHeader w h) = 54%nat.
Proof. reflexivity. Qed.

Lemma readBMPHeader_writeBMP w h body :
  0 < w < 2 ^ 31 -> 0 < h < 2 ^ 31 ->
  readBMPHeader (bmpHeader w h ++ body) = Some (mkBMPInfo w h true 54).
Proof.
  intros Hw Hh. unfold readBMPHeader.
  rewrite length_app, length_bmpHeader.
  destruct (Nat.ltb_spec (54 + length body) 54); [lia|].
  rewrite take_app_length' by apply (length_bmpHeader w h).
  change (rd (bmpHeader w h) 0) with 66. change (rd (bmpHeader w h) 1) with 77.
  cbn [Z.eqb Pos.eqb negb orb].
  change (u32_at (bmpHeader w h) 18)
    with (byteAt w 0 + 256 * byteAt w 1 + 65536 * byteAt w 2 + 16777216 * byteAt w 3).
  change (u32_at (bmpHeader w h) 22)
    with (byteAt (- h) 0 + 256 * byteAt (- h) 1 + 65536 * byteAt (- h) 2
          + 16777216 * byteAt (- h) 3).
  change (u16_at (bmpHeader w h) 28) with (byteAt 24 0 + 256 * byteAt 24 1).
  change (u32_at (bmpHeader w h) 10)
    with (byteAt 54 0 + 256 * byteAt 54 1 + 65536 * byteAt 54 2
          + 16777216 * byteAt 54 3).
  rewrite !u32_le32.
  change (byteAt 24 0 + 256 * byteAt 24 1) with 24.
  change (54 mod 2 ^ 32) with 54.
  assert (H1 : to_int32 (w mod 2 ^ 32) = w).
  { unfold to_int32. rewrite (Z.mod_small w) by lia. rewrite Z.mod_small; lia. }
  assert (H2 : to_int32 ((- h) mod 2 ^ 32) = - h).
  { unfold to_int32. rewrite Zplus_mod_idemp_l. rewrite Z.mod_small; lia. }
  rewrite H1, H2.
  destruct (Z.ltb_spec (- h) 0); [|lia].
  rewrite Z.opp_involutive, (to_int32_small h) by lia. reflexivity.
Qed.

Lemma length_rgb565to888 c : length (rgb565to888 c) = 3%nat.
Proof. reflexivity. Qed.

Lemma length_writePixels n : forall x y w buf,
  length (writePixels n x y w buf) = (3 * n)%nat.
Proof.
  induction n as [|n IH]; intros x y w buf; [done|].
  cbn [writePixels]. rewrite length_app, IH, length_rgb565to888. lia.
Qed.

(** Storing the next pixel of the original extends the part of [tempImg]
    that already agrees with it. *)
Lemma poke_boundary (buf img0 : list Z) i v :
  0 <= i -> length img0 = length buf -> buf !! Z.to_nat i = Some v ->
  poke i v (take (Z.to_nat i) buf ++ drop (Z.to_nat i) img0)
  = Some (take (Z.to_nat (i + 1)) buf ++ drop (Z.to_nat (i + 1)) img0).
Proof.
  intros Hi Hlen Hv. pose proof (lookup_lt_Some _ _ _ Hv) as Hlt.
  rewrite poke_Some
    by (rewrite length_app, length_take, length_drop; lia).
  f_equal.
  rewrite insert_app_r_alt by (rewrite length_take; lia).
  rewrite length_take. replace (Z.to_nat i - Z.to_nat i `min` length buf)%nat
    with 0%nat by lia.
  destruct (lookup_lt_is_Some_2 img0 (Z.to_nat i) ltac:(lia)) as [u Hu].
  rewrite (drop_S img0 u (Z.to_nat i)) by done. cbn.
  replace (Z.to_nat (i + 1)) with (S (Z.to_nat i)) by lia.
  rewrite (take_S_r buf (Z.to_nat i) v) by done.
  by rewrite <- (assoc_L (++)).
Qed.

Lemma readPixels_written n : forall x rowData rest y w buf img0,
  0 <= x -> 0 <= y * w -> length img0 = length buf ->
  (Z.to_nat (y * w + x) + n <= length buf)%nat ->
  Forall (fun c => 0 <= c < 65536) buf ->
  drop (Z.to_nat (x * 3)) rowData = writePixels n x y w buf ++ rest ->
  readPixels n x rowData y w
    (take (Z.to_nat (y * w + x)) buf ++ drop (Z.to_nat (y * w + x)) img0)
  = Some (take (Z.to_nat (y * w + x) + n) buf
          ++ drop (Z.to_nat (y * w + x) + n) img0).
Proof.
  induction n as [|n IH]; intros x rowData rest y w buf img0 Hx Hy Hlen Hfit Hpx Hrow.
  - cbn. by rewrite !Nat.add_0_r.
  - cbn [readPixels writePixels] in *.
    destruct (lookup_lt_is_Some_2 buf (Z.to_nat (y * w + x)) ltac:(lia)) as [c Hc].
    rewrite (rd_lookup _ _ _ Hc) in Hrow.
    destruct (rgb565_roundtrip c) as (b & g & r & Hbytes & Hback & _).
    { eapply Forall_lookup_1 in Hpx; [|exact Hc]. done. }
    rewrite Hbytes in Hrow. cbn [app] in Hrow.
    assert (Hbyte : forall k v, [b; g; r] !! k = Some v ->
              rd rowData (Z.to_nat (x * 3) + k) = v).
    { intros k v Hk. apply rd_lookup.
      pose proof (lookup_drop rowData (Z.to_nat (x * 3)) k) as Hd.
      etrans; [symmetry; exact Hd|]. etrans; [exact (f_equal (.!! k) Hrow)|].
      destruct k as [|[|[|k]]]; cbn in Hk |- *; done. }
    assert (Hb : rd rowData (Z.to_nat (x * 3)) = b).
    { rewrite <- (Hbyte 0%nat b eq_refl). f_equal. lia. }
    assert (Hg : rd rowData (Z.to_nat (x * 3 + 1)) = g).
    { rewrite <- (Hbyte 1%nat g eq_refl). f_equal. lia. }
    assert (Hr : rd rowData (Z.to_nat (x * 3 + 2)) = r).
    { rewrite <- (Hbyte 2%nat r eq_refl). f_equal. lia. }
    rewrite Hb, Hg, Hr, Hback.
    rewrite poke_boundary by (try done; lia).
    cbn [mbind option_bind].
    replace (y * w + x + 1) with (y * w + (x + 1)) by lia.
    rewrite (IH (x + 1) rowData rest y w buf img0); try done; try lia.
    + do 2 f_equal; [f_equal; lia|f_equal; lia].
    + replace (Z.to_nat ((x + 1) * 3)) with (Z.to_nat (x * 3) + 3)%nat by lia.
      rewrite <- drop_drop, Hrow. done.
Qed.

Lemma readRows_written n : forall y stream rowData buf img0 w h pad off tail,
  0 < w -> 0 <= y -> pad = rowPadding w -> 0 <= pad ->
  w * 3 + pad <= Z.of_nat (length rowData) ->
  length img0 = length buf ->
  (Z.to_nat ((y + Z.of_nat n) * w) <= length buf)%nat ->
  Forall (fun c => 0 <= c < 65536) buf ->
  stream = writeRows n y w pad buf ++ tail ->
  readRows n y stream rowData (mkBMPInfo w h true off)
    (take (Z.to_nat (y * w)) buf ++ drop (Z.to_nat (y * w)) img0)
  = Some (take (Z.to_nat ((y + Z.of_nat n) * w)) buf
          ++ drop (Z.to_nat ((y + Z.of_nat n) * w)) img0).
Proof.
  induction n as [|n IH];
    intros y stream rowData buf img0 w h pad off tail Hw Hy Hpad Hp0 Hcap Hlen Hfit Hpx Hs.
  - cbn [readRows]. by rewrite Z.add_0_r.
  - cbn [readRows writeRows origWidth topDown] in *.
    rewrite <- Hpad.
    destruct (Z.gtb_spec (w * 3 + pad) (Z.of_nat (length rowData))); [lia|].
    set (row := writePixels (Z.to_nat w) 0 y w buf ++ replicate (Z.to_nat pad) 0).
    assert (Hrl : length row = Z.to_nat (w * 3 + pad)).
    { unfold row. rewrite length_app, length_writePixels, length_replicate. lia. }
    assert (Hsplit : stream = row ++ writeRows n (y + 1) w pad buf ++ tail).
    { rewrite Hs. unfold row. by rewrite <- !(assoc_L (++)). }
    assert (Hgot : take (Z.to_nat (w * 3 + pad)) stream = row).
    { rewrite Hsplit. by apply take_app_length'. }
    assert (Hrest : drop (Z.to_nat (w * 3 + pad)) stream
                    = writeRows n (y + 1) w pad buf ++ tail).
    { rewrite Hsplit. by apply drop_app_length'. }
    rewrite Hgot, Hrest.
    assert (Hyw : 0 <= y * w) by nia.
    pose proof (readPixels_written (Z.to_nat w) 0
                  (row ++ drop (length row) rowData)
                  (replicate (Z.to_nat pad) 0 ++ drop (length row) rowData)
                  y w buf img0 ltac:(lia) Hyw Hlen) as Hrp.
    rewrite Z.add_0_r in Hrp. rewrite Hrp; clear Hrp.
    + cbn [mbind option_bind].
      replace (Z.to_nat (y * w) + Z.to_nat w)%nat with (Z.to_nat ((y + 1) * w)) by nia.
      rewrite (IH (y + 1) _ _ buf img0 w h pad off tail); try done; try lia.
      * do 2 f_equal; [f_equal; f_equal; lia|f_equal; f_equal; lia].
      * rewrite length_app, length_drop. lia.
    + nia.
    + done.
    + cbn [Z.mul]. rewrite drop_0. unfold row. by rewrite <- (assoc_L (++)).
Qed.

Lemma rowPadding_range w : 0 < w -> 0 <= rowPadding w < 4.
Proof.
  intros Hw. unfold rowPadding.
  rewrite !Z.rem_mod_nonneg; try lia.
  - apply Z.mod_pos_bound. lia.
  - rewrite Z.rem_mod_nonneg by lia. pose proof (Z.mod_pos_bound (w * 3) 4). lia.
Qed.

(** X25 — A screenshot read back.  For a frame buffer of [w * h] 16-bit
    pixels ([w] up to 720, so that a row fits the loader's [rowData]), the
    file written by [takeScreenshot] is accepted by [loadBMPFile]: the
    header is read back as a top-down 24-bit image of [w] x [h] pixels with
    its data at offset 54, every row read is complete, no pixel is stored
    outside [tempImg], and [tempImg] ends up holding exactly the pixels of
    the frame buffer, whatever the two buffers held before.  The file is
    [54 + (3 w + padding) h] bytes long, each row a multiple of 4 bytes. *)
Theorem screenshot_file_loads_back w h buf rowData img0 :
  0 < w <= 720 -> 0 < h < 32768 ->
  length buf = Z.to_nat (w * h) -> Forall (fun c => 0 <= c < 65536) buf ->
  length rowData = 2164%nat -> length img0 = length buf ->
  loadBMPPixels (writeBMP w h buf) rowData img0
    = Some (mkBMPInfo w h true 54, buf) /\
  Z.of_nat (length (writeBMP w h buf)) = 54 + (3 * w + rowPadding w) * h /\
  (3 * w + rowPadding w) mod 4 = 0.
Proof.
  intros Hw Hh Hlen Hpx Hrd Himg.
  pose proof (rowPadding_range w ltac:(lia)) as Hpad.
  split; [|split].
  - unfold loadBMPPixels, writeBMP.
    rewrite readBMPHeader_writeBMP by lia.
    cbn [origHeight dataOffset]. change (Z.to_nat 54) with 54%nat.
    rewrite drop_app_length' by apply (length_bmpHeader w h).
    pose proof (readRows_written (Z.to_nat h) 0
                  (writeRows (Z.to_nat h) 0 w (rowPadding w) buf)
                  rowData buf img0 w h (rowPadding w) 54 []
                  ltac:(lia) ltac:(lia) eq_refl ltac:(lia)) as Hrr.
    change (0 * w) with 0 in Hrr. change (Z.to_nat 0) with 0%nat in Hrr.
    rewrite take_0, drop_0 in Hrr. cbn [app] in Hrr.
    rewrite Hrr; try done; try lia.
    + rewrite take_ge, drop_ge by (rewrite ?Himg, Hlen; nia).
      by rewrite app_nil_r.
    + by rewrite app_nil_r.
  - unfold writeBMP. rewrite length_app, length_bmpHeader.
    assert (Hrows : forall n y,
              length (writeRows n y w (rowPadding w) buf)
              = (n * Z.to_nat (3 * w + rowPadding w))%nat).
    { induction n as [|n IH]; intros y; [done|].
      cbn [writeRows]. rewrite !length_app, length_writePixels, length_replicate, IH.
      lia. }
    rewrite Hrows. nia.
  - unfold rowPadding. rewrite !Z.rem_mod_nonneg; try lia.
    + Z.div_mod_to_equations. lia.
    + rewrite Z.rem_mod_nonneg by lia. pose proof (Z.mod_pos_bound (w * 3) 4). lia.
Qed.

Lemma screenshot_file_loads_back_witness :
  loadBMPPixels (screenshotFile (replicate pixelCount 31))
                (replicate 2164 170) (replicate pixelCount 43690)
  = Some (mkBMPInfo SCREEN_WIDTH SCREEN_HEIGHT true 54, replicate pixelCount 31).
Proof.
  refine (proj1 (screenshot_file_loads_back SCREEN_WIDTH SCREEN_HEIGHT
                   (replicate pixelCount 31)
                   (replicate 2164 170) (replicate pixelCount 43690) _ _ _ _ _ _)).
  - unfold SCREEN_WIDTH. lia.
  - unfold SCREEN_HEIGHT. lia.
  - apply length_replicate.
  - apply Forall_replicate. lia.
  - apply length_replicate.
  - by rewrite !length_replicate.
Defined.

(** A 2 x 2 image, with two bytes of padding per row. *)
Example writeBMP_small :
  writeBMP 2 2 [63519; 31; 2016; 65535]
  = [66; 77; 70; 0; 0; 0; 0; 0; 0; 0; 54; 0; 0; 0;
     40; 0; 0; 0; 2; 0; 0; 0; 254; 255; 255; 255; 1; 0; 24; 0;
     0; 0; 0; 0; 16; 0; 0; 0; 0; 0; 0; 0; 0; 0; 0; 0; 0; 0; 0; 0; 0; 0; 0; 0;
     248; 0; 248; 248; 0; 0; 0; 0;
     0; 252; 0; 248; 252; 248; 0; 0].
Proof. reflexivity. Qed.

(** ** Canvas: no store outside the pixel array *)

(** X26 — [fillRect] is memory safe on the canvas the program allocates.
    On the 240 x 135 canvas made by [new PSRAMCanvas16(...)] a call of
    [fillRect] with any [int16_t] arguments at all (negative sizes and
    sums that wrap around included) returns normally and stores only
    inside the pixel array; without a pixel array (both allocations
    failed) it does nothing. *)
Theorem canvasFillRect_never_leaves_buffer heapOk x y w h color :
  -32768 <= x < 32768 -> -32768 <= y < 32768 ->
  -32768 <= w < 32768 -> -32768 <= h < 32768 ->
  exists c',
    onCanvas (canvasFillRect SCREEN_WIDTH SCREEN_HEIGHT x y w h color)
             (newCanvas heapOk) = Some c' /\
    length <$> buffer c' = length <$> buffer (newCanvas heapOk) /\
    (heapOk = false -> c' = newCanvas false).
Proof.
  intros Hx Hy Hw Hh. unfold onCanvas, newCanvas. cbn [buffer].
  destruct heapOk; [|by eexists].
  set (px := replicate pixelCount 0).
  assert (Hlen : length px = Z.to_nat (SCREEN_WIDTH * SCREEN_HEIGHT))
    by apply length_replicate.
  clearbody px. unfold canvasFillRect, SCREEN_WIDTH, SCREEN_HEIGHT in *.
  pose proof (to_int16_range (w + x)) as Hwx.
  pose proof (to_int16_range (h + y)) as Hhy.
  destruct (if x <? 0 then (to_int16 (w + x), 0) else (w, x)) as [w1 x1] eqn:Ex.
  assert (Hx1 : 0 <= x1 < 32768 /\ -32768 <= w1 < 32768).
  { destruct (Z.ltb_spec x 0); injection Ex as <- <-; lia. }
  destruct (if y <? 0 then (to_int16 (h + y), 0) else (h, y)) as [h1 y1] eqn:Ey.
  assert (Hy1 : 0 <= y1 < 32768 /\ -32768 <= h1 < 32768).
  { destruct (Z.ltb_spec y 0); injection Ey as <- <-; lia. }
  set (w2 := if x1 + w1 >? 240 then to_int16 (240 - x1) else w1).
  assert (Hw2 : x1 + w2 <= 240).
  { unfold w2. rewrite Z.gtb_ltb. destruct (Z.ltb_spec 240 (x1 + w1)); [|lia].
    rewrite to_int16_small; lia. }
  set (h2 := if y1 + h1 >? 135 then to_int16 (135 - y1) else h1).
  assert (Hh2 : y1 + h2 <= 135).
  { unfold h2. rewrite Z.gtb_ltb. destruct (Z.ltb_spec 135 (y1 + h1)); [|lia].
    rewrite to_int16_small; lia. }
  clearbody w2 h2.
  destruct (Z.leb_spec w2 0); cbn [orb].
  { eexists. split; [reflexivity|]. split; done. }
  destruct (Z.leb_spec h2 0).
  { eexists. split; [reflexivity|]. split; done. }
  destruct (fillRows_spec 240 135 x1 (Z.to_nat w2) color (Z.to_nat h2) y1 px
              ltac:(lia) ltac:(lia) ltac:(lia) ltac:(lia) ltac:(lia) Hlen)
    as (px' & Hrun & Hlen' & _).
  rewrite Hrun. eexists. split; [reflexivity|]. split; [|done].
  cbn. by rewrite Hlen'.
Qed.

Lemma canvasFillRect_never_leaves_buffer_witness :
  exists c',
    onCanvas (canvasFillRect SCREEN_WIDTH SCREEN_HEIGHT (-1) (-32768) (-32768) 32767 5)
             (newCanvas true) = Some c' /\
    length <$> buffer c' = Some pixelCount.
Proof.
  destruct (canvasFillRect_never_leaves_buffer true (-1) (-32768) (-32768) 32767 5
              ltac:(lia) ltac:(lia) ltac:(lia) ltac:(lia)) as (c' & H1 & H2 & _).
  exists c'. split; [exact H1|]. rewrite H2.
  exact (f_equal Some (length_replicate pixelCount 0)).
Defined.

(** ** Scroll bar drag of the file list *)

(** X27 — Dragging the scroll bar of the Files window.  For a Files window
    that is maximized or at least 49 pixels high (its minimum height is
    80), with up to 100 entries, the scroll offset computed from the
    cursor row lies between 0 and [max 0 (fileCount - maxVisible)], is 0
    with the cursor at or above the top of the list, and is the maximum
    with the cursor at or below its bottom. *)
Theorem fileScrollDrag_in_range r my fileCount :
  DeskWindow.maximized r = true \/
    (49 <= DeskWindow.h r <= SCREEN_HEIGHT /\ 0 <= DeskWindow.y r < SCREEN_HEIGHT) ->
  0 <= my < SCREEN_HEIGHT -> 0 <= fileCount <= 100 ->
  let '(listY, listH, maxVisible) := fileListGeometry r in
  let maxScroll := Z.max 0 (fileCount - maxVisible) in
  0 <= listH /\ 0 <= maxVisible /\
  0 <= fileScrollDrag r my fileCount <= maxScroll /\
  (my <= listY -> fileScrollDrag r my fileCount = 0) /\
  (listY + listH <= my -> 0 < listH -> fileScrollDrag r my fileCount = maxScroll).
Proof.
  intros Hgeo Hmy Hfc. unfold fileScrollDrag.
  destruct (fileListGeometry r) as [[listY listH] maxVisible] eqn:Eg.
  assert (Hl : 0 <= listH <= 135 /\ 0 <= maxVisible <= 135).
  { unfold fileListGeometry, SCREEN_HEIGHT, DESK_TASKBAR_H, DESK_TITLEBAR_H in *.
    destruct (DeskWindow.maximized r).
    - injection Eg as <- <- <-. vm_compute. repeat split; discriminate.
    - destruct Hgeo as [?|[Hh Hy]]; [done|].
      rewrite (to_int16_small (DeskWindow.y r + 18 + 1)) in Eg by lia.
      rewrite (to_int16_small (DeskWindow.h r - 18 - 3)) in Eg by lia.
      injection Eg as <- <- <-.
      assert (0 <= Z.quot (DeskWindow.h r - 18 - 3 - 12 - 12 - 4) 12 <= 135).
      { rewrite Z.quot_div_nonneg by lia. split; [apply Z.div_pos; lia|].
        apply Z.div_le_upper_bound; lia. }
      lia. }
  destruct Hl as [HlH HmV].
  set (maxScroll := Z.max 0 (fileCount - maxVisible)).
  assert (HmS : 0 <= maxScroll <= 100) by (unfold maxScroll; lia).
  clearbody maxScroll.
  set (rel0 := if my - listY <? 0 then 0 else my - listY).
  set (relY := if rel0 >? listH then listH else rel0).
  assert (Hrel : 0 <= relY <= listH /\
                 (my <= listY -> relY = 0) /\ (listY + listH <= my -> relY = listH)).
  { unfold relY, rel0. destruct (Z.ltb_spec (my - listY) 0).
    - rewrite Z.gtb_ltb. destruct (Z.ltb_spec listH 0); repeat split; lia.
    - rewrite Z.gtb_ltb. destruct (Z.ltb_spec listH (my - listY));
        repeat split; lia. }
  destruct Hrel as (Hr & Hr0 & Hr1). clearbody relY. clear rel0.
  assert (Hq : 0 <= Z.quot (relY * maxScroll) (Z.max 1 listH)).
  { rewrite Z.quot_div_nonneg by nia. apply Z.div_pos; nia. }
  split; [lia|]. split; [lia|]. rewrite Z.gtb_ltb. split; [|split].
  - destruct (Z.ltb_spec maxScroll (Z.quot (relY * maxScroll) (Z.max 1 listH))); lia.
  - intros Hle. rewrite (Hr0 Hle). cbn [Z.mul]. rewrite Z.quot_0_l by lia.
    destruct (Z.ltb_spec maxScroll 0); lia.
  - intros Hge Hpos. rewrite (Hr1 Hge).
    replace (Z.max 1 listH) with listH by lia.
    rewrite Z.mul_comm, Z.quot_mul by lia.
    destruct (Z.ltb_spec maxScroll maxScroll); lia.
Qed.

Lemma fileScrollDrag_in_range_witness :
  let r := openedWindow 0 6 "Files" in
  fileListGeometry r = (43, 51, 4) /\
  0 <= fileScrollDrag r 60 30 <= 26 /\
  fileScrollDrag r 43 30 = 0 /\ fileScrollDrag r 94 30 = 26.
Proof.
  cbn zeta.
  pose proof (fileScrollDrag_in_range (openedWindow 0 6 "Files") 60 30) as H.
  change (fileListGeometry (openedWindow 0 6 "Files")) with (43, 51, 4) in H.
  cbv iota zeta in H.
  destruct H as (_ & _ & Hr & _).
  - right. vm_compute. repeat split; discriminate.
  - unfold SCREEN_HEIGHT. lia.
  - lia.
  - split; [reflexivity|]. split; [exact Hr|]. split; reflexivity.
Defined.

(** ** Seconds tick *)

Lemma runTicks_frames n : forall j ls c,
  0 <= j < 31 -> 0 <= ls -> ls + FRAME_MS * (j + Z.of_nat n) < 2 ^ 32 ->
  runTicks (tickFrames (ls + FRAME_MS * (j + 1)) n) (ls, c)
  = (ls + 1023 * ((j + Z.of_nat n) / 31),
     Nat.iter (Z.to_nat ((j + Z.of_nat n) / 31)) (updateTime false None) c).
Proof.
  unfold FRAME_MS.
  induction n as [|n IH]; intros j ls c Hj Hls Hmax.
  - cbn. rewrite Z.add_0_r, Z.div_small by lia. cbn. f_equal. lia.
  - cbn [tickFrames runTicks foldl]. unfold FRAME_MS. unfold tickStep at 2.
    rewrite sub32_small by lia.
    replace (ls + 33 * (j + 1) - ls) with (33 * (j + 1)) by lia.
    destruct (Z.geb_spec (33 * (j + 1)) 1000) as [Hge|Hlt].
    + assert (j = 30) as -> by lia.
      fold (runTicks (tickFrames (ls + 33 * (30 + 1) + 33) n)
                     (ls + 33 * (30 + 1), updateTime false None c)).
      replace (ls + 33 * (30 + 1) + 33) with ((ls + 1023) + 33 * (0 + 1)) by lia.
      replace (ls + 33 * (30 + 1)) with (ls + 1023) by lia.
      rewrite IH by lia.
      replace ((30 + Z.of_nat (S n)) / 31) with (1 + (0 + Z.of_nat n) / 31)
        by (Z.div_mod_to_equations; lia).
      assert (0 <= (0 + Z.of_nat n) / 31) by (apply Z.div_pos; lia).
      f_equal; [lia|].
      rewrite Z2Nat.inj_add by lia. change (Z.to_nat 1) with 1%nat.
      rewrite Nat.add_comm, Nat.iter_add. reflexivity.
    + fold (runTicks (tickFrames (ls + 33 * (j + 1) + 33) n) (ls, c)).
      replace (ls + 33 * (j + 1) + 33) with (ls + 33 * ((j + 1) + 1)) by lia.
      rewrite IH by lia.
      replace (j + 1 + Z.of_nat n) with (j + Z.of_nat (S n)) by lia.
      reflexivity.
Qed.

(** X28 — The software clock runs slow.  With a frame every 33 ms and no
    time from the network, a second is counted on the first frame at least
    1000 ms after the last one counted, and the remainder is dropped
    ([lastSecond = currentTime]): over [n] frames after a counted second
    the clock is advanced [n / 31] times, one "second" per 1023 ms of real
    time. *)
Theorem seconds_tick_every_31_frames (n : nat) t0 c :
  0 <= t0 -> t0 + FRAME_MS * Z.of_nat n < 2 ^ 32 ->
  runTicks (tickFrames (t0 + FRAME_MS) n) (t0, c)
  = (t0 + 31 * FRAME_MS * (Z.of_nat n / 31),
     Nat.iter (Z.to_nat (Z.of_nat n / 31)) (updateTime false None) c).
Proof.
  intros Ht Hmax.
  pose proof (runTicks_frames n 0 t0 c ltac:(lia) Ht ltac:(lia)) as H.
  unfold FRAME_MS in *.
  replace (t0 + 33 * (0 + 1)) with (t0 + 33) in H by lia.
  rewrite H. change (0 + Z.of_nat n) with (Z.of_nat n).
  reflexivity.
Qed.

Lemma seconds_tick_every_31_frames_witness :
  runTicks (tickFrames (5000 + FRAME_MS) 62) (5000, mkClock 12 30 0 15 12 2025)
  = (5000 + 31 * FRAME_MS * (62 / 31),
     Nat.iter (Z.to_nat (62 / 31)) (updateTime false None)
              (mkClock 12 30 0 15 12 2025)).
Proof.
  apply (seconds_tick_every_31_frames 62 5000 (mkClock 12 30 0 15 12 2025)).
  - lia.
  - unfold FRAME_MS. lia.
Defined.

(** Two seconds counted in 2046 ms. *)
Example seconds_tick_two :
  runTicks (tickFrames (5000 + FRAME_MS) 62) (5000, mkClock 12 30 0 15 12 2025)
  = (7046, mkClock 12 30 2 15 12 2025).
Proof. reflexivity. Qed.

(** ** Tetris: hard drop *)

(** Every piece, in every rotation, has a cell. *)
Lemma piece_has_cell pieceType rot :
  0 <= pieceType < 7 -> 0 <= rot < 4 ->
  exists r c, (r, c) ∈ maskCells /\ 0 <= r /\
              pieceBit (pieceMask pieceType rot) r c = true.
Proof.
  intros Hp Hr.
  assert (Hex : existsb (fun '(r, c) => (0 <=? r) && pieceBit (pieceMask pieceType rot) r c)
                  maskCells = true).
  { assert (Hpt : pieceType = 0 \/ pieceType = 1 \/ pieceType = 2 \/ pieceType = 3
                  \/ pieceType = 4 \/ pieceType = 5 \/ pieceType = 6) by lia.
    assert (Hrt : rot = 0 \/ rot = 1 \/ rot = 2 \/ rot = 3) by lia.
    destruct Hpt as [->|[->|[->|[->|[->|[->| ->]]]]]];
      destruct Hrt as [->|[->|[->| ->]]]; vm_compute; reflexivity. }
  apply existsb_exists in Hex as ([r c] & Hin & Hb).
  apply andb_true_iff in Hb as [Hr0 Hb].
  exists r, c. split; [by apply list_elem_of_In|]. split; [lia|done].
Qed.

(** On or below the floor every position collides. *)
Lemma collision_below_floor b pieceType px q rot :
  0 <= pieceType < 7 -> 0 <= rot < 4 -> Z.of_nat TETRIS_ROWS <= q ->
  tetrisCheckCollision b pieceType px q rot = true.
Proof.
  intros Hp Hr Hq. destruct (piece_has_cell pieceType rot Hp Hr) as (r & c & Hin & Hr0 & Hbit).
  unfold tetrisCheckCollision. apply existsb_exists.
  exists (r, c). split; [by apply list_elem_of_In|].
  rewrite Hbit. cbn [andb].
  destruct (Z.geb_spec (q + r) (Z.of_nat TETRIS_ROWS)); [|lia].
  by rewrite !orb_true_r.
Qed.

Lemma hardDropLoop_lands b pieceType px rot fuel : forall py score,
  0 <= pieceType < 7 -> 0 <= rot < 4 ->
  (0 < fuel)%nat -> Z.of_nat TETRIS_ROWS - py < Z.of_nat fuel ->
  0 <= score -> score + 2 * Z.of_nat fuel < 2 ^ 31 ->
  exists py',
    hardDropLoop fuel b pieceType px rot py score
      = Some (py', score + 2 * (py' - py)) /\
    py <= py' /\
    tetrisCheckCollision b pieceType px (py' + 1) rot = true /\
    forall q, py < q <= py' -> tetrisCheckCollision b pieceType px q rot = false.
Proof.
  induction fuel as [|fuel IH]; intros py score Hp Hr Hpos Hfuel Hs Hmax; [lia|].
  cbn [hardDropLoop].
  destruct (tetrisCheckCollision b pieceType px (py + 1) rot) eqn:Hc.
  - exists py. split; [f_equal; f_equal; lia|]. split; [lia|]. split; [done|].
    intros q Hq. lia.
  - assert (Hlt : py + 1 < Z.of_nat TETRIS_ROWS).
    { destruct (Z.lt_ge_cases (py + 1) (Z.of_nat TETRIS_ROWS)); [done|].
      rewrite collision_below_floor in Hc; done. }
    rewrite to_int32_small by lia.
    destruct (IH (py + 1) (score + 2) Hp Hr ltac:(lia) ltac:(lia) ltac:(lia) ltac:(lia))
      as (py' & Hrun & Hle & Hrest & Hfree).
    exists py'. split; [rewrite Hrun; f_equal; f_equal; lia|].
    split; [lia|]. split; [done|].
    intros q Hq. destruct (decide (q = py + 1)) as [->|]; [done|].
    apply Hfree. lia.
Qed.

(** X29 — [tetrisHardDrop] always lands.  For every piece and rotation,
    from any row, the [while] loop of the hard drop ends after at most
    [TETRIS_ROWS - py] steps (the floor stops every piece): the piece ends
    on the last row of an unbroken run of free positions below its start,
    the position one row further down collides, and the score has grown by
    2 per row fallen. *)
Theorem tetrisHardDrop_lands b pieceType px rot py score :
  0 <= pieceType < 7 -> 0 <= rot < 4 ->
  -4 <= py -> 0 <= score < 1000000000 ->
  exists py',
    tetrisHardDrop b pieceType px rot py score
      = Some (py', score + 2 * (py' - py)) /\
    py <= py' /\ (py' < Z.of_nat TETRIS_ROWS \/ py' = py) /\
    tetrisCheckCollision b pieceType px (py' + 1) rot = true /\
    forall q, py < q <= py' -> tetrisCheckCollision b pieceType px q rot = false.
Proof.
  intros Hp Hr Hpy Hs. unfold tetrisHardDrop.
  destruct (hardDropLoop_lands b pieceType px rot
              (S (Z.to_nat (Z.of_nat TETRIS_ROWS - py))) py score Hp Hr)
    as (py' & Hrun & Hle & Hrest & Hfree).
  - lia.
  - lia.
  - lia.
  - unfold TETRIS_ROWS. lia.
  - exists py'. split; [done|]. split; [done|]. split; [|done].
    destruct (Z.lt_ge_cases py' (Z.of_nat TETRIS_ROWS)) as [|Hge]; [by left|].
    right. destruct (decide (py' = py)) as [|Hne]; [done|].
    pose proof (Hfree py' ltac:(lia)) as Hf.
    rewrite collision_below_floor in Hf; done.
Qed.

Lemma tetrisHardDrop_lands_witness :
  tetrisHardDrop (replicate 20 emptyRow) 1 4 0 0 10 = Some (18, 46).
Proof.
  destruct (tetrisHardDrop_lands (replicate 20 emptyRow) 1 4 0 0 10
              ltac:(lia) ltac:(lia) ltac:(lia) ltac:(lia)) as (py' & H & _).
  reflexivity.
Defined.

(** ** Tetris: locking a piece *)








